(** * aiosip: dialog and message core

  A shallow embedding of [aiosip/message.py] and [aiosip/dialog.py],
  and the properties of the dialog/transaction core stated over it.

  - [Py]           : the Python values both files share (exceptions,
                     [str] helpers, [int()]).
  - [CIMultiDict]  : the case-insensitive ordered header map.
  - [DialogModel]  : [aiosip/dialog.py], as a state-and-exception monad
                     over the objects a dialog touches.
  - [MessageModel] : [aiosip/message.py], at the level of header lines
                     and bytes. *)

From Stdlib Require Import ZArith Lia Bool Ascii String List.
From Stdlib Require OrderedTypeEx.
From stdpp Require Import gmap strings list fin_maps sorting.

Local Open Scope Z_scope.

(* ===================================================================== *)
(** * Python values *)
(* ===================================================================== *)

Module Py.

(** Exceptions the two files raise or let through.  [Raised name] is any
    exception that comes from outside (a timeout, a cancellation, a lost
    connection); [Stuck] marks a reference to no object, which no Python
    state contains. *)
Inductive exn : Type :=
| KeyError
| IndexError
| TypeError
| AttributeError
| OverflowError
| ValueError (msg : string)
| Raised (name : string)
| Stuck.

Inductive result (A : Type) : Type :=
| Ok (a : A)
| Raise (e : exn).
Arguments Ok {A} a.
Arguments Raise {A} e.

Definition is_ok {A} (r : result A) : bool :=
  match r with Ok _ => true | Raise _ => false end.

Definition rbind {A B} (r : result A) (k : A -> result B) : result B :=
  match r with Ok a => k a | Raise e => Raise e end.

(** ** [str] helpers (ASCII range) *)

Definition is_upper (c : ascii) : bool :=
  let n := nat_of_ascii c in (Nat.leb 65 n && Nat.leb n 90)%bool.
Definition is_lower (c : ascii) : bool :=
  let n := nat_of_ascii c in (Nat.leb 97 n && Nat.leb n 122)%bool.
Definition is_digit (c : ascii) : bool :=
  let n := nat_of_ascii c in (Nat.leb 48 n && Nat.leb n 57)%bool.
Definition is_alpha (c : ascii) : bool := (is_upper c || is_lower c)%bool.

Definition lower_char (c : ascii) : ascii :=
  if is_upper c then ascii_of_nat (nat_of_ascii c + 32) else c.
Definition upper_char (c : ascii) : ascii :=
  if is_lower c then ascii_of_nat (nat_of_ascii c - 32) else c.

Fixpoint smap (f : ascii -> ascii) (s : string) : string :=
  match s with
  | EmptyString => EmptyString
  | String c s' => String (f c) (smap f s')
  end.

(** [s.lower()] and [s.upper()]. *)
Definition lower : string -> string := smap lower_char.
Definition upper : string -> string := smap upper_char.

(** ** [int(s)] for a [str]

    Base ten, as CPython reads it: blanks around the number are dropped,
    one sign may lead, and single underscores may sit between digits.
    (Digits and blanks outside ASCII are not modelled.) *)

Definition is_space (c : ascii) : bool :=
  let n := nat_of_ascii c in
  ((Nat.leb 9 n && Nat.leb n 13) || (Nat.leb 28 n && Nat.leb n 32))%bool.

Fixpoint lstrip (s : string) : string :=
  match s with
  | EmptyString => EmptyString
  | String c s' => if is_space c then lstrip s' else s
  end.

Fixpoint rstrip (s : string) : string :=
  match s with
  | EmptyString => EmptyString
  | String c s' =>
      match rstrip s' with
      | EmptyString => if is_space c then EmptyString else String c EmptyString
      | r => String c r
      end
  end.

Definition strip (s : string) : string := lstrip (rstrip s).

Definition digit_value (c : ascii) : Z := Z.of_nat (nat_of_ascii c) - 48.

(** [after_digit] tells whether the previous character was a digit: an
    underscore is read only there, and the text may end only there. *)
Fixpoint digits_value (acc : Z) (after_digit : bool) (s : string) : option Z :=
  match s with
  | EmptyString => if after_digit then Some acc else None
  | String c s' =>
      if is_digit c then digits_value (10 * acc + digit_value c) true s'
      else if (Ascii.eqb c "_" && after_digit)%bool then digits_value acc false s'
      else None
  end.

Definition invalid_literal : exn := ValueError "invalid literal for int() with base 10".

Definition py_int (s : string) : result Z :=
  let body := strip s in
  let signed :=
    match body with
    | String "-" r => option_map Z.opp (digits_value 0 false r)
    | String "+" r => digits_value 0 false r
    | _ => digits_value 0 false body
    end in
  match signed with
  | Some z => Ok z
  | None => Raise invalid_literal
  end.

(** ** [str(n)] for an [int] *)

Definition digit_char (d : Z) : ascii := ascii_of_nat (48 + Z.to_nat d).

(** The decimal digits of [n >= 0] in front of [acc]; [fuel] bounds the
    number of digits. *)
Fixpoint digits_of (fuel : nat) (n : Z) (acc : string) : string :=
  match fuel with
  | O => acc
  | S fuel' =>
      let acc' := String (digit_char (n mod 10)) acc in
      if n <? 10 then acc' else digits_of fuel' (n / 10) acc'
  end.

Definition str_of_nonneg (n : Z) : string :=
  digits_of (S (Z.to_nat (Z.log2 n))) n EmptyString.

Definition str_of_Z (z : Z) : string :=
  if z <? 0 then String "-" (str_of_nonneg (- z)) else str_of_nonneg z.

(** ** Splitting and joining *)

Definition CR : ascii := ascii_of_nat 13.
Definition LF : ascii := ascii_of_nat 10.

(** [utils.EOL] *)
Definition EOL : string := String CR (String LF EmptyString).

(** [sep.join(parts)] *)
Fixpoint join (sep : string) (parts : list string) : string :=
  match parts with
  | [] => EmptyString
  | [p] => p
  | p :: rest => p +:+ sep +:+ join sep rest
  end.

(** Puts [c] in front of the first part. *)
Definition cons_first (c : ascii) (parts : list string) : list string :=
  match parts with
  | [] => [String c EmptyString]
  | p :: ps => String c p :: ps
  end.

(** [s.split('\r\n')] *)
Fixpoint split_eol (s : string) : list string :=
  match s with
  | EmptyString => [EmptyString]
  | String c s' =>
      match s' with
      | String c' s'' =>
          if (Ascii.eqb c CR && Ascii.eqb c' LF)%bool
          then EmptyString :: split_eol s''
          else cons_first c (split_eol s')
      | EmptyString => [String c EmptyString]
      end
  end.

(** [s.split(': ', 1)], when the separator is there: what comes before
    its first occurrence and what comes after. *)
Fixpoint split_colon (s : string) : option (string * string) :=
  match s with
  | EmptyString => None
  | String c s' =>
      let later :=
        match split_colon s' with
        | Some (k, v) => Some (String c k, v)
        | None => None
        end in
      if Ascii.eqb c ":" then
        match s' with
        | String " " s'' => Some (EmptyString, s'')
        | _ => later
        end
      else later
  end.

(** [s.split(sep)] for a separator of one character. *)
Fixpoint split_char (sep : ascii) (s : string) : list string :=
  match s with
  | EmptyString => [EmptyString]
  | String c s' =>
      if Ascii.eqb c sep then EmptyString :: split_char sep s'
      else cons_first c (split_char sep s')
  end.

(** [s.split()]: the runs of characters that are not blank. *)
Fixpoint words_from (word : string) (s : string) : list string :=
  match s with
  | EmptyString =>
      match word with EmptyString => [] | _ => [word] end
  | String c s' =>
      if is_space c then
        match word with
        | EmptyString => words_from EmptyString s'
        | _ => word :: words_from EmptyString s'
        end
      else words_from (word +:+ String c EmptyString) s'
  end.

Definition words (s : string) : list string := words_from EmptyString s.

(** The longest prefix whose characters satisfy [p], and the rest. *)
Fixpoint span (p : ascii -> bool) (s : string) : string * string :=
  match s with
  | EmptyString => (EmptyString, EmptyString)
  | String c s' =>
      if p c then let (a, b) := span p s' in (String c a, b)
      else (EmptyString, s)
  end.

(** Whether every character satisfies [p]. *)
Fixpoint all_chars (p : ascii -> bool) (s : string) : bool :=
  match s with
  | EmptyString => true
  | String c s' => (p c && all_chars p s')%bool
  end.

(** [bool(n)] and [x or y] for an [int] that may be [None]. *)
Definition truthy (o : option Z) : bool :=
  match o with
  | Some z => negb (z =? 0)
  | None => false
  end.

End Py.
Export Py.

(* ===================================================================== *)
(** * multidict.CIMultiDict *)
(* ===================================================================== *)

(** A header value is what the two files store in a header map: a [str],
  a [list] of them (a header seen several times), or an [int]
  ([headers['Expires'] = 0]). *)
Inductive hval : Type :=
| HStr (s : string)
| HList (l : list string)
| HInt (z : Z).

#[export] Instance hval_eq_dec : EqDecision hval.
Proof. solve_decision. Defined.

(** [int(v)] for a header value. *)
Definition int_of_hval (v : hval) : result Z :=
  match v with
  | HStr s => py_int s
  | HInt z => Ok z
  | HList _ => Raise TypeError
  end.

Module CIMultiDict.

(** The map keeps its items in insertion order, each under the key as
    it was written; keys are matched without regard to case. *)
Definition t : Type := list (string * hval).

Definition same_key (k1 k2 : string) : bool :=
  String.eqb (lower k1) (lower k2).

(** [k in h] *)
Definition contains (k : string) (h : t) : bool :=
  existsb (fun kv => same_key k (fst kv)) h.

(** [h.get(k)]: the first value under [k]. *)
Fixpoint find (k : string) (h : t) : option hval :=
  match h with
  | [] => None
  | (k', v) :: h' => if same_key k k' then Some v else find k h'
  end.

(** [h[k]] *)
Definition getitem (k : string) (h : t) : result hval :=
  match find k h with
  | Some v => Ok v
  | None => Raise KeyError
  end.

Definition remove (k : string) (h : t) : t :=
  List.filter (fun kv => negb (same_key k (fst kv))) h.

(** [h[k] = v]: the first item under [k] is replaced where it stands,
    by the key as now written, and the later ones are dropped; with no
    such item the pair is appended. *)
Fixpoint setitem (k : string) (v : hval) (h : t) : t :=
  match h with
  | [] => [(k, v)]
  | (k', v') :: h' =>
      if same_key k k' then (k, v) :: remove k h'
      else (k', v') :: setitem k v h'
  end.

(** [h.setdefault(k, d)]: the value under [k], after adding [d] under
    it when there was none. *)
Definition setdefault (k : string) (d : hval) (h : t) : hval * t :=
  match find k h with
  | Some v => (v, h)
  | None => (d, h ++ [(k, d)])
  end.

(** [h.items()] *)
Definition items (h : t) : list (string * hval) := h.

End CIMultiDict.


(* ===================================================================== *)
(** * Contacts *)
(* ===================================================================== *)

(** Modelled from the spec: [Contact] and its URI ([contact.py] and
    [uri.py] are not part of the sources).  A contact is a URI plus a
    parameter mapping, of which [tag] is the dialog identity contribution;
    of the URI the two files read the host, the port and the short form
    that goes on a request line. *)
Record Uri : Type := mkUri {
  host : string;
  port : option Z;
  short_uri : string
}.

Record Contact : Type := mkContact {
  uri : Uri;
  params : gmap string string
}.

(** Modelled from the spec: [utils.format_host_and_port] ([utils.py] is
    not part of the sources), the [<host>[:<port>]] of a Via line. *)
Definition format_host_and_port (h : string) (p : option Z) : string :=
  match p with
  | Some n => h +:+ ":" +:+ str_of_Z n
  | None => h
  end.

(** [c['params'][k] = v] *)
Definition set_param (k v : string) (c : Contact) : Contact :=
  {| uri := uri c; params := <[k := v]> (params c) |}.

(* ===================================================================== *)
(** * aiosip/dialog.py *)
(* ===================================================================== *)

Module DialogModel.

(** ** Objects *)

Inductive CallState : Type := Calling | Proceeding | Completed | Terminated.

(** Contacts are objects: a dialog, its original request and the requests
    it builds later hold the same [Contact], and a tag written through one
    is read through the others.  They live in a store and are held by
    location. *)
Definition loc : Type := nat.

(** A message as [dialog.py] reads it, through the accessors of
    [message.py]: [m_status_code] is [Some] for a [Response] and [None]
    for a [Request], which has no such attribute. *)
Record Msg : Type := mkMsg {
  m_status_code : option Z;
  m_method : string;
  m_cseq : Z;
  m_from_details : loc;
  m_to_details : loc;
  m_contact_details : option loc;
  m_headers : CIMultiDict.t;
  m_payload : string
}.

Definition is_Response (msg : Msg) : bool :=
  match m_status_code msg with Some _ => true | None => false end.

(** Modelled from the spec: [UnreliableTransaction] ([transaction.py] is
    not part of the sources).  A transaction wraps one outbound request;
    [_incoming] feeds it a received message, [close] cancels it. *)
Record Transaction : Type := mkTransaction {
  t_original_msg : Msg;
  t_incoming : list Msg;
  t_closed : bool
}.

(** An [asyncio.Future] holding a message. *)
Inductive Future : Type :=
| Pending
| Done (msg : Msg)
| Cancelled.

Definition done (f : Future) : bool :=
  match f with Pending => false | _ => true end.

(** The task [close_later] hands to the event loop: sleep [t_delay]
    seconds, then close the dialog, unless cancelled before. *)
Record Task : Type := mkTask {
  t_delay : Z;
  t_cancelled : bool
}.

(** Modelled from the spec: the challenge and credential descriptors of
    [auth.py], which is not part of the sources.  Both are mappings of
    text fields. *)
Inductive Auth : Type :=
| AuthenticateAuth (fields : gmap string string)
| AuthorizationAuth (fields : gmap string string).

(** A dialog id is a [frozenset] of the two tags and the call id; [None]
    stands for a tag not yet known. *)
Definition DialogId : Type := gset (option string).

(** [DialogBase] with the fields its two subclasses add: [_incoming] is
    [Dialog]'s queue; [_queue], [_state] and [_waiter] are
    [InviteDialog]'s. *)
Record DialogObj : Type := mkDialog {
  from_details : loc;
  to_details : loc;
  contact_details : option loc;
  call_id : string;
  password : option string;
  cseq : Z;
  inbound : bool;
  transactions : gmap string (gmap Z Transaction);
  auth : option Auth;
  original_msg : Msg;
  _closed : bool;
  _closing : option nat;
  _incoming : list Msg;
  _queue : list Msg;
  _state : CallState;
  _waiter : Future
}.

(** What a dialog reaches: the contact objects, the application
    ([app._dialogs], [app.defaults]), the peer (the messages handed to
    [send_message], oldest first), the tasks of the event loop, the
    tokens [utils.gen_branch] draws one after the other, what
    [Contact.from_header] makes of a header value ([contact.py] is not
    part of the sources, and the parser is left open), and the dialog
    itself, which the registry holds as [self_ref]. *)
Record World : Type := mkWorld {
  contacts : gmap loc Contact;
  app_dialogs : gmap DialogId nat;
  user_agent : string;
  dialog_closing_delay : Z;
  sent : list Msg;
  tasks : list Task;
  branches : nat -> string;
  drawn : nat;
  from_header : hval -> result Contact;
  self_ref : nat;
  self : DialogObj
}.

(** ** Field updates *)

Definition set_contact_details (v : option loc) (x : DialogObj) : DialogObj :=
  {| from_details := from_details x; to_details := to_details x;
     contact_details := v; call_id := call_id x; password := password x;
     cseq := cseq x; inbound := inbound x; transactions := transactions x;
     auth := auth x; original_msg := original_msg x; _closed := _closed x;
     _closing := _closing x; _incoming := _incoming x; _queue := _queue x;
     _state := _state x; _waiter := _waiter x |}.

Definition set_cseq (v : Z) (x : DialogObj) : DialogObj :=
  {| from_details := from_details x; to_details := to_details x;
     contact_details := contact_details x; call_id := call_id x;
     password := password x; cseq := v; inbound := inbound x;
     transactions := transactions x; auth := auth x;
     original_msg := original_msg x; _closed := _closed x;
     _closing := _closing x; _incoming := _incoming x; _queue := _queue x;
     _state := _state x; _waiter := _waiter x |}.

Definition set_transactions (v : gmap string (gmap Z Transaction)) (x : DialogObj) : DialogObj :=
  {| from_details := from_details x; to_details := to_details x;
     contact_details := contact_details x; call_id := call_id x;
     password := password x; cseq := cseq x; inbound := inbound x;
     transactions := v; auth := auth x; original_msg := original_msg x;
     _closed := _closed x; _closing := _closing x; _incoming := _incoming x;
     _queue := _queue x; _state := _state x; _waiter := _waiter x |}.

Definition set_auth (v : option Auth) (x : DialogObj) : DialogObj :=
  {| from_details := from_details x; to_details := to_details x;
     contact_details := contact_details x; call_id := call_id x;
     password := password x; cseq := cseq x; inbound := inbound x;
     transactions := transactions x; auth := v;
     original_msg := original_msg x; _closed := _closed x;
     _closing := _closing x; _incoming := _incoming x; _queue := _queue x;
     _state := _state x; _waiter := _waiter x |}.

Definition set_closed (v : bool) (x : DialogObj) : DialogObj :=
  {| from_details := from_details x; to_details := to_details x;
     contact_details := contact_details x; call_id := call_id x;
     password := password x; cseq := cseq x; inbound := inbound x;
     transactions := transactions x; auth := auth x;
     original_msg := original_msg x; _closed := v; _closing := _closing x;
     _incoming := _incoming x; _queue := _queue x; _state := _state x;
     _waiter := _waiter x |}.

Definition set_closing (v : option nat) (x : DialogObj) : DialogObj :=
  {| from_details := from_details x; to_details := to_details x;
     contact_details := contact_details x; call_id := call_id x;
     password := password x; cseq := cseq x; inbound := inbound x;
     transactions := transactions x; auth := auth x;
     original_msg := original_msg x; _closed := _closed x; _closing := v;
     _incoming := _incoming x; _queue := _queue x; _state := _state x;
     _waiter := _waiter x |}.

Definition set_incoming (v : list Msg) (x : DialogObj) : DialogObj :=
  {| from_details := from_details x; to_details := to_details x;
     contact_details := contact_details x; call_id := call_id x;
     password := password x; cseq := cseq x; inbound := inbound x;
     transactions := transactions x; auth := auth x;
     original_msg := original_msg x; _closed := _closed x;
     _closing := _closing x; _incoming := v; _queue := _queue x;
     _state := _state x; _waiter := _waiter x |}.

Definition set_queue (v : list Msg) (x : DialogObj) : DialogObj :=
  {| from_details := from_details x; to_details := to_details x;
     contact_details := contact_details x; call_id := call_id x;
     password := password x; cseq := cseq x; inbound := inbound x;
     transactions := transactions x; auth := auth x;
     original_msg := original_msg x; _closed := _closed x;
     _closing := _closing x; _incoming := _incoming x; _queue := v;
     _state := _state x; _waiter := _waiter x |}.

Definition set_state (v : CallState) (x : DialogObj) : DialogObj :=
  {| from_details := from_details x; to_details := to_details x;
     contact_details := contact_details x; call_id := call_id x;
     password := password x; cseq := cseq x; inbound := inbound x;
     transactions := transactions x; auth := auth x;
     original_msg := original_msg x; _closed := _closed x;
     _closing := _closing x; _incoming := _incoming x; _queue := _queue x;
     _state := v; _waiter := _waiter x |}.

Definition set_waiter (v : Future) (x : DialogObj) : DialogObj :=
  {| from_details := from_details x; to_details := to_details x;
     contact_details := contact_details x; call_id := call_id x;
     password := password x; cseq := cseq x; inbound := inbound x;
     transactions := transactions x; auth := auth x;
     original_msg := original_msg x; _closed := _closed x;
     _closing := _closing x; _incoming := _incoming x; _queue := _queue x;
     _state := _state x; _waiter := v |}.

Definition with_contacts (v : gmap loc Contact) (x : World) : World :=
  {| contacts := v; app_dialogs := app_dialogs x; user_agent := user_agent x;
     dialog_closing_delay := dialog_closing_delay x; sent := sent x;
     tasks := tasks x; branches := branches x; drawn := drawn x;
     from_header := from_header x;
     self_ref := self_ref x; self := self x |}.

Definition with_app_dialogs (v : gmap DialogId nat) (x : World) : World :=
  {| contacts := contacts x; app_dialogs := v; user_agent := user_agent x;
     dialog_closing_delay := dialog_closing_delay x; sent := sent x;
     tasks := tasks x; branches := branches x; drawn := drawn x;
     from_header := from_header x;
     self_ref := self_ref x; self := self x |}.

Definition with_sent (v : list Msg) (x : World) : World :=
  {| contacts := contacts x; app_dialogs := app_dialogs x;
     user_agent := user_agent x;
     dialog_closing_delay := dialog_closing_delay x; sent := v;
     tasks := tasks x; branches := branches x; drawn := drawn x;
     from_header := from_header x;
     self_ref := self_ref x; self := self x |}.

Definition with_tasks (v : list Task) (x : World) : World :=
  {| contacts := contacts x; app_dialogs := app_dialogs x;
     user_agent := user_agent x;
     dialog_closing_delay := dialog_closing_delay x; sent := sent x;
     tasks := v; branches := branches x; drawn := drawn x;
     from_header := from_header x;
     self_ref := self_ref x; self := self x |}.

Definition with_drawn (v : nat) (x : World) : World :=
  {| contacts := contacts x; app_dialogs := app_dialogs x;
     user_agent := user_agent x;
     dialog_closing_delay := dialog_closing_delay x; sent := sent x;
     tasks := tasks x; branches := branches x; drawn := v;
     from_header := from_header x;
     self_ref := self_ref x; self := self x |}.

Definition with_self (v : DialogObj) (x : World) : World :=
  {| contacts := contacts x; app_dialogs := app_dialogs x;
     user_agent := user_agent x;
     dialog_closing_delay := dialog_closing_delay x; sent := sent x;
     tasks := tasks x; branches := branches x; drawn := drawn x;
     from_header := from_header x;
     self_ref := self_ref x; self := v |}.

(** ** State and exceptions

    A method runs on the world and either returns or raises; what it
    wrote before raising stays written. *)

Definition M (A : Type) : Type := World -> result A * World.

Definition ret {A} (a : A) : M A := fun w => (Ok a, w).

Definition raise {A} (e : exn) : M A := fun w => (Raise e, w).

Definition bind {A B} (m : M A) (k : A -> M B) : M B :=
  fun w =>
    match m w with
    | (Ok a, w') => k a w'
    | (Raise e, w') => (Raise e, w')
    end.

Notation "x <- m ;; k" := (bind m (fun x => k))
  (at level 100, m at next level, right associativity).
Notation "m ;;; k" := (bind m (fun _ => k))
  (at level 100, right associativity).

Definition lift {A} (r : result A) : M A := fun w => (r, w).

Definition get_world : M World := fun w => (Ok w, w).

(** [self] *)
Definition this : M DialogObj := fun w => (Ok (self w), w).

Definition update (f : DialogObj -> DialogObj) : M unit :=
  fun w => (Ok tt, with_self (f (self w)) w).

Definition update_world (f : World -> World) : M unit :=
  fun w => (Ok tt, f w).

(** [when c: body] *)
Definition when (c : bool) (body : M unit) : M unit :=
  if c then body else ret tt.

(** [try: body / except KeyError: handler] *)
Definition try_except_KeyError {A} (body handler : M A) : M A :=
  fun w =>
    match body w with
    | (Raise KeyError, w') => handler w'
    | other => other
    end.

(** [try: body / finally: final] *)
Definition try_finally {A} (body : M A) (final : M unit) : M A :=
  fun w =>
    match body w with
    | (r, w') =>
        match final w' with
        | (Ok _, w'') => (r, w'')
        | (Raise e, w'') => (Raise e, w'')
        end
    end.

(** What an [await] on a transaction comes back with: the result or the
    exception, and the world as the deliveries made meanwhile left it. *)
Definition Await : Type := World -> result Msg * World.

(** ** Collaborators *)

(** The contact object at a location. *)
Definition deref (l : loc) : M Contact :=
  fun w =>
    match contacts w !! l with
    | Some c => (Ok c, w)
    | None => (Raise Stuck, w)
    end.

(** [d[k]] for a [dict] of strings. *)
Definition dict_getitem (k : string) (d : gmap string string) : result string :=
  match d !! k with
  | Some v => Ok v
  | None => Raise KeyError
  end.

(** [self.peer.send_message(msg)] *)
Definition send_message (msg : Msg) : M unit :=
  update_world (fun w => with_sent (sent w ++ [msg]) w).

(** [del self.app._dialogs[key]] *)
Definition del_dialogs (key : DialogId) : M unit :=
  fun w =>
    match app_dialogs w !! key with
    | Some _ => (Ok tt, with_app_dialogs (delete key (app_dialogs w)) w)
    | None => (Raise KeyError, w)
    end.

(** [self.app._dialogs[key] = self] *)
Definition set_dialogs (key : DialogId) : M unit :=
  update_world (fun w => with_app_dialogs (<[key := self_ref w]> (app_dialogs w)) w).

(** [task.cancel()] *)
Definition cancel_task (i : nat) : M unit :=
  update_world (fun w =>
    with_tasks (alter (fun t => mkTask (t_delay t) true) i (tasks w)) w).

(** [asyncio.ensure_future(closure())], for the closure that sleeps
    [delay] seconds; the task's place among the loop's tasks is its
    handle. *)
Definition ensure_future (delay : Z) : M nat :=
  fun w => (Ok (length (tasks w)), with_tasks (tasks w ++ [mkTask delay false]) w).

(** Modelled from the spec: [utils.gen_branch] ([utils.py] is not part
    of the sources) draws a fresh branch token. *)
Definition gen_branch : M string :=
  fun w => (Ok (branches w (drawn w)), with_drawn (S (drawn w)) w).

(** [Contact.from_header(v)] *)
Definition Contact_from_header (v : hval) : M Contact :=
  w <- get_world;;
  lift (from_header w v).

(** A contact object made during a call takes a place of its own among
    the contacts. *)
Definition new_contact (c : Contact) : M loc :=
  w <- get_world;;
  let l := fresh (dom (contacts w)) in
  update_world (with_contacts (<[l := c]> (contacts w)));;;
  ret l.

(** ** [message.Request], as [dialog.py] calls it

    [Request.__init__] over [Message.__init__] (message.py:55-88,
    274-302) for the arguments [_prepare_request] passes: both details
    are contact objects, so neither [ValueError] can be raised.  A
    contact object is a mapping with entries, hence true where the code
    tests it. *)

(** [self.contact_details] (message.py:130-137) on the message under
    construction: the contact passed in, else the one parsed from a
    [Contact] header, else [None]. *)
Definition Request_contact_details (contact_details : option loc)
    (headers : CIMultiDict.t) : M (option loc) :=
  match contact_details with
  | Some l => ret (Some l)
  | None =>
      match CIMultiDict.find "Contact" headers with
      | Some v =>
          c <- Contact_from_header v;;
          l <- new_contact c;;
          ret (Some l)
      | None => ret None
      end
  end.

(** A header map without [Via] gets one from the contact (message.py:
    84-88); there is nothing to subscript when the contact is [None].
    [m_contact_details] is the attribute [_contact_details] as the
    constructor leaves it. *)
Definition Request (method : string) (cseq : Z) (from_details to_details : loc)
    (contact_details : option loc) (headers : CIMultiDict.t)
    (payload : option string) : M Msg :=
  built <-
    (if CIMultiDict.contains "Via" headers then ret (headers, contact_details)
     else
       contact <- Request_contact_details contact_details headers;;
       match contact with
       | None => raise TypeError
       | Some l =>
           c <- deref l;;
           branch <- gen_branch;;
           ret (CIMultiDict.setitem "Via"
                  (HStr ("SIP/2.0/%(protocol)s "
                         +:+ format_host_and_port (host (uri c)) (port (uri c))
                         +:+ ";branch=" +:+ branch))
                  headers,
                Some l)
       end);;
  ret {| m_status_code := None;
         m_method := upper method;
         m_cseq := cseq;
         m_from_details := from_details;
         m_to_details := to_details;
         m_contact_details := snd built;
         m_headers := fst built;
         m_payload := default EmptyString payload |}.

(** ** [DialogBase] *)

(** [dialog_id] (dialog.py:59-63).  The tags are read through
    [original_msg], whose details are the dialog's own contact
    objects. *)
Definition dialog_id : M DialogId :=
  d <- this;;
  to <- deref (m_to_details (original_msg d));;
  from <- deref (m_from_details (original_msg d));;
  from_tag <- lift (dict_getitem "tag" (params from));;
  ret ({[ params to !! "tag"; Some from_tag; Some (call_id d) ]} : DialogId).

(** [self.to_details['params']['tag'] = tag] *)
Definition set_remote_tag (tag : string) : M unit :=
  d <- this;;
  c <- deref (to_details d);;
  update_world (fun w =>
    with_contacts (<[to_details d := set_param "tag" tag c]> (contacts w)) w).

(** [self.transactions[method]] on a [defaultdict(dict)]: a method not
    yet there is entered with an empty table. *)
Definition transactions_getitem (method : string) : M (gmap Z Transaction) :=
  d <- this;;
  match transactions d !! method with
  | Some table => ret table
  | None =>
      update (set_transactions (<[method := ∅]> (transactions d)));;;
      ret ∅
  end.

(** [self.transactions[method][cseq] = t] *)
Definition transactions_setitem (method : string) (cseq : Z) (t : Transaction)
    : M unit :=
  table <- transactions_getitem method;;
  d <- this;;
  update (set_transactions (<[method := <[cseq := t]> table]> (transactions d))).

(** The three lines that re-key the dialog, the same in
    [_receive_response] (dialog.py:68-70) and in
    [InviteDialog.receive_message] (dialog.py:374-376): delete the entry
    under the current id, copy the tag of the message's [To], and enter
    the dialog under the id it has now. *)
Definition rekey (msg : Msg) : M unit :=
  old <- dialog_id;;
  del_dialogs old;;;
  msg_to <- deref (m_to_details msg);;
  tag <- lift (dict_getitem "tag" (params msg_to));;
  set_remote_tag tag;;;
  new <- dialog_id;;
  set_dialogs new.

(** ['tag' in c['params']] *)
Definition has_tag (c : Contact) : bool :=
  bool_decide (is_Some (params c !! "tag")).

(** [_receive_response] (dialog.py:65-80) *)
Definition _receive_response (msg : Msg) : M unit :=
  d <- this;;
  to <- deref (to_details d);;
  when (negb (has_tag to)) (rekey msg);;;
  try_except_KeyError
    (table <- transactions_getitem (m_method msg);;
     match table !! m_cseq msg with
     | None => raise KeyError
     | Some t =>
         transactions_setitem (m_method msg) (m_cseq msg)
           (mkTransaction (t_original_msg t) (t_incoming t ++ [msg]) (t_closed t))
     end)
    (ret tt).

(** The headers of a request the dialog builds (dialog.py:90-95): a
    copy of the caller's, with [User-Agent] unless the caller set one,
    and with the dialog's [Call-ID]. *)
Definition request_headers (user_agent call_id : string)
    (headers : option CIMultiDict.t) : CIMultiDict.t :=
  let headers := default [] headers in
  let headers :=
    if CIMultiDict.contains "User-Agent" headers then headers
    else CIMultiDict.setitem "User-Agent" (HStr user_agent) headers in
  CIMultiDict.setitem "Call-ID" (HStr call_id) headers.

(** [_prepare_request] (dialog.py:82-106) *)
Definition _prepare_request (method : string) (contact_details : option loc)
    (headers : option CIMultiDict.t) (payload : option string)
    (cseq : option Z) (to_details : option loc) : M Msg :=
  when (negb (truthy cseq)) (update (fun d => set_cseq (DialogModel.cseq d + 1) d));;;
  match contact_details with
  | Some _ => update (set_contact_details contact_details)
  | None => ret tt
  end;;;
  w <- get_world;;
  d <- this;;
  Request method
    (if truthy cseq then default 0 cseq else DialogModel.cseq d)
    (from_details d)
    (default (DialogModel.to_details d) to_details)
    (DialogModel.contact_details d)
    (request_headers (user_agent w) (call_id d) headers)
    payload.

(** [ack] (dialog.py:116-121) *)
Definition ack (msg : Msg) (headers : option CIMultiDict.t) : M unit :=
  let headers := default [] headers in
  via <- lift (CIMultiDict.getitem "Via" (m_headers msg));;
  let headers := CIMultiDict.setitem "Via" via headers in
  ack <- _prepare_request "ACK" None (Some headers) None
           (Some (m_cseq msg)) (Some (m_to_details msg));;
  send_message ack.

(** [if self._closing: self._closing.cancel()] *)
Definition cancel_closing : M unit :=
  d <- this;;
  match _closing d with
  | Some i => cancel_task i
  | None => ret tt
  end.

(** [close_later] (dialog.py:151-162) *)
Definition close_later (delay : option Z) : M unit :=
  w <- get_world;;
  let delay := default (dialog_closing_delay w) delay in
  cancel_closing;;;
  i <- ensure_future delay;;
  update (set_closing (Some i)).

(** ** [int(expire * 1.1)]

    The product is taken in double precision: a double is a whole
    number of 53 bits at most times a power of two, and every operation
    gives the double nearest to the exact result, a tie going to the
    even one. *)

(** [m / 2^k] rounded to the nearest whole number, a tie to the even
    one. *)
Definition round_half_even (m k : Z) : Z :=
  let q := m / 2 ^ k in
  let r := m mod 2 ^ k in
  if ((2 * r >? 2 ^ k) || ((2 * r =? 2 ^ k) && Z.odd q))%bool then q + 1 else q.

(** The double nearest to [n >= 0], as [(m, k)] for [m * 2^k]. *)
Definition to_double (n : Z) : Z * Z :=
  let k := Z.max 0 (Z.log2 n + 1 - 53) in
  (round_half_even n k, k).

(** The literal [1.1] is the double [one_point_one * 2^-52]. *)
Definition one_point_one : Z := 4953959590107546.

(** [int(expire * 1.1)]: [expire] is converted to a double, which
    raises [OverflowError] from [2^1024] on; the product of the two
    doubles is rounded to a double again, infinity from [2^1024] on,
    which [int] refuses with [OverflowError]; [int] drops the fraction.
    The sign goes through unchanged. *)
Definition scaled_expiry (expire : Z) : result Z :=
  let (m, k) := to_double (Z.abs expire) in
  if 2 ^ 1024 <=? m * 2 ^ k then Raise OverflowError
  else
    let (p, j) := to_double (m * one_point_one) in
    let s := j + k - 52 in
    if s <? 0 then Ok (Z.sgn expire * (p / 2 ^ (- s)))
    else if 2 ^ 1024 <=? p * 2 ^ s then Raise OverflowError
    else Ok (Z.sgn expire * (p * 2 ^ s)).

(** [_maybe_close] (dialog.py:164-172) *)
Definition _maybe_close (msg : Msg) : M unit :=
  d <- this;;
  if ((String.eqb (m_method msg) "REGISTER" || String.eqb (m_method msg) "SUBSCRIBE")
      && negb (inbound d))%bool
  then
    expire <- lift (int_of_hval
                (default (HInt 0) (CIMultiDict.find "Expires" (m_headers msg))));;
    delay <- (if negb (expire =? 0)
              then delay <- lift (scaled_expiry expire);; ret (Some delay)
              else ret None);;
    close_later delay
  else if String.eqb (m_method msg) "NOTIFY" then ret tt
  else close_later None.

(** Modelled from the spec: [UnreliableTransaction.close]
    ([transaction.py] is not part of the sources) cancels the
    transaction's future. *)
Definition transaction_close (t : Transaction) : Transaction :=
  mkTransaction (t_original_msg t) (t_incoming t) true.

(** [transaction.close()] for every transaction of every method. *)
Definition close_transactions : M unit :=
  update (fun d =>
    set_transactions
      (fmap (M := gmap string) (fmap (M := gmap Z) transaction_close)
         (transactions d)) d).

(** [_close] (dialog.py:174-187) *)
Definition _close : M unit :=
  cancel_closing;;;
  close_transactions;;;
  try_except_KeyError
    (key <- dialog_id;; del_dialogs key)
    (ret tt).

(** Modelled from the spec: [UnreliableTransaction.start]
    ([transaction.py] is not part of the sources) sends the request
    through the peer and completes with the final response, or fails. *)
Definition transaction_start (t : Transaction) (await : Await) : M Msg :=
  send_message (t_original_msg t);;;
  await.

(** [start_unreliable_transaction] (dialog.py:194-197), with [method]
    left out as every caller does. *)
Definition start_unreliable_transaction (msg : Msg) (await : Await) : M Msg :=
  let transaction := mkTransaction msg [] false in
  transactions_setitem (m_method msg) (m_cseq msg) transaction;;;
  transaction_start transaction await.

(** [request] (dialog.py:210-216).  A timeout reaches the caller as
    the exception the [await] comes back with. *)
Definition request (method : string) (contact_details : option loc)
    (headers : option CIMultiDict.t) (payload : option string)
    (await : Await) : M (option Msg) :=
  msg <- _prepare_request method contact_details headers payload None None;;
  if negb (String.eqb (m_method msg) "ACK") then
    response <- start_unreliable_transaction msg await;;
    ret (Some response)
  else
    send_message msg;;;
    ret None.

Section Authentication.

(** [auth.py] is not part of the sources: the block a message carries,
    [Auth.from_message], and the digest check of a challenge against a
    block, [validate_authorization], are left open. *)
Variable Auth_from_message : Msg -> option Auth.
Variable validate_authorization :
  Auth -> Auth -> string -> string -> string -> string -> bool.

(** [validate_auth] (dialog.py:137-149).  The bound method is looked up
    on [self.auth] before its arguments are read. *)
Definition validate_auth (message : Msg) (password : string) : M bool :=
  d <- this;;
  valid <-
    match Auth_from_message message with
    | Some (AuthorizationAuth block) =>
        match auth d with
        | None => raise AttributeError
        | Some challenge =>
            username <- lift (dict_getitem "username" block);;
            uri <- lift (dict_getitem "uri" block);;
            ret (validate_authorization challenge (AuthorizationAuth block)
                   password username uri (m_payload message))
        end
    | _ => ret false
    end;;
  if valid then ret true
  else if String.eqb (m_method message) "CANCEL" then ret true
  else ret false.

End Authentication.

(** ** [Dialog] *)

Module Dialog.

(** [_receive_request] (dialog.py:299-312) *)
Definition _receive_request (msg : Msg) : M unit :=
  msg_to <- deref (m_to_details msg);;
  when (has_tag msg_to)
    (try_except_KeyError
       (d <- this;;
        to <- deref (m_to_details (original_msg d));;
        del_dialogs ({[ params to !! "tag"; None; Some (call_id d) ]} : DialogId))
       (ret tt));;;
  update (fun d => set_incoming (_incoming d ++ [msg]) d);;;
  _maybe_close msg.

(** [receive_message] (dialog.py:287-297) *)
Definition receive_message (msg : Msg) : M unit :=
  cancel_closing;;;
  d <- this;;
  when (cseq d <? m_cseq msg) (update (set_cseq (m_cseq msg)));;;
  if (is_Response msg || String.eqb (m_method msg) "ACK")%bool
  then _receive_response msg
  else _receive_request msg.

(** [close] (dialog.py:320-334); the arguments passed on to [request]
    are left at their defaults. *)
Definition close (headers : option CIMultiDict.t) (fast : bool) (await : Await)
    : M (option Msg) :=
  d <- this;;
  if negb (_closed d) then
    update (set_closed true);;;
    d <- this;;
    result <-
      (if (negb fast && negb (inbound d)
           && (String.eqb (m_method (original_msg d)) "REGISTER"
               || String.eqb (m_method (original_msg d)) "SUBSCRIBE"))%bool
       then
         let headers := default [] headers in
         let headers :=
           if CIMultiDict.contains "Expires" headers then headers
           else CIMultiDict.setitem "Expires" (HInt 0) headers in
         try_finally
           (request (m_method (original_msg d)) None (Some headers) None await)
           _close
       else ret None);;
    _close;;;
    ret result
  else ret None.

End Dialog.

(** ** [InviteDialog] *)

Module InviteDialog.

(** [_receive_request] (dialog.py:430-437) *)
Definition _receive_request (msg : Msg) : M unit :=
  msg_from <- deref (m_from_details msg);;
  match params msg_from !! "tag" with
  | Some tag => set_remote_tag tag
  | None => ret tt
  end;;;
  when (String.eqb (m_method msg) "BYE") (update (set_closed true));;;
  _maybe_close msg.

(** [msg.status_code]: only a [Response] has one. *)
Definition status_code (msg : Msg) : M Z :=
  match m_status_code msg with
  | Some c => ret c
  | None => raise AttributeError
  end.

(** The helpers of [receive_message] (dialog.py:378-410). *)
Definition set_result (msg : Msg) : M unit :=
  ack msg None;;;
  d <- this;;
  when (negb (done (_waiter d))) (update (set_waiter (Done msg))).

Definition handle_calling_state (msg : Msg) : M unit :=
  c <- status_code msg;;
  if ((100 <=? c) && (c <? 200))%bool then
    update (set_state Proceeding)
  else if c =? 200 then
    update (set_state Terminated);;;
    set_result msg
  else if ((300 <=? c) && (c <? 700))%bool then
    update (set_state Completed);;;
    set_result msg
  else ret tt.

Definition handle_proceeding_state (msg : Msg) : M unit :=
  c <- status_code msg;;
  if ((100 <=? c) && (c <? 200))%bool then
    ret tt
  else if c =? 200 then
    update (set_state Terminated);;;
    set_result msg
  else if ((300 <=? c) && (c <? 700))%bool then
    update (set_state Completed);;;
    set_result msg
  else ret tt.

Definition handle_completed_state (msg : Msg) : M unit :=
  ack msg None.

(** The dispatch on the state that ends [receive_message]
    (dialog.py:415-428). *)
Definition dispatch (msg : Msg) : M unit :=
  d <- this;;
  match _state d with
  | Calling => handle_calling_state msg
  | Proceeding => handle_proceeding_state msg
  | Completed => handle_completed_state msg
  | Terminated =>
      if (is_Response msg || String.eqb (m_method msg) "ACK")%bool
      then _receive_response msg
      else _receive_request msg
  end.

(** [receive_message] (dialog.py:372-428) *)
Definition receive_message (msg : Msg) : M unit :=
  d <- this;;
  to <- deref (to_details d);;
  msg_to <- deref (m_to_details msg);;
  when (negb (has_tag to) && has_tag msg_to) (rekey msg);;;
  update (fun d => set_queue (_queue d ++ [msg]) d);;;
  dispatch msg.

(** [close] (dialog.py:473-493) *)
Definition close (await : Await) : M unit :=
  d <- this;;
  when (negb (_closed d))
    (update (set_closed true);;;
     d <- this;;
     msg <-
       match _state d with
       | Terminated =>
           msg <- _prepare_request "BYE" None None None None None;;
           ret (Some msg)
       | Completed => ret None
       | _ =>
           msg <- _prepare_request "CANCEL" None None None None None;;
           ret (Some msg)
       end;;
     match msg with
     | Some msg =>
         let transaction := mkTransaction msg [] false in
         transactions_setitem (m_method msg) (m_cseq msg) transaction;;;
         try_finally
           (transaction_start transaction await;;; ret tt)
           _close
     | None => ret tt
     end);;;
  _close.

End InviteDialog.

(** ** A call from Alice to Bob

    The objects of one outbound INVITE dialog, as the application leaves
    them after creating it: Alice's contact carries the local tag, Bob's
    has none yet, and the dialog is registered under
    [{None, "a1", "call-1"}]. *)

Module Scenario.

Definition alice : Contact :=
  mkContact (mkUri "alice.example.org" (Some 5060) "sip:alice@alice.example.org")
    {["tag" := "a1"]}.

Definition bob : Contact :=
  mkContact (mkUri "bob.example.org" None "sip:bob@bob.example.org") ∅.

Definition bob_tagged : Contact := set_param "tag" "b7" bob.

(** Locations: 0 is Alice as [From], 1 is Bob as [To], 2 is Alice as
    [Contact]; 3 and 4 are the [To] of inbound messages with and without
    Bob's tag. *)
Definition the_contacts : gmap loc Contact :=
  {[ 0%nat := alice; 1%nat := bob; 2%nat := alice; 3%nat := bob_tagged; 4%nat := bob ]}.

Definition via : hval := HStr "SIP/2.0/UDP alice.example.org:5060;branch=z9hG4bK1".

Definition original (method : string) : Msg :=
  {| m_status_code := None; m_method := method; m_cseq := 1;
     m_from_details := 0%nat; m_to_details := 1%nat; m_contact_details := Some 2%nat;
     m_headers := [("User-Agent", HStr "aiosip"); ("Call-ID", HStr "call-1"); ("Via", via)];
     m_payload := EmptyString |}.

Definition dialog (method : string) : DialogObj :=
  {| from_details := 0%nat; to_details := 1%nat; contact_details := Some 2%nat;
     call_id := "call-1"; password := None; cseq := 1; inbound := false;
     transactions := ∅; auth := None; original_msg := original method;
     _closed := false; _closing := None; _incoming := [];
     _queue := []; _state := Calling; _waiter := Pending |}.

(** What [Contact.from_header] makes of a header here: a contact at
    the host the header names, with no tag. *)
Definition contact_of_header (v : hval) : result Contact :=
  match v with
  | HStr s => Ok (mkContact (mkUri s None ("sip:" +:+ s)) ∅)
  | _ => Raise TypeError
  end.

Definition untagged_id : DialogId := {[ None; Some "a1"; Some "call-1" ]}.
Definition tagged_id : DialogId := {[ Some "b7"; Some "a1"; Some "call-1" ]}.

Definition world (method : string) : World :=
  {| contacts := the_contacts;
     app_dialogs := {[ untagged_id := 7%nat ]};
     user_agent := "aiosip";
     dialog_closing_delay := 30;
     sent := []; tasks := [];
     branches := fun _ => "z9hG4bK2"; drawn := 0;
     from_header := contact_of_header;
     self_ref := 7%nat;
     self := dialog method |}.

(** A response to the original request, from Bob, with its [To] at
    location [to]. *)
Definition response (code : Z) (method : string) (to : loc)
    (headers : CIMultiDict.t) : Msg :=
  {| m_status_code := Some code; m_method := method; m_cseq := 1;
     m_from_details := 0%nat; m_to_details := to; m_contact_details := None;
     m_headers := ("Via", via) :: headers;
     m_payload := EmptyString |}.

End Scenario.

(** ** Vocabulary of the properties *)

(** A method leaves an observation of the world alone, however it
    ends. *)
Definition keeps {A X : Type} (obs : World -> X) (m : M A) : Prop :=
  forall w, obs (snd (m w)) = obs w.

(** The table of §4.5 as the specification prints it: the action and the
    next state for a state and an incoming message, a response with its
    status code or a request with its method.  Where the table has no
    row the result is [None]. *)
Inductive Action : Type :=
| NoAction
| AckAndDeliver
| AckOnly
| RouteResponse
| RouteRequest.

Definition spec_table (s : CallState) (status : option Z) (method : string)
    : option (Action * CallState) :=
  match s, status with
  | Calling, Some code | Proceeding, Some code =>
      if ((100 <=? code) && (code <? 200))%bool then Some (NoAction, Proceeding)
      else if code =? 200 then Some (AckAndDeliver, Terminated)
      else if ((300 <=? code) && (code <? 700))%bool then Some (AckAndDeliver, Completed)
      else None
  | Completed, Some _ => Some (AckOnly, Completed)
  | Terminated, Some _ => Some (RouteResponse, Terminated)
  | Terminated, None =>
      if String.eqb method "ACK" then Some (RouteResponse, Terminated)
      else Some (RouteRequest, Terminated)
  | _, None => None
  end.

(** The ACK requests an action sends. *)
Definition acks_of (a : Action) : nat :=
  match a with
  | AckAndDeliver | AckOnly => 1
  | _ => 0
  end.

(** [ack] is the ACK request answering [msg]: addressed to the [To] of
    [msg], over its [Via]. *)
Definition is_ack_for (msg ack : Msg) : Prop :=
  m_status_code ack = None
  /\ m_method ack = "ACK"
  /\ m_to_details ack = m_to_details msg
  /\ CIMultiDict.find "Via" (m_headers ack) = CIMultiDict.find "Via" (m_headers msg).

(** The ACK requests among the messages handed to the peer. *)
Definition acks (w : World) : list Msg :=
  List.filter (fun m => String.eqb (m_method m) "ACK") (sent w).

(** The ACK requests that delivering [msg] adds. *)
Definition acks_triggered (msg : Msg) (w : World) : nat :=
  (length (acks (snd (InviteDialog.receive_message msg w))) - length (acks w))%nat.

(** While the call is being set up nobody has been told its outcome. *)
Definition waiting (w : World) : Prop :=
  match _state (self w) with
  | Calling | Proceeding => _waiter (self w) = Pending
  | _ => True
  end.

(** The world after the deliveries [msgs], one after the other; a
    delivery that raises leaves what it wrote. *)
Definition deliveries (msgs : list Msg) (w : World) : World :=
  fold_left (fun w msg => snd (InviteDialog.receive_message msg w)) msgs w.

(** The call as its user sees it: the state, the waiter behind
    [ready()], the queue behind [recv()], and what went to the peer. *)
Definition call_view (w : World) : CallState * Future * list Msg * list Msg :=
  (_state (self w), _waiter (self w), _queue (self w), sent w).

(** The counter after [_prepare_request]: one more, unless a sequence
    number that counts as true was passed in. *)
Definition bump (cseq : option Z) (w : World) : World :=
  if truthy cseq then w
  else with_self (set_cseq (DialogModel.cseq (self w) + 1) (self w)) w.

(** The request [_prepare_request] returns when the caller's headers
    carry a [Via], so that none has to be made from the contact. *)
Definition prepared (method : string) (headers : option CIMultiDict.t)
    (payload : option string) (cseq : option Z) (to_details : option loc)
    (w : World) : Msg :=
  let d := self (bump cseq w) in
  {| m_status_code := None;
     m_method := upper method;
     m_cseq := if truthy cseq then default 0 cseq else DialogModel.cseq d;
     m_from_details := from_details d;
     m_to_details := default (DialogModel.to_details d) to_details;
     m_contact_details := contact_details d;
     m_headers := request_headers (user_agent w) (call_id d) headers;
     m_payload := default EmptyString payload |}.

(** The ACK that [ack msg] sends. *)
Definition ack_request (msg : Msg) (via : hval) (w : World) : Msg :=
  prepared "ACK" (Some [("Via", via)]) None (Some (m_cseq msg))
    (Some (m_to_details msg)) w.

(** What delivering [msg] does to a call in the world [w], for the
    action the table names: the outcome [out] of [receive_message], given
    the world [w1] in which the dispatch starts. *)
Definition performs (a : Action) (msg : Msg) (via : hval) (w w1 : World)
    (out : result unit * World) : Prop :=
  match a with
  | NoAction =>
      fst out = Ok tt
      /\ sent (snd out) = sent w
      /\ _waiter (self (snd out)) = Pending
  | AckAndDeliver =>
      fst out = Ok tt
      /\ sent (snd out) = sent w ++ [ack_request msg via w1]
      /\ _waiter (self (snd out)) = Done msg
  | AckOnly =>
      fst out = Ok tt
      /\ sent (snd out) = sent w ++ [ack_request msg via w1]
      /\ _waiter (self (snd out)) = _waiter (self w)
  | RouteResponse =>
      out = _receive_response msg w1
      /\ sent (snd out) = sent w
      /\ _waiter (self (snd out)) = _waiter (self w)
  | RouteRequest =>
      out = InviteDialog._receive_request msg w1
      /\ sent (snd out) = sent w
      /\ _waiter (self (snd out)) = _waiter (self w)
  end.

(** A method carries a property of the world over, however it ends. *)
Definition preserves {A : Type} (P : World -> Prop) (m : M A) : Prop :=
  forall w, P w -> P (snd (m w)).

(** The world after [close_later] has scheduled a close in [delay]
    seconds: the task [_closing] named, if any, is cancelled, and a new
    one is the loop's last task and the dialog's [_closing]. *)
Definition cancelled_closing (w : World) : list Task :=
  match _closing (self w) with
  | Some i => alter (fun t => mkTask (t_delay t) true) i (tasks w)
  | None => tasks w
  end.

Definition scheduled (delay : Z) (w : World) : World :=
  with_self (set_closing (Some (length (tasks w))) (self w))
    (with_tasks (cancelled_closing w ++ [mkTask delay false]) w).

(** A close is pending when some task of the loop has not been
    cancelled: left alone, it closes the dialog once its delay is over. *)
Definition close_pending (w : World) : Prop :=
  exists i task, tasks w !! i = Some task /\ t_cancelled task = false.

(** ** A dialog in use *)

(** What happens to a dialog between two looks at it: the application
    issues a request, acknowledges a response, or the peer delivers a
    message. *)
Inductive Op : Type :=
| DoRequest (method : string) (headers : option CIMultiDict.t)
    (payload : option string) (await : Await)
| DoAck (msg : Msg)
| DoReceive (msg : Msg).

Definition do (op : Op) : M unit :=
  match op with
  | DoRequest method headers payload await =>
      request method None headers payload await;;; ret tt
  | DoAck msg => ack msg None
  | DoReceive msg => Dialog.receive_message msg
  end.

(** The sequence number of the request [request] hands to a
    transaction, if it gets that far. *)
Definition issued (op : Op) (w : World) : list Z :=
  match op with
  | DoRequest method headers payload _ =>
      match fst (_prepare_request method None headers payload None None w) with
      | Ok msg => if String.eqb (m_method msg) "ACK" then [] else [m_cseq msg]
      | Raise _ => []
      end
  | _ => []
  end.

(** The sequence numbers issued along [ops], oldest first. *)
Fixpoint issued_along (ops : list Op) (w : World) : list Z :=
  match ops with
  | [] => []
  | op :: ops' => issued op w ++ issued_along ops' (snd (do op w))
  end.

(** An [await] during which the counter does not go down: the deliveries
    made meanwhile only ever raise it. *)
Definition counter_kept (op : Op) : Prop :=
  match op with
  | DoRequest _ _ _ await =>
      forall w, cseq (self w) <= cseq (self (snd (await w)))
  | _ => True
  end.

(** A 200 to the INVITE of the scenario whose [CSeq] header reads
    [0 INVITE]. *)
Definition Scenario_ok_cseq_zero : Msg :=
  {| m_status_code := Some 200; m_method := "INVITE"; m_cseq := 0;
     m_from_details := 0%nat; m_to_details := 3%nat; m_contact_details := None;
     m_headers := [("Via", Scenario.via)];
     m_payload := EmptyString |}.

(** A method never lowers the dialog's counter. *)
Definition rises {A : Type} (m : M A) : Prop :=
  forall w, cseq (self w) <= cseq (self (snd (m w))).



(** A request can be built: the caller's headers carry a [Via], or the
    dialog has a contact to make one from. *)
Definition can_build (headers : option CIMultiDict.t) (w : World) : Prop :=
  CIMultiDict.contains "Via" (default [] headers) = true
  \/ exists l c, contact_details (self w) = Some l /\ contacts w !! l = Some c.


(** Two ways the wait for an answer can end: the request times out, or
    the registrar answers 200. *)
Definition Scenario_timeout : Await :=
  fun w => (Raise (Raised "TimeoutError"), w).


(** A stand-in for [Auth.from_message]: a message with an
    [Authorization] header carries a credentials block. *)
Definition Scenario_auth (msg : Msg) : option Auth :=
  if CIMultiDict.contains "Authorization" (m_headers msg)
  then Some (AuthorizationAuth {[ "username" := "alice"; "uri" := "sip:example.org" ]})
  else None.

(** A CANCEL that carries credentials. *)
Definition Scenario_cancel : Msg :=
  {| m_status_code := None; m_method := "CANCEL"; m_cseq := 1;
     m_from_details := 0%nat; m_to_details := 1%nat; m_contact_details := None;
     m_headers := [("Via", Scenario.via); ("Authorization", HStr "Digest username=alice")];
     m_payload := EmptyString |}.

(** ** The calls an application makes on a dialog *)

Definition set_original_msg (v : Msg) (x : DialogObj) : DialogObj :=
  {| from_details := from_details x; to_details := to_details x;
     contact_details := contact_details x; call_id := call_id x;
     password := password x; cseq := cseq x; inbound := inbound x;
     transactions := transactions x; auth := auth x;
     original_msg := v; _closed := _closed x;
     _closing := _closing x; _incoming := _incoming x; _queue := _queue x;
     _state := _state x; _waiter := _waiter x |}.

(** [msg.headers[k] = v] *)
Definition msg_set_header (k : string) (v : hval) (msg : Msg) : Msg :=
  {| m_status_code := m_status_code msg; m_method := m_method msg;
     m_cseq := m_cseq msg; m_from_details := m_from_details msg;
     m_to_details := m_to_details msg;
     m_contact_details := m_contact_details msg;
     m_headers := CIMultiDict.setitem k v (m_headers msg);
     m_payload := m_payload msg |}.

(** [DialogBase.start] (dialog.py:108-114).  [headers] is the header
    map of the original message itself, not a copy: an [Expires] is
    written into the original message, and stays there. *)
Definition start (expires : option hval) (await : Await) : M (option Msg) :=
  match expires with
  | Some e =>
      update (fun d => set_original_msg (msg_set_header "Expires" e (original_msg d)) d)
  | None => ret tt
  end;;;
  d <- this;;
  request (m_method (original_msg d)) None (Some (m_headers (original_msg d)))
    (Some (m_payload (original_msg d))) await.

Module DialogCalls.

(** [Dialog.refresh] (dialog.py:314-318); the arguments passed on to
    [request] are left at their defaults. *)
Definition refresh (headers : option CIMultiDict.t) (expires : hval) (await : Await)
    : M (option Msg) :=
  let headers := default [] headers in
  headers <-
    (if CIMultiDict.contains "Expires" headers then ret headers
     else
       e <- lift (int_of_hval expires);;
       ret (CIMultiDict.setitem "Expires" (HInt e) headers));;
  d <- this;;
  request (m_method (original_msg d)) None (Some headers) None await.

(** The headers [notify] sends (dialog.py:337-346). *)
Definition notify_headers (headers : option CIMultiDict.t) : CIMultiDict.t :=
  let headers := default [] headers in
  let headers :=
    if CIMultiDict.contains "Event" headers then headers
    else CIMultiDict.setitem "Event" (HStr "dialog") headers in
  let headers :=
    if CIMultiDict.contains "Content-Type" headers then headers
    else CIMultiDict.setitem "Content-Type" (HStr "application/dialog-info+xml") headers in
  if CIMultiDict.contains "Subscription-State" headers then headers
  else CIMultiDict.setitem "Subscription-State" (HStr "active") headers.

(** [Dialog.notify] (dialog.py:336-348) *)
Definition notify (contact_details : option loc) (headers : option CIMultiDict.t)
    (payload : option string) (await : Await) : M (option Msg) :=
  request "NOTIFY" contact_details (Some (notify_headers headers)) payload await.

(** [Dialog.cancel] (dialog.py:350-352) *)
Definition cancel (contact_details : option loc) (headers : option CIMultiDict.t)
    (payload : option string) (cseq : option Z) (to_details : option loc) : M unit :=
  cancel <- _prepare_request "CANCEL" contact_details headers payload cseq to_details;;
  send_message cancel.

End DialogCalls.

(** ** Vocabulary of the calls *)

(** The transactions of the dialog, by method and sequence number. *)
Definition transaction_at (method : string) (cseq : Z) (w : World) : option Transaction :=
  table ← transactions (self w) !! method; table !! cseq.

(** A status code for which [handle_calling_state] and
    [handle_proceeding_state] have no branch (dialog.py:384-405). *)
Definition unhandled_code (c : Z) : bool :=
  negb (((100 <=? c) && (c <? 200)) || (c =? 200) || ((300 <=? c) && (c <? 700))).

(*DIALOG-END*)

End DialogModel.

(* ===================================================================== *)
(** * aiosip/message.py *)
(* ===================================================================== *)

Module MessageModel.

Notation "x <- r ;; k" := (rbind r (fun x => k))
  (at level 100, r at next level, right associativity).

(** ** Tables *)

(** [compact_to_long] (message.py:23-46) *)
Definition compact_to_long : list (string * string) :=
  [ ("v", "Via"); ("f", "From"); ("t", "To"); ("i", "Call-ID");
    ("m", "Contact"); ("l", "Content-Length"); ("c", "Content-Type");
    ("e", "Content-Encoding"); ("s", "Subject"); ("k", "Supported");
    ("x", "Session-Expires"); ("r", "Refer-To"); ("b", "Referred-By");
    ("j", "Reject-Contact"); ("a", "Accept-Contact"); ("o", "Event");
    ("u", "Allow-Events"); ("d", "Request-Disposition"); ("y", "Identity") ].

(** [long_to_compact] (message.py:48) *)
Definition long_to_compact : list (string * string) :=
  map (fun kv => (snd kv, fst kv)) compact_to_long.

(** [table.get(k)] for a [dict] with [str] keys. *)
Fixpoint dict_get (k : string) (table : list (string * string)) : option string :=
  match table with
  | [] => None
  | (k', v) :: rest => if String.eqb k k' then Some v else dict_get k rest
  end.

(** ** Messages *)

Abbreviation bytes := (list Byte.byte).

(** [utils.BYTES_EOL] *)
Definition BYTES_EOL : bytes := [Byte.x0d; Byte.x0a].

Inductive Kind : Type :=
| IsMessage
| IsRequest
| IsResponse
| IsCompactHeaderResponse.

(** The attributes of a message object.  An attribute that [hasattr]
    does not find is [None]; [_contact_details], which the accessor may
    set to [None], is [Some None] then.  [_first_line], [_status_code]
    and [_status_message] are those of the subclasses. *)
Record Message : Type := mkMessage {
  kind : Kind;
  headers : CIMultiDict.t;
  _payload : option string;
  _raw_payload : option bytes;
  _from_details : option Contact;
  _to_details : option Contact;
  _contact_details : option (option Contact);
  _cseq : option Z;
  _method : option string;
  _first_line : option string;
  _status_code : option Z;
  _status_message : option string
}.

(** ** Attribute updates *)

Definition set_headers (v : CIMultiDict.t) (x : Message) : Message :=
  {| kind := kind x; headers := v; _payload := _payload x;
     _raw_payload := _raw_payload x; _from_details := _from_details x;
     _to_details := _to_details x; _contact_details := _contact_details x;
     _cseq := _cseq x; _method := _method x; _first_line := _first_line x;
     _status_code := _status_code x; _status_message := _status_message x |}.

Definition set_payload (v : option string) (x : Message) : Message :=
  {| kind := kind x; headers := headers x; _payload := v;
     _raw_payload := _raw_payload x; _from_details := _from_details x;
     _to_details := _to_details x; _contact_details := _contact_details x;
     _cseq := _cseq x; _method := _method x; _first_line := _first_line x;
     _status_code := _status_code x; _status_message := _status_message x |}.

Definition set_raw_payload (v : option bytes) (x : Message) : Message :=
  {| kind := kind x; headers := headers x; _payload := _payload x;
     _raw_payload := v; _from_details := _from_details x;
     _to_details := _to_details x; _contact_details := _contact_details x;
     _cseq := _cseq x; _method := _method x; _first_line := _first_line x;
     _status_code := _status_code x; _status_message := _status_message x |}.

Definition set_from_details (v : option Contact) (x : Message) : Message :=
  {| kind := kind x; headers := headers x; _payload := _payload x;
     _raw_payload := _raw_payload x; _from_details := v;
     _to_details := _to_details x; _contact_details := _contact_details x;
     _cseq := _cseq x; _method := _method x; _first_line := _first_line x;
     _status_code := _status_code x; _status_message := _status_message x |}.

Definition set_to_details (v : option Contact) (x : Message) : Message :=
  {| kind := kind x; headers := headers x; _payload := _payload x;
     _raw_payload := _raw_payload x; _from_details := _from_details x;
     _to_details := v; _contact_details := _contact_details x;
     _cseq := _cseq x; _method := _method x; _first_line := _first_line x;
     _status_code := _status_code x; _status_message := _status_message x |}.

Definition set_contact_details (v : option (option Contact)) (x : Message) : Message :=
  {| kind := kind x; headers := headers x; _payload := _payload x;
     _raw_payload := _raw_payload x; _from_details := _from_details x;
     _to_details := _to_details x; _contact_details := v; _cseq := _cseq x;
     _method := _method x; _first_line := _first_line x;
     _status_code := _status_code x; _status_message := _status_message x |}.

Definition set_cseq (v : option Z) (x : Message) : Message :=
  {| kind := kind x; headers := headers x; _payload := _payload x;
     _raw_payload := _raw_payload x; _from_details := _from_details x;
     _to_details := _to_details x; _contact_details := _contact_details x;
     _cseq := v; _method := _method x; _first_line := _first_line x;
     _status_code := _status_code x; _status_message := _status_message x |}.

Definition set_method (v : option string) (x : Message) : Message :=
  {| kind := kind x; headers := headers x; _payload := _payload x;
     _raw_payload := _raw_payload x; _from_details := _from_details x;
     _to_details := _to_details x; _contact_details := _contact_details x;
     _cseq := _cseq x; _method := v; _first_line := _first_line x;
     _status_code := _status_code x; _status_message := _status_message x |}.

Definition set_first_line (v : option string) (x : Message) : Message :=
  {| kind := kind x; headers := headers x; _payload := _payload x;
     _raw_payload := _raw_payload x; _from_details := _from_details x;
     _to_details := _to_details x; _contact_details := _contact_details x;
     _cseq := _cseq x; _method := _method x; _first_line := v;
     _status_code := _status_code x; _status_message := _status_message x |}.

Definition set_status_code (v : option Z) (x : Message) : Message :=
  {| kind := kind x; headers := headers x; _payload := _payload x;
     _raw_payload := _raw_payload x; _from_details := _from_details x;
     _to_details := _to_details x; _contact_details := _contact_details x;
     _cseq := _cseq x; _method := _method x; _first_line := _first_line x;
     _status_code := v; _status_message := _status_message x |}.

Definition set_status_message (v : option string) (x : Message) : Message :=
  {| kind := kind x; headers := headers x; _payload := _payload x;
     _raw_payload := _raw_payload x; _from_details := _from_details x;
     _to_details := _to_details x; _contact_details := _contact_details x;
     _cseq := _cseq x; _method := _method x; _first_line := _first_line x;
     _status_code := _status_code x; _status_message := v |}.

(** ** Truth values *)

(** [bool(s)] for a [str] that may be [None]. *)
Definition nonempty (o : option string) : bool :=
  match o with
  | Some (String _ _) => true
  | _ => false
  end.

(** [bool(b)] for [bytes] that may be [None]. *)
Definition nonempty_bytes (o : option bytes) : bool :=
  match o with
  | Some (_ :: _) => true
  | _ => false
  end.

(** ** Formatting *)

(** ['%s' % v] for a header value that is not a list. *)
Definition str_of_hval (v : hval) : string :=
  match v with
  | HStr s => s
  | HInt z => str_of_Z z
  | HList _ => EmptyString
  end.

(** ['%s: %s' % (k, v)] *)
Definition header_line (k v : string) : string := k +:+ ": " +:+ v.

(** The lines of one item of the header map, under the name [k]: one
    for a value that is not a list, one for each element of a list. *)
Definition item_lines (k : string) (v : hval) : list string :=
  match v with
  | HList l => map (header_line k) l
  | _ => [header_line k (str_of_hval v)]
  end.

(** ** [sorted(self.headers.items())]

    The items are pairs, and Python orders two pairs at the first place
    where they differ: by their keys, in the order of the characters'
    codes, and by their values when the keys are the same string.  Two
    values of one type are ordered as that type is; two of different
    types are not ordered at all, and comparing them raises
    [TypeError]. *)

(** [a < b] for two lists of text. *)
Fixpoint list_ltb (a b : list string) : bool :=
  match a, b with
  | _, [] => false
  | [], _ :: _ => true
  | x :: a', y :: b' => if String.eqb x y then list_ltb a' b' else String.ltb x y
  end.

(** [a < b] for two header values. *)
Definition hval_lt (a b : hval) : result bool :=
  match a, b with
  | HStr x, HStr y => Ok (String.ltb x y)
  | HInt x, HInt y => Ok (x <? y)
  | HList x, HList y => Ok (list_ltb x y)
  | _, _ => Raise TypeError
  end.

(** [a < b] for two items. *)
Definition item_lt (a b : string * hval) : result bool :=
  if String.eqb (fst a) (fst b) then
    if bool_decide (snd a = snd b) then Ok false else hval_lt (snd a) (snd b)
  else Ok (String.ltb (fst a) (fst b)).

(** [sorted] asks for nothing but [<].  Every way of sorting by
    comparisons ends with the same list, and fails on the same input:
    items under one key can only be put in order by comparing their
    values with one another.  Here each item is put in its place among
    the sorted ones behind it. *)
Fixpoint insert_item (x : string * hval) (l : list (string * hval))
    : result (list (string * hval)) :=
  match l with
  | [] => Ok [x]
  | y :: l' =>
      lt <- item_lt y x;;
      if lt then l'' <- insert_item x l';; Ok (y :: l'') else Ok (x :: l)
  end.

Fixpoint sorted (l : list (string * hval)) : result (list (string * hval)) :=
  match l with
  | [] => Ok []
  | x :: l' => s <- sorted l';; insert_item x s
  end.

Definition sorted_items (h : CIMultiDict.t) : result (list (string * hval)) :=
  sorted (CIMultiDict.items h).

(** The order of the keys. *)
Definition key_le (a b : string * hval) : Prop :=
  String.leb (fst a) (fst b) = true.

(** The name a header goes out under: a compact response writes the
    alias of a name that has one (message.py:425-426, 432-433). *)
Definition wire_name (kd : Kind) (k : string) : string :=
  match kd with
  | IsCompactHeaderResponse => default k (dict_get k long_to_compact)
  | _ => k
  end.

(** The loop of [_format_headers] (message.py:213-224, 422-437): the
    lines of a [Via] item go in front of what is there, those of any
    other item behind. *)
Fixpoint format_loop (kd : Kind) (items : list (string * hval)) (msg : list string)
    : list string :=
  match items with
  | [] => msg
  | (k, v) :: rest =>
      if String.eqb k "Via"
      then format_loop kd rest (item_lines (wire_name kd k) v ++ msg)
      else format_loop kd rest (msg ++ item_lines (wire_name kd k) v)
  end.

(** [_format_headers] (message.py:212-226, 421-439) *)
Definition _format_headers (kd : Kind) (h : CIMultiDict.t) : result string :=
  items <- sorted_items h;;
  Ok (join EOL (format_loop kd items [] ++ [EOL])).

(** The header lines of the wire form, first to last: what the loop
    has gathered when it ends. *)
Definition header_lines (kd : Kind) (h : CIMultiDict.t) : list string :=
  match sorted_items h with
  | Ok items => format_loop kd items []
  | Raise _ => []
  end.

(** ** What lies outside the two files

    [contact.py] is not part of the sources: [str(contact)] and
    [Contact.from_header] are left open.  So are the text codec that
    [encode] is called with and that [decode] reads with, the table
    [utils.STATUS] of reason phrases, and the two random draws,
    [utils.gen_branch(10)] and [uuid.uuid4()]. *)
Class Outside : Type := {
  contact_str : Contact -> string;
  contact_from_header : hval -> result Contact;
  encode_text : string -> bytes;
  decode_text : bytes -> result string;
  STATUS : Z -> option string;
  branch : string;
  uuid : string
}.

Section Codec.

Context {outside : Outside}.

(** ** Accessors

    Each returns its value and the message, on which a value parsed
    from a header is now cached. *)

(** [from_details] (message.py:110-114) *)
Definition from_details (m : Message) : result (Contact * Message) :=
  match _from_details m with
  | Some c => Ok (c, m)
  | None =>
      h <- CIMultiDict.getitem "From" (headers m);;
      c <- contact_from_header h;;
      Ok (c, set_from_details (Some c) m)
  end.

(** [to_details] (message.py:120-124, 304-308) *)
Definition to_details (m : Message) : result (Contact * Message) :=
  match _to_details m with
  | Some c => Ok (c, m)
  | None =>
      h <- CIMultiDict.getitem "To" (headers m);;
      c <- contact_from_header h;;
      Ok (c, set_to_details (Some c) m)
  end.

(** [contact_details] (message.py:130-137) *)
Definition contact_details (m : Message) : result (option Contact * Message) :=
  match _contact_details m with
  | Some c => Ok (c, m)
  | None =>
      match CIMultiDict.find "Contact" (headers m) with
      | Some h =>
          c <- contact_from_header h;;
          Ok (Some c, set_contact_details (Some (Some c)) m)
      | None => Ok (None, set_contact_details (Some None) m)
      end
  end.

(** [self.headers['CSeq'].split(' ')]: only a [str] has [split]. *)
Definition cseq_parts (m : Message) : result (list string) :=
  h <- CIMultiDict.getitem "CSeq" (headers m);;
  match h with
  | HStr s => Ok (split_char " " s)
  | _ => Raise AttributeError
  end.

(** [l[i]] *)
Definition list_getitem (i : nat) (l : list string) : result string :=
  match l !! i with
  | Some x => Ok x
  | None => Raise IndexError
  end.

(** [cseq] (message.py:151-155) *)
Definition cseq (m : Message) : result (Z * Message) :=
  match _cseq m with
  | Some c => Ok (c, m)
  | None =>
      parts <- cseq_parts m;;
      number <- list_getitem 0 parts;;
      c <- py_int number;;
      Ok (c, set_cseq (Some c) m)
  end.

(** [method] (message.py:161-165) *)
Definition method (m : Message) : result (string * Message) :=
  match _method m with
  | Some s => Ok (s, m)
  | None =>
      parts <- cseq_parts m;;
      s <- list_getitem 1 parts;;
      Ok (s, set_method (Some s) m)
  end.

(** [payload] (message.py:96-104) *)
Definition payload (m : Message) : result (string * Message) :=
  if nonempty (_payload m) then Ok (default EmptyString (_payload m), m)
  else if nonempty_bytes (_raw_payload m) then
    s <- decode_text (default [] (_raw_payload m));;
    Ok (s, set_payload (Some s) m)
  else Ok (EmptyString, m).

(** [status_code] and [status_message] (message.py:369-371, 381-383):
    only a response has them. *)
Definition status_code (m : Message) : result Z :=
  match _status_code m with
  | Some c => Ok c
  | None => Raise AttributeError
  end.

Definition status_message (m : Message) : result string :=
  match _status_message m with
  | Some s => Ok s
  | None => Raise AttributeError
  end.

(** ** Construction *)

Definition from_required : exn := ValueError "From header or from_details is required".
Definition to_required : exn := ValueError "To header or to_details is required".
Definition quoted (s : string) : string :=
  String (ascii_of_nat 34) s +:+ String (ascii_of_nat 34) EmptyString.
Definition cseq_required : exn :=
  ValueError (quoted "CSeq" +:+ " header or cseq is required").
Definition method_required : exn :=
  ValueError (quoted "CSeq" +:+ " header or method is required").

(** The [Via] a message is given when it has none (message.py:85-88). *)
Definition default_via (c : Contact) : string :=
  "SIP/2.0/%(protocol)s "
  +:+ format_host_and_port (host (uri c)) (port (uri c))
  +:+ ";branch=" +:+ branch.

(** [Message.__init__] (message.py:55-88), for an object of class [kd]. *)
Definition Message_init (kd : Kind) (headers_arg : option CIMultiDict.t)
    (payload_arg : option string) (from_arg to_arg contact_arg : option Contact)
    : result Message :=
  let h := default [] headers_arg in
  _ <- (if bool_decide (is_Some from_arg) then Ok tt
        else if CIMultiDict.contains "From" h then Ok tt
        else Raise from_required);;
  _ <- (if bool_decide (is_Some to_arg) then Ok tt
        else if CIMultiDict.contains "To" h then Ok tt
        else Raise to_required);;
  let m :=
    {| kind := kd; headers := h;
       _payload := payload_arg; _raw_payload := None;
       _from_details := from_arg; _to_details := to_arg;
       _contact_details := option_map Some contact_arg;
       _cseq := None; _method := None; _first_line := None;
       _status_code := None; _status_message := None |} in
  if CIMultiDict.contains "Via" h then Ok m
  else
    cm <- contact_details m;;
    match fst cm with
    | None => Raise TypeError
    | Some c =>
        Ok (set_headers
              (CIMultiDict.setitem "Via" (HStr (default_via c)) (headers (snd cm)))
              (snd cm))
    end.

(** The first lines (message.py:12-19). *)
Definition request_line (method to_uri : string) : string :=
  method +:+ " " +:+ to_uri +:+ " SIP/2.0".

Definition response_line (status_code : Z) (status_message : string) : string :=
  "SIP/2.0 " +:+ str_of_Z status_code +:+ " " +:+ status_message.

(** [Request.__init__] (message.py:274-302) *)
Definition Request_init (method_arg : string) (cseq_arg : Z)
    (from_arg to_arg contact_arg : option Contact)
    (headers_arg : option CIMultiDict.t) (payload_arg : option string)
    (first_line : option string) : result Message :=
  m <- Message_init IsRequest headers_arg payload_arg from_arg to_arg contact_arg;;
  let m := set_cseq (Some cseq_arg) (set_method (Some (upper method_arg)) m) in
  if nonempty first_line then Ok (set_first_line first_line m)
  else
    mm <- method m;;
    tm <- to_details (snd mm);;
    Ok (set_first_line (Some (request_line (fst mm) (short_uri (uri (fst tm))))) (snd tm)).

(** [Response.__init__] (message.py:324-367) *)
Definition Response_init (kd : Kind) (code : Z) (message_arg : option string)
    (headers_arg : option CIMultiDict.t)
    (from_arg to_arg contact_arg : option Contact)
    (payload_arg : option string) (cseq_arg : option Z) (method_arg : option string)
    (first_line : option string) : result Message :=
  m <- Message_init kd headers_arg payload_arg from_arg to_arg contact_arg;;
  message <-
    (if nonempty message_arg then Ok (default EmptyString message_arg)
     else match STATUS code with
          | Some s => Ok s
          | None => Raise KeyError
          end);;
  m <- (if truthy cseq_arg then Ok (set_cseq cseq_arg m)
        else if CIMultiDict.contains "CSeq" (headers m) then Ok m
        else Raise cseq_required);;
  m <- (if nonempty method_arg then Ok (set_method method_arg m)
        else if CIMultiDict.contains "CSeq" (headers m) then Ok m
        else Raise method_required);;
  let m := set_status_message (Some message) (set_status_code (Some code) m) in
  Ok (set_first_line
        (Some (if nonempty first_line then default EmptyString first_line
               else response_line code message))
        m).

(** ** Serialization *)

(** The headers every message leaves with (message.py:204-208): the
    length of the body, and [Max-Forwards] and [Call-ID] unless they are
    set. *)
Definition closing_headers (length : nat) (h : CIMultiDict.t) : CIMultiDict.t :=
  let h :=
    CIMultiDict.setitem "Content-Length" (HStr (str_of_Z (Z.of_nat length))) h in
  let h :=
    if CIMultiDict.contains "Max-Forwards" h then h
    else CIMultiDict.setitem "Max-Forwards" (HStr "70") h in
  if CIMultiDict.contains "Call-ID" h then h
  else CIMultiDict.setitem "Call-ID" (HStr uuid) h.

(** [_make_headers] (message.py:189-210): the cached values are written
    back into the header map, and the lines are formatted.  Returns the
    text and the message as it is left. *)
Definition _make_headers (m : Message) : result (string * Message) :=
  let m :=
    match _from_details m with
    | Some c => set_headers (CIMultiDict.setitem "From" (HStr (contact_str c)) (headers m)) m
    | None => m
    end in
  let m :=
    match _to_details m with
    | Some c => set_headers (CIMultiDict.setitem "To" (HStr (contact_str c)) (headers m)) m
    | None => m
    end in
  let m :=
    match _contact_details m with
    | Some (Some c) =>
        set_headers (CIMultiDict.setitem "Contact" (HStr (contact_str c)) (headers m)) m
    | Some None => set_headers (CIMultiDict.setitem "Contact" (HStr "None") (headers m)) m
    | None => m
    end in
  m <- (if (bool_decide (is_Some (_cseq m)) || bool_decide (is_Some (_method m)))%bool
        then
          cm <- cseq m;;
          mm <- method (snd cm);;
          Ok (set_headers
                (CIMultiDict.setitem "CSeq" (HStr (str_of_Z (fst cm) +:+ " " +:+ fst mm))
                   (headers (snd mm)))
                (snd mm))
        else Ok m);;
  let m :=
    set_headers
      (closing_headers (List.length (default [] (_raw_payload m))) (headers m)) m in
  text <- _format_headers (kind m) (headers m);;
  Ok (text, m).

(** The body [encode] settles on (message.py:181-184): the text payload
    encoded, if there is one; else the raw payload, or nothing. *)
Definition body (m : Message) : bytes :=
  if nonempty (_payload m) then encode_text (default EmptyString (_payload m))
  else if nonempty_bytes (_raw_payload m) then default [] (_raw_payload m)
  else [].

(** [Message.encode] (message.py:180-187) *)
Definition Message_encode (m : Message) : result (bytes * Message) :=
  let m := set_raw_payload (Some (body m)) m in
  tm <- _make_headers m;;
  Ok (encode_text (fst tm) ++ default [] (_raw_payload (snd tm)), snd tm).

(** [encode], as the class of the message has it (message.py:319-320,
    417-418): a request or a response puts its first line in front. *)
Definition encode (m : Message) : result (bytes * Message) :=
  match kind m with
  | IsMessage => Message_encode m
  | _ =>
      match _first_line m with
      | None => Raise AttributeError
      | Some line =>
          bm <- Message_encode m;;
          Ok (encode_text line ++ BYTES_EOL ++ fst bm, snd bm)
      end
  end.

(** ** Parsing *)

Definition not_enough_values : exn :=
  ValueError "not enough values to unpack (expected 2, got 1)".

(** One turn of the loop of [from_raw_headers] (message.py:239-250). *)
(** (The loop stores text only: the value found is never an [int].) *)
Definition add_line (h : CIMultiDict.t) (line : string) : result CIMultiDict.t :=
  match split_colon line with
  | None => Raise not_enough_values
  | Some (k, v) =>
      let k := default k (dict_get (lower k) compact_to_long) in
      match CIMultiDict.find k h with
      | Some (HList l) => Ok (CIMultiDict.setitem k (HList (l ++ [v])) h)
      | Some (HStr s) => Ok (CIMultiDict.setitem k (HList [s; v]) h)
      | Some (HInt z) => Ok (CIMultiDict.setitem k (HList [str_of_Z z; v]) h)
      | None => Ok (CIMultiDict.setitem k (HStr v) h)
      end
  end.

Fixpoint add_lines (h : CIMultiDict.t) (lines : list string) : result CIMultiDict.t :=
  match lines with
  | [] => Ok h
  | line :: rest => h' <- add_line h line;; add_lines h' rest
  end.

(** A character the [.] of a pattern matches. *)
Definition not_newline (c : ascii) : bool := negb (Ascii.eqb c LF).

(** [re.match] of the response pattern (message.py:17), whose dots match
    any character but a newline: the three digits and the reason
    phrase, which runs to the end of the line. *)
Definition response_match (line : string) : option (string * string) :=
  match line with
  | String "S" (String "I" (String "P" (String "/" (String "2" (String dot
      (String "0" (String " " (String d1 (String d2 (String d3
        (String " " rest))))))))))) =>
      if (not_newline dot && is_digit d1 && is_digit d2 && is_digit d3)%bool
      then
        match fst (span not_newline rest) with
        | EmptyString => None
        | phrase => Some (String d1 (String d2 (String d3 EmptyString)), phrase)
        end
      else None
  | _ => None
  end.

(** Whether [s] starts with what [ SIP/2.0] matches. *)
Definition version_here (s : string) : bool :=
  match s with
  | String " " (String "S" (String "I" (String "P" (String "/" (String "2"
      (String dot (String "0" _))))))) => not_newline dot
  | _ => false
  end.

(** Whether [ SIP/2.0] matches somewhere in [s], after characters none
    of which is a newline. *)
Fixpoint version_follows (s : string) : bool :=
  (version_here s
   || match s with
      | EmptyString => false
      | String c s' => not_newline c && version_follows s'
      end)%bool.

(** [re.match] of the request pattern (message.py:14): the method, a
    run of letters followed by a blank, at least one character, and the
    version. *)
Definition request_match (line : string) : option string :=
  match span is_alpha line with
  | (String c letters, String " " (String u rest)) =>
      if (not_newline u && version_follows rest)%bool
      then Some (String c letters)
      else None
  | _ => None
  end.

Definition not_a_sip_message : exn := ValueError "Not a SIP message".
Definition no_values : exn :=
  ValueError "not enough values to unpack (expected 2, got 0)".
Definition too_many_values : exn :=
  ValueError "too many values to unpack (expected 2)".

(** [from_raw_headers] (message.py:235-270) *)
Definition from_raw_headers (raw_headers : bytes) : result Message :=
  text <- decode_text raw_headers;;
  match split_eol text with
  | [] => Raise IndexError
  | first :: lines =>
      h <- add_lines [] lines;;
      match response_match first with
      | Some (code, phrase) =>
          code <- py_int code;;
          Response_init IsResponse code (Some phrase) (Some h) None None None
            None None None (Some first)
      | None =>
          match request_match first with
          | Some name =>
              v <- CIMultiDict.getitem "CSeq" h;;
              match v with
              | HStr s =>
                  match words s with
                  | [number; _] =>
                      number <- py_int number;;
                      Request_init name number None None None (Some h) None (Some first)
                  | [] => Raise no_values
                  | [_] => Raise not_enough_values
                  | _ => Raise too_many_values
                  end
              | _ => Raise AttributeError
              end
          | None => Raise not_a_sip_message
          end
      end
  end.

(** ** Vocabulary of the properties *)

(** What the wire form starts with: the first line and the line break
    after it, for a request or a response. *)
Definition start_line (m : Message) : bytes :=
  match kind m with
  | IsMessage => []
  | _ => encode_text (default EmptyString (_first_line m)) ++ BYTES_EOL
  end.

(** The sequence number and the method are both cached, or neither is:
    [_make_headers] then has nothing to parse. *)
Definition cseq_settled (m : Message) : Prop :=
  (is_Some (_cseq m) /\ is_Some (_method m)) \/ (_cseq m = None /\ _method m = None).

(*CODEC-END*)

End Codec.

(** ** A codec to run the examples with

    Text in ASCII, one byte for a character; a contact written as its
    short URI, followed by [;tag=] and the tag if it has one. *)

Module Wire.

Definition encode_text (s : string) : bytes := String.list_byte_of_string s.

Definition decode_text (b : bytes) : result string := Ok (String.string_of_list_byte b).

Definition contact_str (c : Contact) : string :=
  match params c !! "tag" with
  | Some tag => short_uri (uri c) +:+ ";tag=" +:+ tag
  | None => short_uri (uri c)
  end.

(** Reads back what [contact_str] writes for a contact whose URI is
    its short form alone. *)
Fixpoint split_tag (s : string) : string * option string :=
  match s with
  | EmptyString => (EmptyString, None)
  | String c s' =>
      match s with
      | String ";" (String "t" (String "a" (String "g" (String "=" tag)))) =>
          (EmptyString, Some tag)
      | _ => let (u, tag) := split_tag s' in (String c u, tag)
      end
  end.

Definition contact_from_header (v : hval) : result Contact :=
  match v with
  | HStr s =>
      let (u, tag) := split_tag s in
      Ok (mkContact (mkUri EmptyString None u)
            match tag with Some t => {[ "tag" := t ]} | None => ∅ end)
  | _ => Raise TypeError
  end.

Definition reason (code : Z) : option string :=
  if code =? 200 then Some "OK"
  else if code =? 100 then Some "Trying"
  else if code =? 486 then Some "Busy Here"
  else None.

#[export] Instance outside : Outside := {|
  MessageModel.contact_str := contact_str;
  MessageModel.contact_from_header := contact_from_header;
  MessageModel.encode_text := encode_text;
  MessageModel.decode_text := decode_text;
  MessageModel.STATUS := reason;
  MessageModel.branch := "z9hG4bK2";
  MessageModel.uuid := "7f1c"
|}.

Definition alice : Contact :=
  mkContact (mkUri EmptyString None "sip:alice@example.org") {[ "tag" := "a1" ]}.

Definition bob : Contact :=
  mkContact (mkUri EmptyString None "sip:bob@example.org") ∅.

Definition via : hval := HStr "SIP/2.0/UDP example.org;branch=z9hG4bK1".

End Wire.

(** The INVITE and the 200 of the examples, as the constructors build
    them. *)
Definition Wire_invite : Message :=
  {| kind := IsRequest;
     headers := [("Via", Wire.via); ("accept", HStr "x")];
     _payload := Some "hello"; _raw_payload := None;
     _from_details := Some Wire.alice; _to_details := Some Wire.bob;
     _contact_details := Some (Some Wire.alice);
     _cseq := Some 1; _method := Some "INVITE";
     _first_line := Some "INVITE sip:bob@example.org SIP/2.0";
     _status_code := None; _status_message := None |}.

Definition Wire_ok : Message :=
  {| kind := IsResponse;
     headers := [("Via", Wire.via)];
     _payload := None; _raw_payload := None;
     _from_details := Some Wire.alice; _to_details := Some Wire.bob;
     _contact_details := None;
     _cseq := Some 1; _method := Some "INVITE";
     _first_line := Some "SIP/2.0 200 OK";
     _status_code := Some 200; _status_message := Some "OK" |}.

(** ** The order of the header lines *)

(** [k == 'Via'] (message.py:215, 424): the key as written. *)
Definition is_via (i : string * hval) : bool := String.eqb (fst i) "Via".

Definition not_via (i : string * hval) : bool := negb (is_via i).

(** The lines one item goes out as. *)
Definition lines_of (kd : Kind) (i : string * hval) : list string :=
  item_lines (wire_name kd (fst i)) (snd i).

(** One key before another, in the order of the characters' codes. *)
Definition key_lt (a b : string * hval) : Prop :=
  String.ltb (fst a) (fst b) = true.

(** The name a header line is written under. *)
Definition line_name (line : string) : string :=
  match split_colon line with
  | Some (k, _) => k
  | None => line
  end.

(** Names compared without regard to case. *)
Definition ci_leb (a b : string) : bool := String.leb (lower a) (lower b).

Fixpoint ascending (le : string -> string -> bool) (names : list string) : bool :=
  match names with
  | a :: rest =>
      match rest with
      | b :: _ => le a b && ascending le rest
      | [] => true
      end
  | [] => true
  end.

(** What is left of the names after the leading [Via] ones. *)
Fixpoint after_via (names : list string) : list string :=
  match names with
  | n :: rest => if CIMultiDict.same_key n "Via" then after_via rest else names
  | [] => []
  end.

(** The order in which every [Via] line is in front and the names that
    follow ascend without regard to case. *)
Definition via_first_then_ascending_ci (lines : list string) : bool :=
  let others := after_via (map line_name lines) in
  forallb (fun n => negb (CIMultiDict.same_key n "Via")) others
  && ascending ci_leb others.

(** ** The first line and the header block *)

(** What the wire form holds in front of its blank line: the first line
    and the header lines, joined by line breaks. *)
Definition head_text (m : Message) : string :=
  join EOL (default EmptyString (_first_line m) :: header_lines (kind m) (headers m)).

(** Text that holds no line feed. *)
Definition no_lf (s : string) : bool := all_chars not_newline s.

(** A name [from_raw_headers] maps to a long one. *)
Definition is_alias (k : string) : bool :=
  match dict_get (lower k) compact_to_long with
  | Some _ => true
  | None => false
  end.

(** A header name that is read back as it is written: no colon, no line
    feed, and not the alias of another name. *)
Definition plain_key (k : string) : bool :=
  all_chars (fun c => not_newline c && negb (Ascii.eqb c ":")) k && negb (is_alias k).

(** A header value that is read back as it is written: a text on one
    line, or a list of two or more of them. *)
Definition text_value (v : hval) : bool :=
  match v with
  | HStr s => no_lf s
  | HList (a :: b :: l) => forallb no_lf (a :: b :: l)
  | _ => false
  end.

Definition plain_item (i : string * hval) : bool :=
  plain_key (fst i) && text_value (snd i).

(** No two items under names that differ by case only. *)
Definition distinct_names (h : CIMultiDict.t) : Prop :=
  NoDup (map (fun i => lower (fst i)) h).

(** The order [_format_headers] writes the items in, for a map whose
    keys differ. *)
Definition arranged (h : CIMultiDict.t) : CIMultiDict.t :=
  List.filter is_via h
  ++ List.filter not_via match sorted_items h with Ok items => items | Raise _ => [] end.

(** What a first line is made of. *)
Inductive Start : Type :=
| RequestLine (name uri : string)
| StatusLine (code : Z) (phrase : string).

Definition start_text (s : Start) : string :=
  match s with
  | RequestLine name uri => name +:+ " " +:+ uri +:+ " SIP/2.0"
  | StatusLine code phrase => "SIP/2.0 " +:+ str_of_Z code +:+ " " +:+ phrase
  end.

(** A first line the two patterns read back: a method in capital
    letters and a target on one line; a code of three digits and a
    reason phrase on one line. *)
Definition start_ok (s : Start) : bool :=
  match s with
  | RequestLine name uri =>
      nonempty (Some name) && all_chars is_upper name
      && nonempty (Some uri) && no_lf uri
  | StatusLine code phrase =>
      (100 <=? code) && (code <=? 999) && nonempty (Some phrase) && no_lf phrase
  end.

(** A method that is one word of the [CSeq] header. *)
Definition one_word (name : string) : bool :=
  all_chars (fun c => not_newline c && negb (Ascii.eqb c " ")) name.

(** The value of an accessor, without the message it leaves. *)
Definition value {A B} (r : result (A * B)) : result A :=
  match r with
  | Ok ab => Ok (fst ab)
  | Raise e => Raise e
  end.

(** ** Vocabulary of the header loop *)

(** The name a line is stored under (message.py:241-242): the long
    name of an alias, whatever its case, and any other name as it is. *)
Definition long_name (k : string) : string :=
  default k (dict_get (lower k) compact_to_long).

(** The value stored for a line with value [v] under a name whose value
    so far is [old] (message.py:243-250). *)
Definition merged (old : option hval) (v : string) : hval :=
  match old with
  | Some (HList l) => HList (l ++ [v])
  | Some (HStr s) => HList [s; v]
  | Some (HInt z) => HList [str_of_Z z; v]
  | None => HStr v
  end.

(** Whether a line is stored under the name [k], case disregarded. *)
Definition line_under (k : string) (line : string) : bool :=
  match split_colon line with
  | Some (k', _) => CIMultiDict.same_key k (long_name k')
  | None => false
  end.

(** The values of the lines stored under [k], first to last. *)
Definition values_under (k : string) (lines : list string) : list string :=
  flat_map (fun line =>
              match split_colon line with
              | Some (k', v) => if CIMultiDict.same_key k (long_name k') then [v] else []
              | None => []
              end) lines.

(** What the loop leaves under a name for the values of its lines: a
    text for one line, the list of the values, in the order of the
    lines, for more than one. *)
Definition collected (values : list string) : option hval :=
  match values with
  | [] => None
  | [v] => Some (HStr v)
  | _ => Some (HList values)
  end.

(*MESSAGE-END*)

End MessageModel.

(*DEFS-END*)

(* ===================================================================== *)
(** * Properties *)
(* ===================================================================== *)

Example py_int_examples :
  py_int "3600" = Ok 3600 /\ py_int " -12 " = Ok (-12) /\ py_int "1_000" = Ok 1000
  /\ py_int "" = Raise invalid_literal /\ py_int "1__0" = Raise invalid_literal
  /\ py_int "12a" = Raise invalid_literal /\ py_int "+" = Raise invalid_literal.
Proof. repeat split; reflexivity. Qed.

Example split_examples :
  split_eol ("a" +:+ EOL +:+ "b: c" +:+ EOL) = ["a"; "b: c"; ""]
  /\ split_eol "" = [""]
  /\ split_colon "Via: SIP/2.0: x" = Some ("Via", "SIP/2.0: x")
  /\ split_colon "x:: v" = Some ("x:", "v")
  /\ split_colon "novalue" = None
  /\ split_char " " "1 INVITE" = ["1"; "INVITE"]
  /\ split_char " " "1  " = ["1"; ""; ""]
  /\ words "  1   INVITE " = ["1"; "INVITE"]
  /\ join ", " ["a"; "b"; "c"] = "a, b, c".
Proof. repeat split; reflexivity. Qed.

Example str_of_Z_examples :
  str_of_Z 0 = "0" /\ str_of_Z 7 = "7" /\ str_of_Z 3960 = "3960"
  /\ str_of_Z (-15) = "-15" /\ str_of_Z 1000 = "1000" /\ str_of_Z 1024 = "1024".
Proof. repeat split; reflexivity. Qed.

(* --------------------------------------------------------------------- *)
(** ** Header maps *)
(* --------------------------------------------------------------------- *)

Module CIMultiDictFacts.
Import CIMultiDict.

Lemma same_key_refl k : same_key k k = true.
Proof. apply String.eqb_refl. Qed.

Lemma same_key_sym k1 k2 : same_key k1 k2 = same_key k2 k1.
Proof. apply String.eqb_sym. Qed.

Lemma same_key_trans k1 k2 k3 :
  same_key k1 k2 = true -> same_key k2 k3 = same_key k1 k3.
Proof. unfold same_key. intros H. apply String.eqb_eq in H. rewrite H. reflexivity. Qed.

Lemma contains_find k h : contains k h = bool_decide (is_Some (find k h)).
Proof.
  induction h as [| [k' v] h IH]; simpl; [reflexivity |].
  destruct (same_key k k'); simpl; [reflexivity | exact IH].
Qed.

(** Decides the comparisons of keys met in a goal, and closes the cases
    that contradict the lower-case forms being equal or not. *)
Ltac same_key_cases :=
  unfold same_key in *;
  repeat match goal with
    | |- context [String.eqb ?a ?b] =>
        let E := fresh "E" in
        destruct (String.eqb a b) eqn:E;
        [apply String.eqb_eq in E | apply String.eqb_neq in E]
    end;
  simpl; try reflexivity; try congruence.

Lemma find_remove k k' h :
  find k (remove k' h) = if same_key k' k then None else find k h.
Proof.
  induction h as [| [k'' v] h IH]; simpl.
  - destruct (same_key k' k); reflexivity.
  - destruct (same_key k' k'') eqn:E1; simpl; rewrite IH; revert E1; same_key_cases.
Qed.

(** What is read back after [h[k'] = v]. *)
Lemma find_setitem k k' v h :
  find k (setitem k' v h) = if same_key k k' then Some v else find k h.
Proof.
  induction h as [| [k'' v''] h IH]; simpl.
  - reflexivity.
  - destruct (same_key k' k'') eqn:E1; simpl.
    + rewrite find_remove. revert E1. same_key_cases.
    + rewrite IH. revert E1. same_key_cases.
Qed.

Lemma contains_setitem k k' v h :
  contains k (setitem k' v h) = (same_key k k' || contains k h)%bool.
Proof.
  rewrite !contains_find, find_setitem.
  destruct (same_key k k'); reflexivity.
Qed.

(*CIFACTS-END*)

End CIMultiDictFacts.

(* --------------------------------------------------------------------- *)
(** ** The monad of [dialog.py]: what a method leaves alone *)
(* --------------------------------------------------------------------- *)

Module DialogFacts.
Import DialogModel.

Section Keeps.

Context {X : Type} (obs : World -> X).

Lemma keeps_ret {A} (a : A) : keeps obs (ret a).
Proof. intros w. reflexivity. Qed.

Lemma keeps_raise {A} (e : exn) : keeps obs (raise (A := A) e).
Proof. intros w. reflexivity. Qed.

Lemma keeps_lift {A} (r : result A) : keeps obs (lift r).
Proof. intros w. reflexivity. Qed.

Lemma keeps_this : keeps obs this.
Proof. intros w. reflexivity. Qed.

Lemma keeps_get_world : keeps obs get_world.
Proof. intros w. reflexivity. Qed.

Lemma keeps_bind {A B} (m : M A) (k : A -> M B) :
  keeps obs m -> (forall a, keeps obs (k a)) -> keeps obs (bind m k).
Proof.
  intros Hm Hk w. unfold bind.
  specialize (Hm w). destruct (m w) as [[a | e] w']; simpl in *.
  - rewrite Hk. exact Hm.
  - exact Hm.
Qed.

Lemma keeps_when (c : bool) (body : M unit) :
  keeps obs body -> keeps obs (when c body).
Proof. destruct c; simpl; [trivial | intros _; apply keeps_ret]. Qed.

Lemma keeps_try_except_KeyError {A} (body handler : M A) :
  keeps obs body -> keeps obs handler -> keeps obs (try_except_KeyError body handler).
Proof.
  intros Hb Hh w. unfold try_except_KeyError.
  specialize (Hb w). destruct (body w) as [[a | e] w']; simpl in *; [exact Hb |].
  destruct e; simpl; try exact Hb. rewrite Hh. exact Hb.
Qed.

Lemma keeps_try_finally {A} (body : M A) (final : M unit) :
  keeps obs body -> keeps obs final -> keeps obs (try_finally body final).
Proof.
  intros Hb Hf w. unfold try_finally.
  specialize (Hb w). destruct (body w) as [r w']; simpl in *.
  specialize (Hf w'). destruct (final w') as [[[] | e] w'']; simpl in *; congruence.
Qed.

Lemma keeps_update_world (f : World -> World) :
  (forall w, obs (f w) = obs w) -> keeps obs (update_world f).
Proof. intros H w. apply H. Qed.

Lemma keeps_update (f : DialogObj -> DialogObj) :
  (forall w, obs (with_self (f (self w)) w) = obs w) -> keeps obs (update f).
Proof. intros H w. apply H. Qed.

Lemma keeps_deref (l : loc) : keeps obs (deref l).
Proof. intros w. unfold deref. destruct (contacts w !! l); reflexivity. Qed.

Lemma keeps_await_free {A} (m : M A) :
  (forall w, snd (m w) = w) -> keeps obs m.
Proof. intros H w. rewrite H. reflexivity. Qed.

End Keeps.

Create HintDb keeps discriminated.

(** Breaks a method into its statements, unless a lemma about the whole
    of it is at hand; what is left are the writes, each to be checked
    against the observation. *)
Ltac keeps_step :=
  first
    [ solve [auto with keeps nocore]
    | apply keeps_bind; [| intros ?]
    | apply keeps_ret
    | apply keeps_raise
    | apply keeps_lift
    | apply keeps_this
    | apply keeps_get_world
    | apply keeps_deref
    | apply keeps_when
    | apply keeps_try_except_KeyError
    | apply keeps_try_finally
    | match goal with
      | |- keeps _ (match ?x with _ => _ end) => destruct x
      end ].

Ltac keeps_writes :=
  first
    [ apply keeps_update_world; intros ?; reflexivity
    | apply keeps_update; intros ?; reflexivity ].

Ltac keeps_auto := repeat (keeps_step || keeps_writes).

(** Building a request writes to the contacts and draws a branch
    token; an observation that looks at neither is kept. *)
Section Building.

Context {X : Type} (obs : World -> X).
Hypothesis obs_contacts : forall v w, obs (with_contacts v w) = obs w.
Hypothesis obs_drawn : forall v w, obs (with_drawn v w) = obs w.

Lemma keeps_gen_branch : keeps obs gen_branch.
Proof. intros w. apply obs_drawn. Qed.

Lemma keeps_Contact_from_header v : keeps obs (Contact_from_header v).
Proof. unfold Contact_from_header. keeps_auto. Qed.

Lemma keeps_new_contact c : keeps obs (new_contact c).
Proof.
  unfold new_contact. keeps_auto.
  apply keeps_update_world. intros ?. apply obs_contacts.
Qed.

Hint Resolve keeps_gen_branch keeps_Contact_from_header keeps_new_contact : keeps.

Lemma keeps_Request_contact_details contact headers :
  keeps obs (Request_contact_details contact headers).
Proof. unfold Request_contact_details. keeps_auto. Qed.

Hint Resolve keeps_Request_contact_details : keeps.

Lemma keeps_Request method cseq from to contact headers payload :
  keeps obs (Request method cseq from to contact headers payload).
Proof. unfold Request. keeps_auto. Qed.

End Building.

#[global] Hint Extern 1 (keeps _ (Request _ _ _ _ _ _ _)) =>
  apply keeps_Request; intros; reflexivity : keeps.

(* --------------------------------------------------------------------- *)
(** ** What the base handlers leave alone *)
(* --------------------------------------------------------------------- *)

(** The handlers of [DialogBase] write to the contacts, the registry,
    the tasks, the transactions, and to [_closing] and [_closed]; an
    observation that looks at none of them is kept. *)
Section Frame.

Context {X : Type} (obs : World -> X).
Hypothesis obs_contacts : forall v w, obs (with_contacts v w) = obs w.
Hypothesis obs_dialogs : forall v w, obs (with_app_dialogs v w) = obs w.
Hypothesis obs_tasks : forall v w, obs (with_tasks v w) = obs w.
Hypothesis obs_transactions :
  forall v w, obs (with_self (set_transactions v (self w)) w) = obs w.
Hypothesis obs_closing :
  forall v w, obs (with_self (set_closing v (self w)) w) = obs w.
Hypothesis obs_closed :
  forall v w, obs (with_self (set_closed v (self w)) w) = obs w.

Ltac frame_writes :=
  first
    [ apply keeps_update_world; intros ?; solve [auto]
    | apply keeps_update; intros ?; solve [auto] ].

Ltac frame := repeat (keeps_step || frame_writes).

Lemma keeps_dialog_id : keeps obs dialog_id.
Proof. unfold dialog_id. frame. Qed.

Lemma keeps_del_dialogs key : keeps obs (del_dialogs key).
Proof.
  intros w. unfold del_dialogs. destruct (app_dialogs w !! key); simpl; auto.
Qed.

Lemma keeps_set_remote_tag tag : keeps obs (set_remote_tag tag).
Proof. unfold set_remote_tag. frame. Qed.

Hint Resolve keeps_dialog_id keeps_del_dialogs keeps_set_remote_tag : keeps.

Lemma keeps_rekey msg : keeps obs (rekey msg).
Proof. unfold rekey, set_dialogs. frame. Qed.

Lemma keeps_transactions_getitem method : keeps obs (transactions_getitem method).
Proof. unfold transactions_getitem. frame. Qed.

Hint Resolve keeps_rekey keeps_transactions_getitem : keeps.

Lemma keeps_transactions_setitem method cseq t :
  keeps obs (transactions_setitem method cseq t).
Proof. unfold transactions_setitem. frame. Qed.

Hint Resolve keeps_transactions_setitem : keeps.

Lemma keeps__receive_response msg : keeps obs (_receive_response msg).
Proof. unfold _receive_response. frame. Qed.

Lemma keeps_cancel_closing : keeps obs cancel_closing.
Proof. unfold cancel_closing, cancel_task. frame. Qed.

Hint Resolve keeps_cancel_closing : keeps.

Lemma keeps_close_later delay : keeps obs (close_later delay).
Proof.
  unfold close_later. frame. intros w. unfold ensure_future. simpl. auto.
Qed.

Hint Resolve keeps_close_later : keeps.

Lemma keeps__maybe_close msg : keeps obs (_maybe_close msg).
Proof. unfold _maybe_close. frame. Qed.

Hint Resolve keeps__maybe_close keeps__receive_response : keeps.

Lemma keeps_InviteDialog__receive_request msg :
  keeps obs (InviteDialog._receive_request msg).
Proof. unfold InviteDialog._receive_request. frame. Qed.

Lemma keeps_close_transactions : keeps obs close_transactions.
Proof. unfold close_transactions. frame. Qed.

Hint Resolve keeps_close_transactions : keeps.

Lemma keeps__close : keeps obs _close.
Proof. unfold _close. frame. Qed.

End Frame.

(** The call, as its user sees it, is such an observation. *)
Lemma keeps_call_rekey msg : keeps call_view (rekey msg).
Proof. apply keeps_rekey; reflexivity. Qed.

Lemma keeps_call__receive_response msg : keeps call_view (_receive_response msg).
Proof. apply keeps__receive_response; reflexivity. Qed.

Lemma keeps_call_InviteDialog__receive_request msg :
  keeps call_view (InviteDialog._receive_request msg).
Proof. apply keeps_InviteDialog__receive_request; reflexivity. Qed.

(* --------------------------------------------------------------------- *)
(** ** Building a request *)
(* --------------------------------------------------------------------- *)

(** The dialog adds [User-Agent] and [Call-ID] and leaves every other
    header as the caller gave it. *)
Lemma find_request_headers k ua cid headers :
  CIMultiDict.same_key k "User-Agent" = false ->
  CIMultiDict.same_key k "Call-ID" = false ->
  CIMultiDict.find k (request_headers ua cid headers)
  = CIMultiDict.find k (default [] headers).
Proof.
  intros Hua Hcid. unfold request_headers.
  rewrite CIMultiDictFacts.find_setitem, Hcid.
  destruct (CIMultiDict.contains "User-Agent" (default [] headers)); [reflexivity |].
  rewrite CIMultiDictFacts.find_setitem, Hua. reflexivity.
Qed.

Lemma Request_with_Via method cseq from to contact headers payload w :
  CIMultiDict.contains "Via" headers = true ->
  Request method cseq from to contact headers payload w
  = (Ok (mkMsg None (upper method) cseq from to contact headers
           (default EmptyString payload)), w).
Proof. intros H. unfold Request. rewrite H. reflexivity. Qed.

Lemma _prepare_request_with_Via method headers payload cseq to w :
  CIMultiDict.contains "Via" (default [] headers) = true ->
  _prepare_request method None headers payload cseq to w
  = (Ok (prepared method headers payload cseq to w), bump cseq w).
Proof.
  intros Hvia.
  assert (Hh : forall ua cid,
             CIMultiDict.contains "Via" (request_headers ua cid headers) = true).
  { intros ua cid. rewrite CIMultiDictFacts.contains_find in *.
    rewrite find_request_headers by reflexivity. exact Hvia. }
  unfold _prepare_request, prepared, bump, bind, when, update, get_world, this.
  destruct (truthy cseq); simpl; rewrite Request_with_Via by apply Hh; reflexivity.
Qed.

Lemma ack_run msg via w :
  CIMultiDict.find "Via" (m_headers msg) = Some via ->
  ack msg None w
  = (Ok tt, with_sent (sent w ++ [ack_request msg via w])
              (bump (Some (m_cseq msg)) w)).
Proof.
  intros Hvia. unfold ack, CIMultiDict.getitem, bind at 1, lift.
  rewrite Hvia. simpl CIMultiDict.setitem.
  unfold bind. rewrite _prepare_request_with_Via by reflexivity.
  unfold send_message, update_world, ack_request, bump.
  destruct (truthy (Some (m_cseq msg))); reflexivity.
Qed.

Lemma ack_request_is_ack msg via w :
  CIMultiDict.find "Via" (m_headers msg) = Some via ->
  is_ack_for msg (ack_request msg via w).
Proof.
  intros Hvia. unfold is_ack_for, ack_request, prepared.
  cbn [m_status_code m_method m_to_details m_headers default].
  repeat split. rewrite find_request_headers by reflexivity.
  rewrite Hvia. reflexivity.
Qed.

(* --------------------------------------------------------------------- *)
(** ** The dialog id and the registry *)
(* --------------------------------------------------------------------- *)


(** The id is the set of the remote tag, if any, the local tag and the
    call id, read through the original request. *)
Lemma dialog_id_ok w to from from_tag :
  contacts w !! m_to_details (original_msg (self w)) = Some to ->
  contacts w !! m_from_details (original_msg (self w)) = Some from ->
  params from !! "tag" = Some from_tag ->
  dialog_id w
  = (Ok ({[ params to !! "tag"; Some from_tag; Some (call_id (self w)) ]} : DialogId), w).
Proof.
  intros Hto Hfrom Htag.
  unfold dialog_id, bind, this, deref, lift, dict_getitem, ret.
  simpl. rewrite Hto, Hfrom, Htag. reflexivity.
Qed.

Lemma dialog_id_inv w key :
  fst (dialog_id w) = Ok key ->
  exists to from from_tag,
    contacts w !! m_to_details (original_msg (self w)) = Some to
    /\ contacts w !! m_from_details (original_msg (self w)) = Some from
    /\ params from !! "tag" = Some from_tag
    /\ key = {[ params to !! "tag"; Some from_tag; Some (call_id (self w)) ]}.
Proof.
  unfold dialog_id, bind, this, deref, lift, dict_getitem, ret. simpl.
  destruct (contacts w !! m_to_details (original_msg (self w))) as [to |]; [| discriminate].
  destruct (contacts w !! m_from_details (original_msg (self w))) as [from |]; [| discriminate].
  destruct (params from !! "tag") as [from_tag |] eqn:Htag; [| discriminate].
  simpl. intros [= <-]. eauto 10.
Qed.

Lemma set_remote_tag_run w to tag :
  contacts w !! to_details (self w) = Some to ->
  set_remote_tag tag w
  = (Ok tt, with_contacts (<[to_details (self w) := set_param "tag" tag to]> (contacts w)) w).
Proof.
  intros Hto. unfold set_remote_tag, bind, this, deref. rewrite Hto. reflexivity.
Qed.

(** A dialog that is in the registry under its id. *)
Lemma rekey_succeeds w msg to msg_to key :
  contacts w !! to_details (self w) = Some to ->
  contacts w !! m_to_details msg = Some msg_to ->
  has_tag msg_to = true ->
  fst (dialog_id w) = Ok key ->
  is_Some (app_dialogs w !! key) ->
  fst (rekey msg w) = Ok tt.
Proof.
  intros Hto Hmto Htag Hid [x Hreg].
  destruct (dialog_id_inv w key Hid) as (oto & ofrom & ftag & Hoto & Hofrom & Hftag & ->).
  apply bool_decide_eq_true in Htag. destruct Htag as [tag Htag].
  unfold rekey, bind at 1. rewrite (dialog_id_ok _ _ _ _ Hoto Hofrom Hftag).
  unfold bind at 1, del_dialogs. rewrite Hreg.
  unfold bind at 1, deref at 1. cbn [contacts with_app_dialogs]. rewrite Hmto.
  unfold bind at 1, lift, dict_getitem. rewrite Htag.
  unfold bind at 1. rewrite (set_remote_tag_run _ to) by exact Hto.
  set (w2 := with_contacts _ _).
  assert (Hdom : forall l c, contacts w !! l = Some c -> exists c', contacts w2 !! l = Some c'
            /\ (params c !! "tag" = Some ftag -> is_Some (params c' !! "tag"))).
  { intros l c Hl. subst w2. cbn [contacts with_contacts with_app_dialogs self].
    destruct (decide (to_details (self w) = l)) as [<- | Hne].
    - rewrite lookup_insert_eq. eexists; split; [reflexivity |].
      intros _. unfold set_param. cbn [params]. rewrite lookup_insert_eq. eauto.
    - rewrite lookup_insert_ne by exact Hne. eexists; split; [exact Hl | eauto]. }
  destruct (Hdom _ _ Hoto) as (oto' & Hoto' & _).
  destruct (Hdom _ _ Hofrom) as (ofrom' & Hofrom' & Hft).
  destruct (Hft Hftag) as [ftag' Hftag'].
  unfold bind at 1.
  rewrite (dialog_id_ok w2 oto' ofrom' ftag') by assumption.
  reflexivity.
Qed.

(* --------------------------------------------------------------------- *)
(** ** The INVITE state machine *)
(* --------------------------------------------------------------------- *)

(** Up to the dispatch: the dialog is re-keyed if the message brings the
    remote tag, and the message is queued; the call is otherwise as it
    was. *)
Lemma receive_message_prefix w msg to msg_to :
  contacts w !! to_details (self w) = Some to ->
  contacts w !! m_to_details msg = Some msg_to ->
  (has_tag to = false -> has_tag msg_to = true ->
   exists key, fst (dialog_id w) = Ok key /\ is_Some (app_dialogs w !! key)) ->
  exists w1,
    call_view w1
    = (_state (self w), _waiter (self w), _queue (self w) ++ [msg], sent w)
    /\ InviteDialog.receive_message msg w = InviteDialog.dispatch msg w1.
Proof.
  intros Hto Hmto Hreg.
  unfold InviteDialog.receive_message.
  unfold bind at 1, this. unfold bind at 1, deref at 1. rewrite Hto.
  unfold bind at 1, deref at 1. rewrite Hmto.
  destruct (negb (has_tag to) && has_tag msg_to)%bool eqn:Hc; unfold when.
  - apply andb_true_iff in Hc. destruct Hc as [Hc1 Hc2].
    apply negb_true_iff in Hc1.
    destruct (Hreg Hc1 Hc2) as (key & Hkey & Hin).
    pose proof (rekey_succeeds w msg to msg_to key Hto Hmto Hc2 Hkey Hin) as Hok.
    pose proof (keeps_call_rekey msg w) as Hview.
    unfold bind at 1. destruct (rekey msg w) as [r wr]. simpl in Hok, Hview. subst r.
    unfold bind at 1, update.
    eexists. split; [| reflexivity].
    unfold call_view in *. cbn [self with_self _state _waiter _queue set_queue sent].
    injection Hview as -> -> -> ->. reflexivity.
  - unfold bind at 1, ret. unfold bind at 1, update.
    eexists. split; [| reflexivity]. reflexivity.
Qed.


Lemma bump_view c w : call_view (bump c w) = call_view w.
Proof. unfold bump. destruct (truthy c); reflexivity. Qed.

Lemma set_result_run w msg via :
  CIMultiDict.find "Via" (m_headers msg) = Some via ->
  _waiter (self w) = Pending ->
  exists w',
    InviteDialog.set_result msg w = (Ok tt, w')
    /\ call_view w'
       = (_state (self w), Done msg, _queue (self w), sent w ++ [ack_request msg via w]).
Proof.
  intros Hvia Hwait. unfold InviteDialog.set_result.
  unfold bind at 1. rewrite (ack_run _ via) by exact Hvia.
  unfold bind at 1, this.
  pose proof (bump_view (Some (m_cseq msg)) w) as Hb.
  unfold call_view in Hb. injection Hb as Hs Hw Hq Hsent.
  cbn [self with_sent]. rewrite Hw, Hwait. cbn [done negb when update].
  eexists. split; [reflexivity |].
  unfold call_view. cbn [self with_self with_sent sent _state _waiter _queue set_waiter].
  rewrite Hs, Hq. reflexivity.
Qed.

Lemma ack_view w msg via :
  CIMultiDict.find "Via" (m_headers msg) = Some via ->
  exists w',
    ack msg None w = (Ok tt, w')
    /\ call_view w'
       = (_state (self w), _waiter (self w), _queue (self w),
          sent w ++ [ack_request msg via w]).
Proof.
  intros Hvia. rewrite (ack_run _ via) by exact Hvia.
  pose proof (bump_view (Some (m_cseq msg)) w) as Hb.
  unfold call_view in Hb. injection Hb as Hs Hw Hq Hsent.
  eexists. split; [reflexivity |].
  unfold call_view. cbn [self with_sent sent]. rewrite Hs, Hw, Hq. reflexivity.
Qed.

(** Runs the plumbing of the monad, up to the next call or the next
    choice that is not decided. *)
Ltac mstep :=
  cbv beta iota zeta delta [bind this ret raise lift update update_world when get_world];
  cbn [fst snd].

Lemma ack_request_set_state msg via s w :
  ack_request msg via (with_self (set_state s (self w)) w) = ack_request msg via w.
Proof.
  unfold ack_request, prepared, bump. destruct (truthy (Some (m_cseq msg))); reflexivity.
Qed.

Lemma dispatch_row w msg via action next :
  CIMultiDict.find "Via" (m_headers msg) = Some via ->
  waiting w ->
  spec_table (_state (self w)) (m_status_code msg) (m_method msg) = Some (action, next) ->
  let out := InviteDialog.dispatch msg w in
  _queue (self (snd out)) = _queue (self w)
  /\ _state (self (snd out)) = next
  /\ performs action msg via w w out.
Proof.
  intros Hvia Hwait Hrow. cbv zeta.
  unfold InviteDialog.dispatch. mstep.
  unfold waiting in Hwait. unfold spec_table in Hrow.
  destruct (_state (self w)) eqn:Hst.
  - (* Calling *)
    destruct (m_status_code msg) as [code |] eqn:Hcode; [| discriminate].
    unfold InviteDialog.handle_calling_state, InviteDialog.status_code.
    rewrite Hcode. mstep.
    destruct ((100 <=? code) && (code <? 200))%bool;
      [| destruct (code =? 200);
         [| destruct ((300 <=? code) && (code <? 700))%bool; [| discriminate]]];
      injection Hrow as <- <-; mstep.
    + unfold performs.
      cbn [self with_self sent _state _queue _waiter set_state fst snd]. repeat split; auto.
    + edestruct (set_result_run (with_self (set_state Terminated (self w)) w) msg via Hvia)
        as (w' & -> & Hv); [exact Hwait |].
      unfold call_view in Hv. injection Hv as Hs Hw Hq Hsent.
      unfold performs. cbn [fst snd]. rewrite Hs, Hw, Hq, Hsent, ack_request_set_state.
      repeat split; auto.
    + edestruct (set_result_run (with_self (set_state Completed (self w)) w) msg via Hvia)
        as (w' & -> & Hv); [exact Hwait |].
      unfold call_view in Hv. injection Hv as Hs Hw Hq Hsent.
      unfold performs. cbn [fst snd]. rewrite Hs, Hw, Hq, Hsent, ack_request_set_state.
      repeat split; auto.
  - (* Proceeding *)
    destruct (m_status_code msg) as [code |] eqn:Hcode; [| discriminate].
    unfold InviteDialog.handle_proceeding_state, InviteDialog.status_code.
    rewrite Hcode. mstep.
    destruct ((100 <=? code) && (code <? 200))%bool;
      [| destruct (code =? 200);
         [| destruct ((300 <=? code) && (code <? 700))%bool; [| discriminate]]];
      injection Hrow as <- <-; mstep.
    + unfold performs. cbn [fst snd]. repeat split; auto.
    + edestruct (set_result_run (with_self (set_state Terminated (self w)) w) msg via Hvia)
        as (w' & -> & Hv); [exact Hwait |].
      unfold call_view in Hv. injection Hv as Hs Hw Hq Hsent.
      unfold performs. cbn [fst snd]. rewrite Hs, Hw, Hq, Hsent, ack_request_set_state.
      repeat split; auto.
    + edestruct (set_result_run (with_self (set_state Completed (self w)) w) msg via Hvia)
        as (w' & -> & Hv); [exact Hwait |].
      unfold call_view in Hv. injection Hv as Hs Hw Hq Hsent.
      unfold performs. cbn [fst snd]. rewrite Hs, Hw, Hq, Hsent, ack_request_set_state.
      repeat split; auto.
  - (* Completed *)
    destruct (m_status_code msg) as [code |] eqn:Hcode; [| discriminate].
    injection Hrow as <- <-.
    unfold InviteDialog.handle_completed_state.
    destruct (ack_view w msg via Hvia) as (w' & -> & Hv).
    unfold call_view in Hv. injection Hv as Hs Hw Hq Hsent.
    unfold performs. cbn [fst snd]. rewrite Hs, Hw, Hq, Hsent. repeat split; auto.
  - (* Terminated *)
    assert (Hresp : (is_Response msg || String.eqb (m_method msg) "ACK")%bool = true ->
                    action = RouteResponse /\ next = Terminated).
    { unfold is_Response. destruct (m_status_code msg); simpl.
      - injection Hrow as <- <-. auto.
      - intros E. rewrite E in Hrow. injection Hrow as <- <-. auto. }
    assert (Hreq : (is_Response msg || String.eqb (m_method msg) "ACK")%bool = false ->
                    action = RouteRequest /\ next = Terminated).
    { unfold is_Response. destruct (m_status_code msg); simpl; [discriminate |].
      intros E. rewrite E in Hrow. injection Hrow as <- <-. auto. }
    destruct (is_Response msg || String.eqb (m_method msg) "ACK")%bool.
    + destruct Hresp as [-> ->]; [reflexivity |].
      pose proof (keeps_call__receive_response msg w) as Hv.
      unfold call_view in Hv. injection Hv as Hs Hw Hq Hsent.
      unfold performs. rewrite Hs, Hw, Hq, Hsent. repeat split; auto.
    + destruct Hreq as [-> ->]; [reflexivity |].
      pose proof (keeps_call_InviteDialog__receive_request msg w) as Hv.
      unfold call_view in Hv. injection Hv as Hs Hw Hq Hsent.
      unfold performs. rewrite Hs, Hw, Hq, Hsent. repeat split; auto.
Qed.

(** *** No way back to [Calling] *)

Lemma preserves_bind {A B} (P : World -> Prop) (m : M A) (k : A -> M B) :
  preserves P m -> (forall a, preserves P (k a)) -> preserves P (bind m k).
Proof.
  intros Hm Hk w Hw. unfold bind.
  specialize (Hm w Hw). destruct (m w) as [[a | e] w']; simpl in *.
  - apply Hk. exact Hm.
  - exact Hm.
Qed.

Lemma keeps_preserves {A X} (obs : World -> X) (P : World -> Prop) (m : M A) :
  (forall w w', obs w' = obs w -> P w -> P w') ->
  keeps obs m -> preserves P m.
Proof. intros HP Hm w Hw. apply (HP w); [apply Hm | exact Hw]. Qed.

Lemma waiting_call_view w w' : call_view w' = call_view w -> waiting w -> waiting w'.
Proof.
  unfold call_view, waiting. intros [= -> -> _ _]. trivial.
Qed.

Lemma keeps_state_ack msg : keeps (fun w => _state (self w)) (ack msg None).
Proof.
  unfold ack, _prepare_request, send_message. keeps_auto.
Qed.

Lemma keeps_state_set_result msg :
  keeps (fun w => _state (self w)) (InviteDialog.set_result msg).
Proof.
  unfold InviteDialog.set_result. pose proof (keeps_state_ack msg). keeps_auto.
Qed.

(** Once the call has left [Calling] and [Proceeding] it stays out. *)
Lemma settled_is_waiting w :
  _state (self w) = Completed \/ _state (self w) = Terminated -> waiting w.
Proof. unfold waiting. intros [-> | ->]; trivial. Qed.

Lemma preserves_waiting_dispatch msg : preserves waiting (InviteDialog.dispatch msg).
Proof.
  intros w Hw. unfold InviteDialog.dispatch. mstep.
  destruct (_state (self w)) eqn:Hst.
  - unfold InviteDialog.handle_calling_state, InviteDialog.status_code.
    destruct (m_status_code msg) as [code |]; mstep; [| exact Hw].
    destruct ((100 <=? code) && (code <? 200))%bool;
      [| destruct (code =? 200);
         [| destruct ((300 <=? code) && (code <? 700))%bool]]; mstep.
    + unfold waiting in *. rewrite Hst in Hw. exact Hw.
    + apply settled_is_waiting. right. rewrite keeps_state_set_result. reflexivity.
    + apply settled_is_waiting. left. rewrite keeps_state_set_result. reflexivity.
    + exact Hw.
  - unfold InviteDialog.handle_proceeding_state, InviteDialog.status_code.
    destruct (m_status_code msg) as [code |]; mstep; [| exact Hw].
    destruct ((100 <=? code) && (code <? 200))%bool;
      [| destruct (code =? 200);
         [| destruct ((300 <=? code) && (code <? 700))%bool]]; mstep.
    + exact Hw.
    + apply settled_is_waiting. right. rewrite keeps_state_set_result. reflexivity.
    + apply settled_is_waiting. left. rewrite keeps_state_set_result. reflexivity.
    + exact Hw.
  - apply settled_is_waiting. left.
    unfold InviteDialog.handle_completed_state. rewrite keeps_state_ack. exact Hst.
  - destruct (is_Response msg || String.eqb (m_method msg) "ACK")%bool.
    + apply (waiting_call_view w); [apply keeps_call__receive_response | exact Hw].
    + apply (waiting_call_view w);
        [apply keeps_call_InviteDialog__receive_request | exact Hw].
Qed.

Lemma preserves_waiting_receive_message msg :
  preserves waiting (InviteDialog.receive_message msg).
Proof.
  assert (Hframe : forall A (m : M A), keeps call_view m -> preserves waiting m).
  { intros A m. apply keeps_preserves, waiting_call_view. }
  unfold InviteDialog.receive_message.
  apply preserves_bind; [apply Hframe; keeps_auto | intros d].
  apply preserves_bind; [apply Hframe; keeps_auto | intros to].
  apply preserves_bind; [apply Hframe; keeps_auto | intros msg_to].
  apply preserves_bind; [apply Hframe, keeps_when, keeps_call_rekey | intros _].
  apply preserves_bind; [intros w Hw; exact Hw | intros _].
  apply preserves_waiting_dispatch.
Qed.

Lemma waiting_deliveries msgs w : waiting w -> waiting (deliveries msgs w).
Proof.
  revert w. induction msgs as [| msg msgs IH]; intros w Hw; simpl; [exact Hw |].
  apply IH. apply preserves_waiting_receive_message. exact Hw.
Qed.

Lemma performs_sent a msg via w w1 out :
  performs a msg via w w1 out ->
  sent (snd out)
  = sent w ++ match acks_of a with O => [] | S _ => [ack_request msg via w1] end.
Proof.
  destruct a; simpl; intros (_ & -> & _); rewrite ?app_nil_r; reflexivity.
Qed.

Lemma performs_start a msg via w w1 out :
  sent w1 = sent w -> _waiter (self w1) = _waiter (self w) ->
  performs a msg via w1 w1 out -> performs a msg via w w1 out.
Proof. intros Hs Hw. destruct a; simpl; rewrite Hs, ?Hw; trivial. Qed.

(** C1 (as amended).  An [InviteDialog] starts in [Calling] with nobody
    told the outcome.  After any deliveries, the next message is first
    queued for [recv()] and then handled as the row of §4.5 for the state
    and the message says, provided the contacts are there, the message
    carries a [Via], and the dialog is registered under its id when the
    message brings it the remote tag.  The state becomes the row's next
    state; [NoAction] sends nothing and leaves the waiter pending;
    [AckAndDeliver] sends the ACK for the message and completes the
    waiter with it; [AckOnly] sends the ACK and leaves the waiter as it
    is; in [Terminated] the outcome is that of the base handler run after
    the queueing, and nothing is sent.  So a final response handled in
    [Calling], [Proceeding] or [Completed] with a row in the table
    triggers exactly one ACK, and one routed in [Terminated] triggers
    none. *)
Theorem invite_dialog_follows_table w0 msgs msg to msg_to via action next :
  _state (self w0) = Calling ->
  _waiter (self w0) = Pending ->
  let w := deliveries msgs w0 in
  contacts w !! to_details (self w) = Some to ->
  contacts w !! m_to_details msg = Some msg_to ->
  (has_tag to = false -> has_tag msg_to = true ->
   exists key, fst (dialog_id w) = Ok key /\ is_Some (app_dialogs w !! key)) ->
  CIMultiDict.find "Via" (m_headers msg) = Some via ->
  spec_table (_state (self w)) (m_status_code msg) (m_method msg)
  = Some (action, next) ->
  exists w1,
    call_view w1
    = (_state (self w), _waiter (self w), _queue (self w) ++ [msg], sent w)
    /\ let out := InviteDialog.receive_message msg w in
       _queue (self (snd out)) = _queue (self w) ++ [msg]
       /\ _state (self (snd out)) = next
       /\ performs action msg via w w1 out
       /\ is_ack_for msg (ack_request msg via w1)
       /\ acks_triggered msg w = acks_of action.
Proof.
  intros Hcalling Hpending w Hto Hmto Hreg Hvia Hrow.
  assert (Hwait : waiting w).
  { apply waiting_deliveries. unfold waiting. rewrite Hcalling. exact Hpending. }
  destruct (receive_message_prefix w msg to msg_to Hto Hmto Hreg)
    as (w1 & Hview & Hrun).
  exists w1. split; [exact Hview |].
  unfold call_view in Hview. injection Hview as Hs Hw Hq Hsent.
  assert (Hwait1 : waiting w1) by (unfold waiting in *; rewrite Hs, Hw; exact Hwait).
  rewrite <- Hs in Hrow.
  destruct (dispatch_row w1 msg via action next Hvia Hwait1 Hrow) as (Hq' & Hs' & Hdo).
  apply (performs_start _ _ _ w) in Hdo; [| exact Hsent | exact Hw].
  cbv zeta. unfold acks_triggered. rewrite Hrun.
  split; [rewrite Hq'; exact Hq |].
  split; [exact Hs' |].
  split; [exact Hdo |].
  split; [apply ack_request_is_ack; exact Hvia |].
  unfold acks. rewrite (performs_sent _ _ _ _ _ _ Hdo).
  rewrite List.filter_app, length_app.
  destruct (acks_of action) as [| n] eqn:Hn; simpl.
  - lia.
  - assert (n = 0%nat) as -> by (destruct action; simpl in Hn; congruence).
    simpl. lia.
Qed.

(** The table at work: after a 180 that brought Bob's tag, a 200 is
    answered by one ACK. *)
Lemma invite_dialog_follows_table_witness :
  acks_triggered (Scenario.response 200 "INVITE" 3%nat [])
    (deliveries [Scenario.response 180 "INVITE" 3%nat []] (Scenario.world "INVITE"))
  = 1%nat.
Proof.
  destruct (invite_dialog_follows_table (Scenario.world "INVITE")
              [Scenario.response 180 "INVITE" 3%nat []]
              (Scenario.response 200 "INVITE" 3%nat [])
              Scenario.bob_tagged Scenario.bob_tagged Scenario.via
              AckAndDeliver Terminated) as (w1 & _ & H).
  - reflexivity.
  - reflexivity.
  - vm_compute. reflexivity.
  - vm_compute. reflexivity.
  - intros Hno _. vm_compute in Hno. discriminate Hno.
  - reflexivity.
  - vm_compute. reflexivity.
  - exact (proj2 (proj2 (proj2 (proj2 H)))).
Defined.

(** C1, as stated, fails: in [Terminated] a final response is routed to
    the base handler, which sends no ACK.  The first 200 takes the call
    from [Calling] to [Terminated] and is ACKed; the same 200 arriving
    again triggers none. *)
Lemma final_response_in_Terminated_not_acked :
  let ok := Scenario.response 200 "INVITE" 3%nat [] in
  let w := deliveries [ok] (Scenario.world "INVITE") in
  _state (self (Scenario.world "INVITE")) = Calling
  /\ _state (self w) = Terminated
  /\ m_status_code ok = Some 200
  /\ fst (InviteDialog.receive_message ok w) = Ok tt
  /\ acks_triggered ok w = 0%nat.
Proof. vm_compute. repeat split; reflexivity. Qed.

(* --------------------------------------------------------------------- *)
(** ** Timed close *)
(* --------------------------------------------------------------------- *)

Lemma length_cancelled_closing w : length (cancelled_closing w) = length (tasks w).
Proof.
  unfold cancelled_closing. destruct (_closing (self w)); [| reflexivity].
  apply length_alter.
Qed.

Lemma close_later_run delay w :
  close_later delay w
  = (Ok tt, scheduled (default (dialog_closing_delay w) delay) w).
Proof.
  unfold close_later, cancel_closing, cancel_task, ensure_future, scheduled,
    cancelled_closing.
  mstep. destruct (_closing (self w)) as [i |]; mstep;
    cbn [tasks with_tasks self with_self dialog_closing_delay].
  - rewrite length_alter. reflexivity.
  - reflexivity.
Qed.

(** What scheduling does to the tasks: the new one is pending with the
    delay asked for, the one scheduled before is cancelled. *)
Lemma scheduled_tasks delay w :
  let w' := scheduled delay w in
  _closing (self w') = Some (length (tasks w))
  /\ tasks w' !! length (tasks w) = Some (mkTask delay false)
  /\ (forall i task, _closing (self w) = Some i -> tasks w !! i = Some task ->
      tasks w' !! i = Some (mkTask (t_delay task) true)).
Proof.
  cbv zeta. unfold scheduled. cbn [self with_self _closing set_closing tasks with_tasks].
  split; [reflexivity |]. split.
  - rewrite lookup_app_r by (rewrite length_cancelled_closing; lia).
    rewrite length_cancelled_closing, Nat.sub_diag. reflexivity.
  - intros i task Hi Ht. unfold cancelled_closing. rewrite Hi.
    rewrite lookup_app_l by (rewrite length_alter; eapply lookup_lt_Some; exact Ht).
    rewrite list_lookup_alter_eq, Ht. reflexivity.
Qed.

(** *** The product with 1.1 *)

Lemma round_half_even_near m k :
  0 <= k ->
  let p := round_half_even m k in
  2 * m - 2 ^ k <= 2 * (p * 2 ^ k) <= 2 * m + 2 ^ k.
Proof.
  intros Hk p. subst p. unfold round_half_even.
  assert (Hpos : 0 < 2 ^ k) by (apply Z.pow_pos_nonneg; lia).
  pose proof (Z.div_mod m (2 ^ k) ltac:(lia)) as Hdm.
  pose proof (Z.mod_pos_bound m (2 ^ k) Hpos) as Hr.
  set (q := m / 2 ^ k) in *. set (r := m mod 2 ^ k) in *. set (T := 2 ^ k) in *.
  destruct (2 * r >? T) eqn:E1; cbn [orb].
  - apply Z.gtb_lt in E1. nia.
  - pose proof (Zgt_cases (2 * r) T) as E1'. rewrite E1 in E1'.
    destruct (2 * r =? T) eqn:E2; cbn [andb].
    + apply Z.eqb_eq in E2. destruct (Z.odd q); nia.
    + nia.
Qed.

Lemma round_half_even_lower m k : m / 2 ^ k <= round_half_even m k.
Proof. unfold round_half_even. destruct (_ || _)%bool; lia. Qed.

(** A whole number below [2^53] is a double. *)
Lemma to_double_small n : 0 <= n < 2 ^ 53 -> to_double n = (n, 0).
Proof.
  intros Hn. unfold to_double.
  assert (Hk : Z.max 0 (Z.log2 n + 1 - 53) = 0).
  { destruct (Z.eq_dec n 0) as [-> | Hnz]; [reflexivity |].
    assert (Z.log2 n < 53) by (apply Z.log2_lt_pow2; lia). lia. }
  rewrite Hk. unfold round_half_even.
  change (2 ^ 0) with 1. rewrite Z.div_1_r, Z.mod_1_r. reflexivity.
Qed.

(** Below [2^48] the product is eleven tenths, the fraction dropped:
    the double [1.1] lies above eleven tenths by 4 parts in [10 * 2^52],
    and with the rounding of the product that is too little to reach
    the next whole number. *)
Lemma scaled_expiry_pos e :
  0 < e < 2 ^ 48 -> scaled_expiry e = Ok (e * 11 / 10).
Proof.
  intros He. unfold scaled_expiry.
  rewrite Z.abs_eq by lia.
  rewrite to_double_small by (change (2 ^ 53) with (2 ^ 48 * 32); lia).
  change (2 ^ 0) with 1.
  assert (Hfin : (2 ^ 1024 <=? e * 1) = false).
  { apply Z.leb_gt. assert (2 ^ 48 < 2 ^ 1024) by (apply Z.pow_lt_mono_r; lia). lia. }
  rewrite Hfin. unfold to_double.
  set (X := e * one_point_one).
  assert (HX : 2 ^ 52 <= X < 2 ^ 101).
  { subst X. unfold one_point_one. change (2 ^ 101) with (2 ^ 48 * 2 ^ 53).
    change (2 ^ 52) with 4503599627370496. change (2 ^ 53) with 9007199254740992. nia. }
  assert (Hlog : 52 <= Z.log2 X < 101).
  { split; [apply Z.log2_le_pow2; lia | apply Z.log2_lt_pow2; lia]. }
  set (j := Z.max 0 (Z.log2 X + 1 - 53)).
  assert (Hj : 0 <= j <= 48) by (subst j; lia).
  pose proof (round_half_even_near X j ltac:(lia)) as Hnear. cbv zeta in Hnear.
  set (p := round_half_even X j) in *.
  assert (Hs : (j + 0 - 52 <? 0) = true) by (apply Z.ltb_lt; lia).
  rewrite Hs. rewrite Z.sgn_pos by lia. rewrite Z.mul_1_l.
  f_equal.
  replace (- (j + 0 - 52)) with (52 - j) by lia.
  set (T := 2 ^ j) in *. set (U := 2 ^ (52 - j)).
  assert (HTU : T * U = 2 ^ 52).
  { subst T U. rewrite <- Z.pow_add_r by lia. f_equal. lia. }
  assert (HT : 0 < T <= 2 ^ 48).
  { subst T. split; [apply Z.pow_pos_nonneg; lia | apply Z.pow_le_mono_r; lia]. }
  assert (HU : 0 < U) by (subst U; apply Z.pow_pos_nonneg; lia).
  pose proof (Z.div_mod (e * 11) 10 ltac:(lia)) as Hq.
  pose proof (Z.mod_pos_bound (e * 11) 10 ltac:(lia)) as Hr.
  set (q0 := e * 11 / 10) in *. set (r0 := (e * 11) mod 10) in *.
  assert (H10 : 10 * X = (10 * q0 + r0) * 2 ^ 52 + 4 * e).
  { rewrite <- Hq. subst X. unfold one_point_one.
    change (2 ^ 52) with 4503599627370496. lia. }
  change (2 ^ 48) with 281474976710656 in *.
  change (2 ^ 52) with 4503599627370496 in *.
  symmetry. apply (Z.div_unique_pos p U q0 (p - U * q0)); [| lia].
  split.
  - destruct (Z_le_gt_dec (U * q0) p) as [Hle | Hgt]; [lia | exfalso].
    assert (p + 1 <= U * q0) by lia.
    assert ((p + 1) * T <= U * q0 * T) by (apply Z.mul_le_mono_nonneg_r; lia).
    assert (U * q0 * T = q0 * 4503599627370496) by (rewrite <- HTU; ring).
    assert (0 <= r0 * 4503599627370496) by lia.
    lia.
  - destruct (Z_lt_le_dec p (U * (q0 + 1))) as [Hlt | Hge]; [lia | exfalso].
    assert (U * (q0 + 1) * T <= p * T) by (apply Z.mul_le_mono_nonneg_r; lia).
    assert (U * (q0 + 1) * T = (q0 + 1) * 4503599627370496) by (rewrite <- HTU; ring).
    lia.
Qed.

Lemma scaled_expiry_sign expire :
  scaled_expiry expire
  = match scaled_expiry (Z.abs expire) with
    | Ok v => Ok (Z.sgn expire * v)
    | Raise e => Raise e
    end.
Proof.
  unfold scaled_expiry. rewrite Z.abs_idemp.
  destruct (to_double (Z.abs expire)) as [m k].
  destruct (2 ^ 1024 <=? m * 2 ^ k); [reflexivity |].
  destruct (to_double (m * one_point_one)) as [p j].
  destruct (Z.eq_dec expire 0) as [-> | Hnz].
  - cbn [Z.abs Z.sgn].
    repeat match goal with |- context [if ?c then _ else _] => destruct c end;
      rewrite ?Z.mul_0_l; reflexivity.
  - rewrite (Z.sgn_pos (Z.abs expire)) by lia.
    repeat match goal with |- context [if ?c then _ else _] => destruct c end;
      rewrite ?Z.mul_1_l; reflexivity.
Qed.

Lemma scaled_expiry_small expire :
  Z.abs expire < 2 ^ 48 -> scaled_expiry expire = Ok (Z.quot (expire * 11) 10).
Proof.
  intros Hb. destruct (Z.eq_dec expire 0) as [-> | Hnz]; [reflexivity |].
  rewrite scaled_expiry_sign, scaled_expiry_pos by lia. f_equal.
  destruct (Z.abs_spec expire) as [[Hp ->] | [Hn ->]].
  - rewrite Z.sgn_pos by lia. rewrite Z.quot_div_nonneg by lia. lia.
  - rewrite Z.sgn_neg by lia.
    replace (expire * 11) with (- (- expire * 11)) by lia.
    rewrite Z.quot_opp_l by lia. rewrite Z.quot_div_nonneg by lia. lia.
Qed.

(** From [2^1024] on there is no double for [expire]. *)
Lemma scaled_expiry_overflow expire :
  2 ^ 1024 <= Z.abs expire -> scaled_expiry expire = Raise OverflowError.
Proof.
  intros Hb. unfold scaled_expiry, to_double.
  set (n := Z.abs expire) in *.
  assert (Hlog : 1024 <= Z.log2 n) by (apply Z.log2_le_pow2; lia).
  assert (Hn : 2 ^ Z.log2 n <= n) by (apply Z.log2_spec; lia).
  set (k := Z.max 0 (Z.log2 n + 1 - 53)).
  assert (Hk : k = Z.log2 n - 52) by (subst k; lia).
  assert (Hpk : 0 < 2 ^ k) by (apply Z.pow_pos_nonneg; lia).
  assert (Hq : 2 ^ 52 <= n / 2 ^ k).
  { apply Z.div_le_lower_bound; [exact Hpk |].
    rewrite <- Z.pow_add_r by lia. replace (k + 52) with (Z.log2 n) by lia. exact Hn. }
  pose proof (round_half_even_lower n k) as Hm.
  assert (Hbig : 2 ^ 1024 <= round_half_even n k * 2 ^ k).
  { transitivity (2 ^ 52 * 2 ^ k).
    - rewrite <- Z.pow_add_r by lia. apply Z.pow_le_mono_r; lia.
    - apply Z.mul_le_mono_nonneg_r; lia. }
  apply Z.leb_le in Hbig. rewrite Hbig. reflexivity.
Qed.

(** Past [2^48] the product leaves eleven tenths behind: the double
    product of 511772684928469 is a whole number, one above; and a
    number of 308 digits can already be too large to scale. *)
Example scaled_expiry_examples :
  scaled_expiry 3600 = Ok 3960
  /\ scaled_expiry (-5) = Ok (-5)
  /\ scaled_expiry 511772684928469 = Ok 562949953421316
  /\ Z.quot (511772684928469 * 11) 10 = 562949953421315
  /\ scaled_expiry (17 * 10 ^ 307) = Raise OverflowError.
Proof. vm_compute. repeat split; reflexivity. Qed.

(** C4 (as amended).  On a dialog that is not inbound, [_maybe_close]
    for a REGISTER or SUBSCRIBE schedules the close after
    [int(Expires * 1.1)] seconds when [Expires] is not zero, and after
    the application's default closing delay when it is zero or absent;
    for a NOTIFY it schedules nothing and changes nothing; for any other
    method it schedules the close after the default delay.  The product
    is the one of double precision: eleven tenths of [Expires] with the
    fraction dropped as long as [|Expires| < 2^48]; from [2^1024] on
    there is no double to multiply, and [_maybe_close] raises
    [OverflowError] with nothing scheduled.  Scheduling cancels the
    close scheduled before and leaves the new one pending. *)
Theorem maybe_close_schedules w msg expire :
  inbound (self w) = false ->
  let registration :=
    (String.eqb (m_method msg) "REGISTER" || String.eqb (m_method msg) "SUBSCRIBE")%bool in
  (registration = true ->
   int_of_hval (default (HInt 0) (CIMultiDict.find "Expires" (m_headers msg)))
   = Ok expire) ->
  _maybe_close msg w
  = (if registration then
       if expire =? 0 then (Ok tt, scheduled (dialog_closing_delay w) w)
       else match scaled_expiry expire with
            | Ok delay => (Ok tt, scheduled delay w)
            | Raise e => (Raise e, w)
            end
     else if String.eqb (m_method msg) "NOTIFY" then (Ok tt, w)
     else (Ok tt, scheduled (dialog_closing_delay w) w))
  /\ (Z.abs expire < 2 ^ 48 -> scaled_expiry expire = Ok (Z.quot (expire * 11) 10))
  /\ (2 ^ 1024 <= Z.abs expire -> scaled_expiry expire = Raise OverflowError)
  /\ forall delay,
       let w' := scheduled delay w in
       _closing (self w') = Some (length (tasks w))
       /\ tasks w' !! length (tasks w) = Some (mkTask delay false)
       /\ (forall i task, _closing (self w) = Some i -> tasks w !! i = Some task ->
           tasks w' !! i = Some (mkTask (t_delay task) true)).
Proof.
  intros Hout registration Hexp.
  split; [| split; [apply scaled_expiry_small |
            split; [apply scaled_expiry_overflow | intros delay; apply scheduled_tasks]]].
  unfold _maybe_close. mstep. rewrite Hout. fold registration.
  destruct registration; cbn [andb negb].
  - rewrite (Hexp eq_refl). mstep.
    destruct (expire =? 0); cbn [negb]; mstep.
    + apply close_later_run.
    + destruct (scaled_expiry expire) as [delay | e]; [| reflexivity].
      apply close_later_run.
  - destruct (String.eqb (m_method msg) "NOTIFY"); [reflexivity |].
    apply close_later_run.
Qed.

(** Scenario 1 of the specification: a REGISTER answered with
    [Expires: 3600] is closed 3960 seconds later. *)
Lemma maybe_close_schedules_witness :
  _maybe_close (Scenario.response 200 "REGISTER" 3%nat [("Expires", HStr "3600")])
    (Scenario.world "REGISTER")
  = (Ok tt, scheduled 3960 (Scenario.world "REGISTER")).
Proof.
  apply (maybe_close_schedules (Scenario.world "REGISTER")
           (Scenario.response 200 "REGISTER" 3%nat [("Expires", HStr "3600")]) 3600).
  - reflexivity.
  - intros _. reflexivity.
Defined.

(** C4, as stated, fails where it says that no close ever fires when
    [Expires] is zero: the close is scheduled, after the default delay of
    the application (30 seconds here), and it is pending. *)
Lemma expires_zero_schedules_default_close :
  let msg := Scenario.response 200 "REGISTER" 3%nat [("Expires", HStr "0")] in
  let out := _maybe_close msg (Scenario.world "REGISTER") in
  inbound (self (Scenario.world "REGISTER")) = false
  /\ fst out = Ok tt
  /\ tasks (snd out) = [mkTask 30 false]
  /\ close_pending (snd out).
Proof.
  cbv zeta. repeat split; try reflexivity.
  exists 0%nat, (mkTask 30 false). split; reflexivity.
Qed.

(* --------------------------------------------------------------------- *)
(** ** Re-keying *)
(* --------------------------------------------------------------------- *)

(** The three lines at work.  The original request holds the dialog's
    own [To]; with the remote tag unknown and the dialog registered
    under [{None, local tag, call id}], a message whose [To] carries a
    tag moves the entry to [{that tag, local tag, call id}] and stores
    the tag, and touches nothing else. *)
Lemma rekey_run w msg to from from_tag msg_to tag :
  m_to_details (original_msg (self w)) = to_details (self w) ->
  contacts w !! to_details (self w) = Some to ->
  params to !! "tag" = None ->
  contacts w !! m_from_details (original_msg (self w)) = Some from ->
  params from !! "tag" = Some from_tag ->
  contacts w !! m_to_details msg = Some msg_to ->
  params msg_to !! "tag" = Some tag ->
  let old : DialogId := {[ None; Some from_tag; Some (call_id (self w)) ]} in
  let new : DialogId := {[ Some tag; Some from_tag; Some (call_id (self w)) ]} in
  is_Some (app_dialogs w !! old) ->
  rekey msg w
  = (Ok tt,
     with_app_dialogs (<[new := self_ref w]> (delete old (app_dialogs w)))
       (with_contacts (<[to_details (self w) := set_param "tag" tag to]> (contacts w)) w)).
Proof.
  intros Halias Hto Hnotag Hfrom Hftag Hmto Htag old new [x Hreg].
  assert (Hne : to_details (self w) <> m_from_details (original_msg (self w))).
  { intros E. rewrite <- E in Hfrom. congruence. }
  unfold rekey. mstep.
  rewrite (dialog_id_ok w to from from_tag) by (rewrite ?Halias; assumption).
  rewrite Hnotag. fold old. unfold del_dialogs. rewrite Hreg.
  unfold deref at 1. cbn [contacts with_app_dialogs]. rewrite Hmto.
  unfold dict_getitem. rewrite Htag.
  rewrite (set_remote_tag_run _ to) by exact Hto.
  cbn [self with_app_dialogs with_contacts contacts].
  rewrite (dialog_id_ok _ (set_param "tag" tag to) from from_tag);
    cbn [self with_app_dialogs with_contacts contacts call_id].
  - unfold set_dialogs. mstep. unfold set_param at 1. cbn [params].
    rewrite lookup_insert_eq. reflexivity.
  - rewrite Halias. apply lookup_insert_eq.
  - rewrite lookup_insert_ne by exact Hne. exact Hfrom.
  - exact Hftag.
Qed.

(** With the remote tag unknown, [_receive_response] deletes the entry
    before it looks for the tag: a response whose [To] has none leaves
    the dialog out of the registry and raises. *)
Lemma _receive_response_without_to_tag w msg to msg_to key :
  contacts w !! to_details (self w) = Some to ->
  has_tag to = false ->
  contacts w !! m_to_details msg = Some msg_to ->
  params msg_to !! "tag" = None ->
  fst (dialog_id w) = Ok key ->
  is_Some (app_dialogs w !! key) ->
  _receive_response msg w
  = (Raise KeyError, with_app_dialogs (delete key (app_dialogs w)) w).
Proof.
  intros Hto Hnotag Hmto Hmtag Hid [x Hreg].
  destruct (dialog_id_inv w key Hid) as (oto & ofrom & ftag & Hoto & Hofrom & Hftag & ->).
  unfold _receive_response. mstep. unfold deref at 1. rewrite Hto, Hnotag.
  cbn [negb]. unfold rekey. mstep.
  rewrite (dialog_id_ok w oto ofrom ftag) by assumption.
  unfold del_dialogs. rewrite Hreg.
  unfold deref. cbn [contacts with_app_dialogs]. rewrite Hmto.
  unfold dict_getitem. rewrite Hmtag. reflexivity.
Qed.

(** C5 (where the code departs from it).  A REGISTER dialog whose remote
    tag is unknown receives a [100 Trying] whose [To] carries no tag.
    Nothing should be re-keyed; [Dialog.receive_message] deletes the
    dialog from the registry, stores no tag and raises [KeyError].
    [InviteDialog.receive_message], the sibling path, tests for the tag
    first and leaves the registry as it is. *)
Theorem receive_response_without_to_tag_unregisters :
  let trying := Scenario.response 100 "REGISTER" 4%nat [] in
  has_tag Scenario.bob = false
  /\ app_dialogs (Scenario.world "REGISTER") = {[ Scenario.untagged_id := 7%nat ]}
  /\ Dialog.receive_message trying (Scenario.world "REGISTER")
     = (Raise KeyError, with_app_dialogs ∅ (Scenario.world "REGISTER"))
  /\ InviteDialog.receive_message trying (Scenario.world "INVITE")
     = (Ok tt,
        with_self (set_state Proceeding (set_queue [trying] (Scenario.dialog "INVITE")))
          (Scenario.world "INVITE")).
Proof. cbv zeta. repeat split; vm_compute; reflexivity. Qed.

(* --------------------------------------------------------------------- *)
(** ** Sequence numbers *)
(* --------------------------------------------------------------------- *)

Lemma rises_bind {A B} (m : M A) (k : A -> M B) :
  rises m -> (forall a, rises (k a)) -> rises (bind m k).
Proof.
  intros Hm Hk w. unfold bind.
  specialize (Hm w). destruct (m w) as [[a | e] w']; simpl in *; [| exact Hm].
  specialize (Hk a w'). lia.
Qed.

Lemma keeps_rises {A} (m : M A) : keeps (fun w => cseq (self w)) m -> rises m.
Proof. intros H w. rewrite H. lia. Qed.

Lemma keeps_cseq_Request method cseq from to contact headers payload :
  keeps (fun w => DialogModel.cseq (self w))
    (Request method cseq from to contact headers payload).
Proof. apply keeps_Request; reflexivity. Qed.

#[local] Hint Resolve keeps_cseq_Request : keeps.

Lemma Request_cseq method cseq from to contact headers payload w msg :
  fst (Request method cseq from to contact headers payload w) = Ok msg ->
  m_cseq msg = cseq.
Proof.
  unfold Request. unfold bind at 1.
  destruct (_ w) as [[built | e] w']; cbn [fst ret]; [| discriminate].
  intros [= <-]. reflexivity.
Qed.

(** A request built without a sequence number takes the next one. *)
Lemma _prepare_request_next_cseq method contact headers payload to w :
  let out := _prepare_request method contact headers payload None to w in
  cseq (self (snd out)) = cseq (self w) + 1
  /\ forall msg, fst out = Ok msg -> m_cseq msg = cseq (self w) + 1.
Proof.
  cbv zeta. unfold _prepare_request.
  destruct contact as [l |]; mstep; cbn [truthy negb];
    match goal with
    | |- context [Request ?m ?c ?f ?t ?cd ?h ?p ?w'] =>
        pose proof (keeps_cseq_Request m c f t cd h p w') as Hk;
        pose proof (Request_cseq m c f t cd h p w') as Hm;
        destruct (Request m c f t cd h p w') as [r w'']
    end; cbn [fst snd] in *;
    (split; [rewrite Hk; reflexivity | intros msg Hmsg; rewrite (Hm msg Hmsg); reflexivity]).
Qed.

Lemma keeps_cseq_InviteDialog_free {A} (m : M A) :
  keeps (fun w => cseq (self w)) m -> rises m.
Proof. apply keeps_rises. Qed.

Lemma rises__prepare_request method contact headers payload cseq to :
  rises (_prepare_request method contact headers payload cseq to).
Proof.
  unfold _prepare_request.
  apply rises_bind; [| intros _].
  { intros w. destruct (negb (truthy cseq)); simpl; lia. }
  apply keeps_rises. destruct contact; keeps_auto.
Qed.

Lemma rises_ack msg : rises (ack msg None).
Proof.
  unfold ack.
  apply rises_bind; [apply keeps_rises, keeps_lift | intros via].
  apply rises_bind; [apply rises__prepare_request | intros a].
  apply keeps_rises. unfold send_message. keeps_auto.
Qed.

Lemma rises_request method headers payload await :
  (forall w, cseq (self w) <= cseq (self (snd (await w)))) ->
  rises (request method None headers payload await).
Proof.
  intros Hawait. unfold request.
  apply rises_bind; [apply rises__prepare_request | intros msg].
  destruct (negb (String.eqb (m_method msg) "ACK")).
  - apply rises_bind; [| intros ?; apply keeps_rises, keeps_ret].
    unfold start_unreliable_transaction, transaction_start.
    apply rises_bind; [apply keeps_rises, keeps_transactions_setitem; reflexivity |].
    intros _. apply rises_bind; [| intros _; exact Hawait].
    apply keeps_rises. unfold send_message. keeps_auto.
  - apply keeps_rises. unfold send_message. keeps_auto.
Qed.

Lemma keeps_cseq_Dialog__receive_request msg :
  keeps (fun w => cseq (self w)) (Dialog._receive_request msg).
Proof.
  unfold Dialog._receive_request.
  assert (forall key, keeps (fun w => cseq (self w)) (del_dialogs key))
    by (intros; apply keeps_del_dialogs; reflexivity).
  assert (keeps (fun w => cseq (self w)) (_maybe_close msg))
    by (apply keeps__maybe_close; reflexivity).
  keeps_auto.
Qed.

Lemma rises_Dialog_receive_message msg : rises (Dialog.receive_message msg).
Proof.
  unfold Dialog.receive_message.
  apply rises_bind; [apply keeps_rises, keeps_cancel_closing; reflexivity | intros _].
  assert (Hk : rises (if (is_Response msg || String.eqb (m_method msg) "ACK")%bool
                      then _receive_response msg else Dialog._receive_request msg)).
  { apply keeps_rises. destruct (is_Response msg || _)%bool.
    - apply keeps__receive_response; reflexivity.
    - apply keeps_cseq_Dialog__receive_request. }
  intros w. mstep. destruct (cseq (self w) <? m_cseq msg) eqn:E; mstep.
  - specialize (Hk (with_self (set_cseq (m_cseq msg) (self w)) w)).
    apply Z.ltb_lt in E. cbn [self with_self cseq set_cseq] in Hk. lia.
  - apply Hk.
Qed.

Lemma rises_do op : counter_kept op -> rises (do op).
Proof.
  destruct op as [method headers payload await | msg | msg]; simpl; intros Hop.
  - apply rises_bind; [apply rises_request; exact Hop | intros ?; apply keeps_rises, keeps_ret].
  - apply rises_ack.
  - apply rises_Dialog_receive_message.
Qed.

(** What [request] issues is the next number after the counter. *)
Lemma issued_next op w c : In c (issued op w) -> c = cseq (self w) + 1.
Proof.
  destruct op as [method headers payload await | msg | msg]; simpl; try tauto.
  destruct (_prepare_request_next_cseq method None headers payload None w) as [_ Hmsg].
  destruct (fst (_prepare_request method None headers payload None None w)) as [msg |];
    [| simpl; tauto].
  destruct (String.eqb (m_method msg) "ACK"); simpl; [tauto |].
  intros [<- | []]. apply Hmsg. reflexivity.
Qed.

(** And the counter is past it afterwards. *)
Lemma issued_counted op w c :
  counter_kept op -> In c (issued op w) -> c <= cseq (self (snd (do op w))).
Proof.
  intros Hop Hin. pose proof (issued_next op w c Hin) as ->.
  destruct op as [method headers payload await | msg | msg]; simpl in Hin; try tauto.
  simpl in Hop. unfold do, request.
  destruct (_prepare_request_next_cseq method None headers payload None w) as [Hc Hmsg].
  cbv beta iota zeta delta [bind ret].
  destruct (_prepare_request method None headers payload None None w) as [[msg | e] w1];
    cbn [fst snd] in *; [| contradiction].
  destruct (String.eqb (m_method msg) "ACK"); cbn [negb]; [contradiction |].
  assert (Hstart : rises (start_unreliable_transaction msg await)).
  { unfold start_unreliable_transaction, transaction_start.
    apply rises_bind; [apply keeps_rises, keeps_transactions_setitem; reflexivity |].
    intros _. apply rises_bind; [| intros _; exact Hop].
    apply keeps_rises. unfold send_message. keeps_auto. }
  specialize (Hstart w1).
  destruct (start_unreliable_transaction msg await w1) as [[r | e] w2];
    cbn [fst snd] in *; lia.
Qed.

Lemma issued_at_most_one op w :
  issued op w = [] \/ issued op w = [cseq (self w) + 1].
Proof.
  pose proof (issued_next op w) as Hnext.
  destruct op as [method headers payload await | msg | msg]; simpl in *; auto.
  destruct (fst (_prepare_request method None headers payload None None w)) as [msg |];
    auto.
  destruct (String.eqb (m_method msg) "ACK"); auto.
  right. rewrite (Hnext (m_cseq msg)) by (left; reflexivity). reflexivity.
Qed.

(** The sequence numbers [request] issues go strictly up, whatever
    acknowledgements and deliveries come in between. *)
Lemma request_cseqs_increase ops : forall w,
  Forall counter_kept ops ->
  StronglySorted Z.lt (issued_along ops w)
  /\ Forall (fun c => cseq (self w) < c) (issued_along ops w).
Proof.
  induction ops as [| op ops IH]; intros w Hops; simpl.
  - split; constructor.
  - apply Forall_cons in Hops. destruct Hops as [Hop Hops].
    destruct (IH (snd (do op w)) Hops) as [Hsorted Hpast].
    pose proof (rises_do op Hop w) as Hrise.
    pose proof (issued_counted op w) as Hcount.
    destruct (issued_at_most_one op w) as [E | E]; rewrite E in *; simpl.
    + split; [exact Hsorted |].
      eapply Forall_impl; [exact Hpast |]. simpl. intros c Hc. lia.
    + specialize (Hcount _ Hop (or_introl eq_refl)).
      split.
      * constructor; [exact Hsorted |].
        eapply Forall_impl; [exact Hpast |]. simpl. intros c Hc. lia.
      * constructor; [lia |].
        eapply Forall_impl; [exact Hpast |]. simpl. intros c Hc. lia.
Qed.

(** An ACK for a response whose sequence number is not zero carries that
    number and leaves the counter alone. *)
Lemma ack_carries_cseq msg via w :
  CIMultiDict.find "Via" (m_headers msg) = Some via ->
  m_cseq msg <> 0 ->
  ack msg None w = (Ok tt, with_sent (sent w ++ [ack_request msg via w]) w)
  /\ m_cseq (ack_request msg via w) = m_cseq msg.
Proof.
  intros Hvia Hnz. rewrite (ack_run _ via) by exact Hvia.
  unfold ack_request, prepared, bump, truthy.
  apply Z.eqb_neq in Hnz. rewrite Hnz. split; reflexivity.
Qed.

(** C6 (where the code departs from it).  A response whose [CSeq] is
    zero counts as no sequence number in [_prepare_request]: the ACK for
    it takes the dialog's next number, 2 here, and the counter moves to
    it, where the ACK should carry the 0 of the response and leave the
    counter at 1. *)
Theorem ack_of_cseq_zero_takes_next_number :
  let out := ack Scenario_ok_cseq_zero None (Scenario.world "INVITE") in
  m_cseq Scenario_ok_cseq_zero = 0
  /\ cseq (self (Scenario.world "INVITE")) = 1
  /\ fst out = Ok tt
  /\ map m_method (sent (snd out)) = ["ACK"]
  /\ map m_cseq (sent (snd out)) = [2]
  /\ cseq (self (snd out)) = 2.
Proof. cbv zeta. repeat split; vm_compute; reflexivity. Qed.

(* --------------------------------------------------------------------- *)
(** ** Closing *)
(* --------------------------------------------------------------------- *)











(* --------------------------------------------------------------------- *)
(** ** Credentials *)
(* --------------------------------------------------------------------- *)

Section Credentials.

Variable Auth_from_message : Msg -> option Auth.
Variable validate_authorization :
  Auth -> Auth -> string -> string -> string -> string -> bool.

(** With a challenge stored and a block that names the user and the
    URI, or with no block at all, the answer is the digest check or the
    method being CANCEL. *)
Lemma validate_auth_decides message password w :
  match Auth_from_message message with
  | Some (AuthorizationAuth block) =>
      exists challenge username uri,
        auth (self w) = Some challenge
        /\ block !! "username" = Some username
        /\ block !! "uri" = Some uri
        /\ validate_auth Auth_from_message validate_authorization message password w
           = (Ok (validate_authorization challenge (AuthorizationAuth block)
                    password username uri (m_payload message)
                  || String.eqb (m_method message) "CANCEL")%bool, w)
  | _ =>
      validate_auth Auth_from_message validate_authorization message password w
      = (Ok (String.eqb (m_method message) "CANCEL"), w)
  end
  \/ exists block,
       Auth_from_message message = Some (AuthorizationAuth block)
       /\ (auth (self w) = None \/ block !! "username" = None \/ block !! "uri" = None).
Proof.
  unfold validate_auth. mstep.
  destruct (Auth_from_message message) as [[fields | block] |].
  - left. destruct (String.eqb (m_method message) "CANCEL"); reflexivity.
  - destruct (auth (self w)) as [challenge |]; [| right; eauto].
    unfold dict_getitem.
    destruct (block !! "username") as [username |] eqn:Hu; [| right; eauto].
    destruct (block !! "uri") as [uri |] eqn:Hi; [| right; eauto].
    left. exists challenge, username, uri. repeat split.
    destruct (validate_authorization _ _ _ _ _ _); [reflexivity |].
    destruct (String.eqb (m_method message) "CANCEL"); reflexivity.
  - left. destruct (String.eqb (m_method message) "CANCEL"); reflexivity.
Qed.

(** C8 (where the code departs from it).  On a dialog that has issued no
    challenge, a message that carries an Authorization block makes
    [validate_auth] raise [AttributeError], CANCEL or not: the method is
    looked up on [self.auth], which is [None]. *)
Theorem validate_auth_without_challenge_raises message password w block :
  Auth_from_message message = Some (AuthorizationAuth block) ->
  auth (self w) = None ->
  validate_auth Auth_from_message validate_authorization message password w
  = (Raise AttributeError, w).
Proof.
  intros Hblock Hnone. unfold validate_auth. mstep. rewrite Hblock, Hnone. reflexivity.
Qed.

End Credentials.

(** The CANCEL of the scenario, sent with credentials to a dialog that
    has challenged nobody: the claim has [validate_auth] return true. *)
Lemma validate_auth_without_challenge_raises_witness :
  m_method Scenario_cancel = "CANCEL"
  /\ validate_auth Scenario_auth (fun _ _ _ _ _ _ => true) Scenario_cancel "secret"
       (Scenario.world "INVITE")
     = (Raise AttributeError, Scenario.world "INVITE").
Proof.
  split; [reflexivity |].
  apply (validate_auth_without_challenge_raises Scenario_auth (fun _ _ _ _ _ _ => true)
           Scenario_cancel "secret" (Scenario.world "INVITE")
           {[ "username" := "alice"; "uri" := "sip:example.org" ]}).
  - reflexivity.
  - reflexivity.
Defined.

(* --------------------------------------------------------------------- *)
(** ** The outcome of a call *)
(* --------------------------------------------------------------------- *)

Lemma keeps_waiter_ack msg : keeps (fun w => _waiter (self w)) (ack msg None).
Proof.
  unfold ack, _prepare_request, send_message. keeps_auto.
Qed.

Lemma preserves_outcome_dispatch m0 msg :
  preserves (fun w => _waiter (self w) = Done m0) (InviteDialog.dispatch msg).
Proof.
  assert (Hset : preserves (fun w => _waiter (self w) = Done m0)
                   (InviteDialog.set_result msg)).
  { intros w Hw. unfold InviteDialog.set_result.
    pose proof (keeps_waiter_ack msg w) as Hack. simpl in Hack.
    unfold bind at 1. destruct (ack msg None w) as [[[] | e] w1]; simpl in *;
      [| congruence].
    mstep. rewrite Hack, Hw. simpl. congruence. }
  assert (Hstate : forall s w, _waiter (self w) = Done m0 ->
            _waiter (self (with_self (set_state s (self w)) w)) = Done m0)
    by (intros s w Hw; exact Hw).
  intros w Hw. unfold InviteDialog.dispatch. mstep.
  destruct (_state (self w)).
  - unfold InviteDialog.handle_calling_state, InviteDialog.status_code.
    destruct (m_status_code msg) as [code |]; mstep; [| exact Hw].
    destruct ((100 <=? code) && (code <? 200))%bool;
      [| destruct (code =? 200);
         [| destruct ((300 <=? code) && (code <? 700))%bool]]; mstep;
      try exact Hw; apply Hset, Hstate, Hw.
  - unfold InviteDialog.handle_proceeding_state, InviteDialog.status_code.
    destruct (m_status_code msg) as [code |]; mstep; [| exact Hw].
    destruct ((100 <=? code) && (code <? 200))%bool;
      [| destruct (code =? 200);
         [| destruct ((300 <=? code) && (code <? 700))%bool]]; mstep;
      try exact Hw; apply Hset, Hstate, Hw.
  - unfold InviteDialog.handle_completed_state. rewrite keeps_waiter_ack. exact Hw.
  - destruct (is_Response msg || String.eqb (m_method msg) "ACK")%bool.
    + pose proof (keeps_call__receive_response msg w) as Hk.
      unfold call_view in Hk. injection Hk as _ Hk _ _. rewrite Hk. exact Hw.
    + pose proof (keeps_call_InviteDialog__receive_request msg w) as Hk.
      unfold call_view in Hk. injection Hk as _ Hk _ _. rewrite Hk. exact Hw.
Qed.

(** X1.  The first final answer decides the call: once the waiter behind
    [ready()] holds a message, no delivery replaces it, whatever the
    messages are and however handling them ends. *)
Theorem outcome_is_never_replaced msgs m0 w :
  _waiter (self w) = Done m0 ->
  _waiter (self (deliveries msgs w)) = Done m0.
Proof.
  revert w. induction msgs as [| msg msgs IH]; intros w Hw; simpl; [exact Hw |].
  apply IH. revert w Hw.
  change (preserves (fun w => _waiter (self w) = Done m0)
            (InviteDialog.receive_message msg)).
  assert (Hframe : forall A (m : M A),
             keeps call_view m -> preserves (fun w => _waiter (self w) = Done m0) m).
  { intros A m. apply keeps_preserves. unfold call_view.
    intros w w' [= _ -> _ _]. trivial. }
  unfold InviteDialog.receive_message.
  apply preserves_bind; [apply Hframe; keeps_auto | intros d].
  apply preserves_bind; [apply Hframe; keeps_auto | intros to].
  apply preserves_bind; [apply Hframe; keeps_auto | intros msg_to].
  apply preserves_bind; [apply Hframe, keeps_when, keeps_call_rekey | intros _].
  apply preserves_bind; [intros w Hw; exact Hw | intros _].
  apply preserves_outcome_dispatch.
Qed.

Lemma outcome_is_never_replaced_witness :
  let busy := Scenario.response 486 "INVITE" 4%nat [] in
  let ok := Scenario.response 200 "INVITE" 4%nat [] in
  let w := snd (InviteDialog.receive_message busy (Scenario.world "INVITE")) in
  _waiter (self w) = Done busy
  /\ _waiter (self (deliveries [ok; ok] w)) = Done busy.
Proof.
  intros busy ok w.
  assert (Hw : _waiter (self w) = Done busy) by (vm_compute; reflexivity).
  split; [exact Hw |].
  exact (outcome_is_never_replaced [ok; ok] busy w Hw).
Defined.

(** Without a tag to take over, [receive_message] queues the message
    and goes on to the dispatch. *)
Lemma receive_message_queues w msg to msg_to :
  contacts w !! to_details (self w) = Some to ->
  contacts w !! m_to_details msg = Some msg_to ->
  has_tag to = true \/ has_tag msg_to = false ->
  InviteDialog.receive_message msg w
  = InviteDialog.dispatch msg
      (with_self (set_queue (_queue (self w) ++ [msg]) (self w)) w).
Proof.
  intros Hto Hmto Htag.
  unfold InviteDialog.receive_message, deref. mstep. rewrite Hto. mstep.
  rewrite Hmto. mstep.
  assert (E : (negb (has_tag to) && has_tag msg_to)%bool = false)
    by (destruct Htag as [-> | ->]; [reflexivity | apply andb_false_r]).
  rewrite E. reflexivity.
Qed.

(** X2.  A response whose status code is none of 1xx, 200 and 3xx-6xx
    (a 202 or a 700, say) reaches an [InviteDialog] that is [Calling] or
    [Proceeding] and is put on the queue of [recv()]; nothing else
    happens: no ACK is sent, the state stays, nobody waiting on
    [ready()] is told. *)
Theorem other_status_codes_are_only_queued w msg c to msg_to :
  contacts w !! to_details (self w) = Some to ->
  contacts w !! m_to_details msg = Some msg_to ->
  has_tag to = true \/ has_tag msg_to = false ->
  _state (self w) = Calling \/ _state (self w) = Proceeding ->
  m_status_code msg = Some c ->
  unhandled_code c = true ->
  InviteDialog.receive_message msg w
  = (Ok tt, with_self (set_queue (_queue (self w) ++ [msg]) (self w)) w).
Proof.
  intros Hto Hmto Htag Hst Hc Hcode.
  rewrite (receive_message_queues w msg to msg_to Hto Hmto Htag).
  unfold unhandled_code in Hcode. apply negb_true_iff in Hcode.
  apply orb_false_iff in Hcode. destruct Hcode as [Hcode H3].
  apply orb_false_iff in Hcode. destruct Hcode as [H1 H2].
  unfold InviteDialog.dispatch. mstep. cbn [self with_self _state set_queue].
  destruct Hst as [-> | ->];
    unfold InviteDialog.handle_calling_state, InviteDialog.handle_proceeding_state,
      InviteDialog.status_code;
    rewrite Hc; mstep; rewrite H1, H2, H3; reflexivity.
Qed.

Lemma other_status_codes_are_only_queued_witness :
  let accepted := Scenario.response 202 "INVITE" 4%nat [] in
  let w := Scenario.world "INVITE" in
  InviteDialog.receive_message accepted w
  = (Ok tt, with_self (set_queue [accepted] (self w)) w).
Proof.
  intros accepted w.
  apply (other_status_codes_are_only_queued w accepted 202 Scenario.bob Scenario.bob);
    try reflexivity.
  - right. reflexivity.
  - left. reflexivity.
Defined.

(** X3.  A request (a message without a status code) delivered to an
    [InviteDialog] before the call is [Terminated]: while [Calling] or
    [Proceeding] it is queued and the delivery then raises
    [AttributeError], the handlers reading the status code a request
    does not have; in [Completed] it is queued and an ACK is sent for
    it, as for a response. *)
Theorem request_before_the_call_is_terminated w msg to msg_to :
  contacts w !! to_details (self w) = Some to ->
  contacts w !! m_to_details msg = Some msg_to ->
  has_tag to = true \/ has_tag msg_to = false ->
  m_status_code msg = None ->
  let queued := with_self (set_queue (_queue (self w) ++ [msg]) (self w)) w in
  (_state (self w) = Calling \/ _state (self w) = Proceeding ->
   InviteDialog.receive_message msg w = (Raise AttributeError, queued))
  /\ (forall via,
        _state (self w) = Completed ->
        CIMultiDict.find "Via" (m_headers msg) = Some via ->
        InviteDialog.receive_message msg w
        = (Ok tt, with_sent (sent w ++ [ack_request msg via queued])
                    (bump (Some (m_cseq msg)) queued))).
Proof.
  intros Hto Hmto Htag Hc queued.
  rewrite (receive_message_queues w msg to msg_to Hto Hmto Htag). fold queued.
  unfold InviteDialog.dispatch. mstep.
  change (_state (self queued)) with (_state (self w)).
  split.
  - intros [-> | ->];
      unfold InviteDialog.handle_calling_state, InviteDialog.handle_proceeding_state,
        InviteDialog.status_code;
      rewrite Hc; reflexivity.
  - intros via -> Hvia. unfold InviteDialog.handle_completed_state.
    apply (ack_run msg via queued Hvia).
Qed.

Lemma request_before_the_call_is_terminated_witness :
  let info := Scenario.original "INFO" in
  let w := Scenario.world "INVITE" in
  InviteDialog.receive_message info w
  = (Raise AttributeError, with_self (set_queue [info] (self w)) w).
Proof.
  intros info w.
  refine (proj1 (request_before_the_call_is_terminated w info Scenario.bob Scenario.bob
                   _ _ _ _) _); try reflexivity.
  - right. reflexivity.
  - left. reflexivity.
Defined.

(* --------------------------------------------------------------------- *)
(** ** The calls an application makes *)
(* --------------------------------------------------------------------- *)

(** A request built with no sequence number given: what it is, and what
    building it leaves of the world. *)
Lemma _prepare_request_fresh method headers payload w :
  can_build headers w ->
  exists req w1,
    _prepare_request method None headers payload None None w = (Ok req, w1)
    /\ m_method req = upper method
    /\ m_cseq req = cseq (self w) + 1
    /\ m_status_code req = None
    /\ m_payload req = default EmptyString payload
    /\ (forall k, CIMultiDict.same_key k "Via" = false ->
          CIMultiDict.find k (m_headers req)
          = CIMultiDict.find k (request_headers (user_agent w) (call_id (self w)) headers))
    /\ (CIMultiDict.contains "Via" (default [] headers) = true ->
        CIMultiDict.find "Via" (m_headers req)
        = CIMultiDict.find "Via" (default [] headers))
    /\ self w1 = set_cseq (cseq (self w) + 1) (self w)
    /\ sent w1 = sent w.
Proof.
  intros Hbuild. unfold _prepare_request, Request. mstep. cbn [truthy negb].
  cbn [self with_self contact_details set_cseq user_agent call_id from_details to_details cseq].
  destruct (CIMultiDict.contains "Via"
              (request_headers (user_agent w) (call_id (self w)) headers)) eqn:Hvia.
  - eexists _, _. split; [reflexivity |]. cbn [m_method m_headers m_cseq m_status_code m_payload].
    repeat split. intros _. apply find_request_headers; reflexivity.
  - assert (Hno : CIMultiDict.contains "Via" (default [] headers) = false).
    { rewrite CIMultiDictFacts.contains_find, find_request_headers in Hvia by reflexivity.
      rewrite <- CIMultiDictFacts.contains_find in Hvia. exact Hvia. }
    destruct Hbuild as [Hv | (l & c & Hl & Hc)]; [congruence |].
    rewrite Hl. cbn [Request_contact_details]. mstep.
      unfold deref, gen_branch. cbn [contacts with_self]. rewrite Hc. mstep.
    eexists _, _. split; [reflexivity |].
    cbn [m_method m_headers m_cseq m_status_code m_payload].
    repeat split.
    + intros k Hk. rewrite CIMultiDictFacts.find_setitem, Hk. reflexivity.
    + congruence.
Qed.

(** A request other than an ACK: it is built, entered as a transaction
    under its method and number, and sent; then the answer is awaited. *)
Lemma request_runs method headers payload await w :
  can_build headers w ->
  upper method <> "ACK" ->
  exists req w1,
    request method None headers payload await w
    = match await w1 with
      | (Ok response, w2) => (Ok (Some response), w2)
      | (Raise e, w2) => (Raise e, w2)
      end
    /\ m_method req = upper method
    /\ m_cseq req = cseq (self w) + 1
    /\ m_status_code req = None
    /\ m_payload req = default EmptyString payload
    /\ (forall k, CIMultiDict.same_key k "Via" = false ->
          CIMultiDict.find k (m_headers req)
          = CIMultiDict.find k (request_headers (user_agent w) (call_id (self w)) headers))
    /\ (CIMultiDict.contains "Via" (default [] headers) = true ->
        CIMultiDict.find "Via" (m_headers req)
        = CIMultiDict.find "Via" (default [] headers))
    /\ sent w1 = sent w ++ [req]
    /\ cseq (self w1) = cseq (self w) + 1
    /\ original_msg (self w1) = original_msg (self w)
    /\ transaction_at (upper method) (cseq (self w) + 1) w1
       = Some (mkTransaction req [] false).
Proof.
  intros Hbuild Hmethod.
  destruct (_prepare_request_fresh method headers payload w Hbuild)
    as (req & w0 & Hrun & Hm & Hc & Hs & Hp & Hh & Hv & Hself & Hsent).
  unfold request. mstep. rewrite Hrun.
  apply String.eqb_neq in Hmethod. rewrite Hm, Hmethod. cbn [negb].
  unfold start_unreliable_transaction, transaction_start, transactions_setitem,
    transactions_getitem, send_message, transaction_at.
  mstep. cbn [t_original_msg]. rewrite ?Hm, ?Hc.
  destruct (transactions (self w0) !! upper method) eqn:Ht; mstep;
    (eexists req, _; split; [reflexivity |];
     repeat (split; [assumption |]);
     cbn [sent with_sent with_self self cseq original_msg set_transactions transactions];
     rewrite Hsent, Hself; cbn [cseq set_cseq original_msg];
     repeat split; rewrite lookup_insert_eq; cbn; rewrite lookup_insert_eq; reflexivity).
Qed.

(** X4.  [Dialog.cancel], with a header map that carries a [Via] or a
    contact to make one from: one CANCEL goes to the peer, numbered one
    past the dialog's counter, which moves up to it; nothing else of the
    dialog changes, so no transaction is entered for the CANCEL. *)
Theorem cancel_sends_a_numbered_request headers payload w :
  can_build headers w ->
  exists req w1,
    DialogCalls.cancel None headers payload None None w = (Ok tt, w1)
    /\ sent w1 = sent w ++ [req]
    /\ m_method req = "CANCEL"
    /\ m_cseq req = cseq (self w) + 1
    /\ self w1 = set_cseq (cseq (self w) + 1) (self w).
Proof.
  intros Hbuild.
  destruct (_prepare_request_fresh "CANCEL" headers payload w Hbuild)
    as (req & w0 & Hrun & Hm & Hc & _ & _ & _ & _ & Hself & Hsent).
  exists req, (with_sent (sent w0 ++ [req]) w0).
  unfold DialogCalls.cancel, send_message. mstep. rewrite Hrun. mstep.
  cbn [sent with_sent self]. rewrite Hsent. auto.
Qed.

Lemma cancel_sends_a_numbered_request_witness :
  exists req w1,
    DialogCalls.cancel None None None None None (Scenario.world "REGISTER") = (Ok tt, w1)
    /\ sent w1 = [req]
    /\ m_method req = "CANCEL"
    /\ m_cseq req = 2.
Proof.
  destruct (cancel_sends_a_numbered_request None None (Scenario.world "REGISTER"))
    as (req & w1 & Hrun & Hsent & Hm & Hc & _).
  - right. exists 2%nat, Scenario.alice. split; reflexivity.
  - exists req, w1. auto.
Defined.

(** X5.  A request that cannot be built still takes a number.  With
    neither [Via] nor [Contact] among the headers and no contact on the
    dialog, [request] raises [TypeError]; nothing is sent and no
    transaction is entered, but the counter has moved: the next request
    skips a number. *)
Theorem failed_request_takes_a_number method headers payload await w :
  CIMultiDict.contains "Via" (default [] headers) = false ->
  CIMultiDict.contains "Contact" (default [] headers) = false ->
  contact_details (self w) = None ->
  request method None headers payload await w
  = (Raise TypeError, with_self (set_cseq (cseq (self w) + 1) (self w)) w).
Proof.
  intros Hvia Hheader Hcontact.
  assert (Hno : CIMultiDict.contains "Via"
                  (request_headers (user_agent w) (call_id (self w)) headers) = false).
  { rewrite CIMultiDictFacts.contains_find, find_request_headers by reflexivity.
    rewrite <- CIMultiDictFacts.contains_find. exact Hvia. }
  assert (Hnone : CIMultiDict.find "Contact"
                    (request_headers (user_agent w) (call_id (self w)) headers) = None).
  { rewrite find_request_headers by reflexivity.
    rewrite CIMultiDictFacts.contains_find in Hheader.
    destruct (CIMultiDict.find "Contact" (default [] headers)); [discriminate | reflexivity]. }
  unfold request, _prepare_request, Request, Request_contact_details.
  mstep. cbn [truthy negb].
  cbn [self with_self contact_details set_cseq user_agent call_id].
  rewrite Hno, Hcontact, Hnone. reflexivity.
Qed.

Lemma failed_request_takes_a_number_witness :
  let w := with_self (set_contact_details None (self (Scenario.world "REGISTER")))
             (Scenario.world "REGISTER") in
  request "REGISTER" None None None Scenario_timeout w
  = (Raise TypeError, with_self (set_cseq 2 (self w)) w).
Proof.
  intros w.
  apply (failed_request_takes_a_number "REGISTER" None None Scenario_timeout w);
    reflexivity.
Defined.

(** What [notify] adds to the caller's headers. *)
Lemma find_notify_headers k headers :
  CIMultiDict.find k (DialogCalls.notify_headers headers)
  = match CIMultiDict.find k (default [] headers) with
    | Some v => Some v
    | None =>
        if CIMultiDict.same_key k "Event" then Some (HStr "dialog")
        else if CIMultiDict.same_key k "Content-Type"
             then Some (HStr "application/dialog-info+xml")
        else if CIMultiDict.same_key k "Subscription-State" then Some (HStr "active")
        else None
    end.
Proof.
  unfold DialogCalls.notify_headers.
  set (h0 := default [] headers).
  set (h1 := if CIMultiDict.contains "Event" h0 then h0 else _).
  set (h2 := if CIMultiDict.contains "Content-Type" h1 then h1 else _).
  assert (H1 : CIMultiDict.find k h1
               = match CIMultiDict.find k h0 with
                 | Some v => Some v
                 | None => if CIMultiDict.same_key k "Event" then Some (HStr "dialog")
                           else None
                 end).
  { subst h1. rewrite CIMultiDictFacts.contains_find.
    destruct (CIMultiDict.find "Event" h0) as [v |] eqn:E; simpl.
    - destruct (CIMultiDict.find k h0) eqn:F; [reflexivity |].
      destruct (CIMultiDict.same_key k "Event") eqn:S; [| reflexivity].
      unfold CIMultiDict.same_key in S. apply String.eqb_eq in S.
      assert (Hk : CIMultiDict.find k h0 = CIMultiDict.find "Event" h0).
      { clear -S. induction h0 as [| [k' v'] h IH]; simpl; [reflexivity |].
        unfold CIMultiDict.same_key. rewrite S, IH. reflexivity. }
      congruence.
    - rewrite CIMultiDictFacts.find_setitem.
      destruct (CIMultiDict.same_key k "Event") eqn:S.
      + unfold CIMultiDict.same_key in S. apply String.eqb_eq in S.
        assert (Hk : CIMultiDict.find k h0 = CIMultiDict.find "Event" h0).
        { clear -S. induction h0 as [| [k' v'] h IH]; simpl; [reflexivity |].
          unfold CIMultiDict.same_key. rewrite S, IH. reflexivity. }
        rewrite Hk, E. reflexivity.
      + destruct (CIMultiDict.find k h0); reflexivity. }
  assert (Hsame : forall a b, CIMultiDict.same_key k a = true ->
                    CIMultiDict.same_key k b = CIMultiDict.same_key a b).
  { intros a b Ha. unfold CIMultiDict.same_key in *. apply String.eqb_eq in Ha.
    rewrite Ha. reflexivity. }
  assert (Hfind : forall a h, CIMultiDict.same_key k a = true ->
                    CIMultiDict.find k h = CIMultiDict.find a h).
  { intros a h Ha. unfold CIMultiDict.same_key in Ha. apply String.eqb_eq in Ha.
    induction h as [| [k' v'] h IH]; simpl; [reflexivity |].
    unfold CIMultiDict.same_key. rewrite Ha, IH. reflexivity. }
  assert (H2 : CIMultiDict.find k h2
               = match CIMultiDict.find k h1 with
                 | Some v => Some v
                 | None => if CIMultiDict.same_key k "Content-Type"
                           then Some (HStr "application/dialog-info+xml")
                           else None
                 end).
  { subst h2. rewrite CIMultiDictFacts.contains_find.
    destruct (CIMultiDict.find "Content-Type" h1) as [v |] eqn:E; simpl.
    - destruct (CIMultiDict.find k h1) eqn:F; [reflexivity |].
      destruct (CIMultiDict.same_key k "Content-Type") eqn:S; [| reflexivity].
      rewrite (Hfind _ _ S) in F. congruence.
    - rewrite CIMultiDictFacts.find_setitem.
      destruct (CIMultiDict.same_key k "Content-Type") eqn:S.
      + rewrite (Hfind _ _ S), E. reflexivity.
      + destruct (CIMultiDict.find k h1); reflexivity. }
  assert (H3 : CIMultiDict.find k
                 (if CIMultiDict.contains "Subscription-State" h2 then h2
                  else CIMultiDict.setitem "Subscription-State" (HStr "active") h2)
               = match CIMultiDict.find k h2 with
                 | Some v => Some v
                 | None => if CIMultiDict.same_key k "Subscription-State"
                           then Some (HStr "active")
                           else None
                 end).
  { rewrite CIMultiDictFacts.contains_find.
    destruct (CIMultiDict.find "Subscription-State" h2) as [v |] eqn:E; simpl.
    - destruct (CIMultiDict.find k h2) eqn:F; [reflexivity |].
      destruct (CIMultiDict.same_key k "Subscription-State") eqn:S; [| reflexivity].
      rewrite (Hfind _ _ S) in F. congruence.
    - rewrite CIMultiDictFacts.find_setitem.
      destruct (CIMultiDict.same_key k "Subscription-State") eqn:S.
      + rewrite (Hfind _ _ S), E. reflexivity.
      + destruct (CIMultiDict.find k h2); reflexivity. }
  rewrite H3, H2, H1.
  destruct (CIMultiDict.find k h0); [reflexivity |].
  destruct (CIMultiDict.same_key k "Event") eqn:S1; [reflexivity |].
  destruct (CIMultiDict.same_key k "Content-Type") eqn:S2; reflexivity.
Qed.

Lemma can_build_notify_headers headers w :
  can_build headers w -> can_build (Some (DialogCalls.notify_headers headers)) w.
Proof.
  intros [Hvia | Hc]; [left | right; exact Hc].
  change (default [] (Some (DialogCalls.notify_headers headers)))
    with (DialogCalls.notify_headers headers).
  rewrite CIMultiDictFacts.contains_find in Hvia.
  rewrite CIMultiDictFacts.contains_find, find_notify_headers.
  destruct (CIMultiDict.find "Via" (default [] headers)); [reflexivity | discriminate].
Qed.

(** X6.  [Dialog.notify] sends a NOTIFY numbered one past the counter
    and enters its transaction before it waits for the answer.  The
    request carries [Event: dialog], [Content-Type:
    application/dialog-info+xml] and [Subscription-State: active],
    each unless the caller's headers have the name already, in which
    case the caller's value goes out; the caller's other headers go out
    as given. *)
Theorem notify_fills_in_its_headers headers payload await w :
  can_build headers w ->
  exists req w1,
    DialogCalls.notify None headers payload await w
    = match await w1 with
      | (Ok response, w2) => (Ok (Some response), w2)
      | (Raise e, w2) => (Raise e, w2)
      end
    /\ m_method req = "NOTIFY"
    /\ m_cseq req = cseq (self w) + 1
    /\ sent w1 = sent w ++ [req]
    /\ transaction_at "NOTIFY" (cseq (self w) + 1) w1 = Some (mkTransaction req [] false)
    /\ (forall k,
          CIMultiDict.same_key k "Via" = false ->
          CIMultiDict.same_key k "User-Agent" = false ->
          CIMultiDict.same_key k "Call-ID" = false ->
          CIMultiDict.find k (m_headers req)
          = match CIMultiDict.find k (default [] headers) with
            | Some v => Some v
            | None =>
                if CIMultiDict.same_key k "Event" then Some (HStr "dialog")
                else if CIMultiDict.same_key k "Content-Type"
                     then Some (HStr "application/dialog-info+xml")
                else if CIMultiDict.same_key k "Subscription-State"
                     then Some (HStr "active")
                else None
            end).
Proof.
  intros Hbuild.
  destruct (request_runs "NOTIFY" (Some (DialogCalls.notify_headers headers)) payload
              await w (can_build_notify_headers _ _ Hbuild))
    as (req & w1 & Hrun & Hm & Hc & _ & _ & Hh & _ & Hsent & _ & _ & Ht);
    [discriminate |].
  exists req, w1. unfold DialogCalls.notify.
  repeat (split; [assumption |]).
  intros k Hvia Hua Hcid.
  rewrite (Hh k Hvia), find_request_headers by assumption.
  apply find_notify_headers.
Qed.

Lemma notify_fills_in_its_headers_witness :
  exists req w1,
    DialogCalls.notify None (Some [("Event", HStr "presence")]) None Scenario_timeout
      (Scenario.world "SUBSCRIBE")
    = (Raise (Raised "TimeoutError"), w1)
    /\ m_method req = "NOTIFY"
    /\ sent w1 = [req]
    /\ CIMultiDict.find "Event" (m_headers req) = Some (HStr "presence")
    /\ CIMultiDict.find "Subscription-State" (m_headers req) = Some (HStr "active").
Proof.
  destruct (notify_fills_in_its_headers (Some [("Event", HStr "presence")]) None
              Scenario_timeout (Scenario.world "SUBSCRIBE"))
    as (req & w1 & Hrun & Hm & _ & Hsent & _ & Hh).
  - right. exists 2%nat, Scenario.alice. split; reflexivity.
  - exists req, w1. repeat split; try assumption.
    + apply (Hh "Event"); reflexivity.
    + apply (Hh "Subscription-State"); reflexivity.
Defined.

(** X7.  [Dialog.refresh] repeats the dialog's original method with the
    next number.  The [Expires] of the caller's headers goes out as
    given, and then [expires] is not even read; with none there,
    [Expires] is [int(expires)]; and when [expires] cannot be read as
    an integer the call raises before anything is touched: no number
    is taken and nothing is sent. *)
Theorem refresh_sets_expires headers expires await w :
  can_build headers w ->
  upper (m_method (original_msg (self w))) <> "ACK" ->
  let sends (value : hval) :=
    exists req w1,
      DialogCalls.refresh headers expires await w
      = match await w1 with
        | (Ok response, w2) => (Ok (Some response), w2)
        | (Raise e, w2) => (Raise e, w2)
        end
      /\ m_method req = upper (m_method (original_msg (self w)))
      /\ m_cseq req = cseq (self w) + 1
      /\ sent w1 = sent w ++ [req]
      /\ CIMultiDict.find "Expires" (m_headers req) = Some value in
  (forall v, CIMultiDict.find "Expires" (default [] headers) = Some v -> sends v)
  /\ (forall n, CIMultiDict.find "Expires" (default [] headers) = None ->
        int_of_hval expires = Ok n -> sends (HInt n))
  /\ (forall e, CIMultiDict.find "Expires" (default [] headers) = None ->
        int_of_hval expires = Raise e ->
        DialogCalls.refresh headers expires await w = (Raise e, w)).
Proof.
  intros Hbuild Hmethod sends.
  assert (Hrun : forall h value,
            can_build (Some h) w ->
            CIMultiDict.find "Expires" h = Some value ->
            exists req w1,
              request (m_method (original_msg (self w))) None (Some h) None await w
              = match await w1 with
                | (Ok response, w2) => (Ok (Some response), w2)
                | (Raise e, w2) => (Raise e, w2)
                end
              /\ m_method req = upper (m_method (original_msg (self w)))
              /\ m_cseq req = cseq (self w) + 1
              /\ sent w1 = sent w ++ [req]
              /\ CIMultiDict.find "Expires" (m_headers req) = Some value).
  { intros h value Hb Hfind.
    destruct (request_runs _ (Some h) None await w Hb Hmethod)
      as (req & w1 & Hr & Hm & Hc & _ & _ & Hh & _ & Hsent & _).
    exists req, w1. repeat (split; [assumption |]).
    rewrite (Hh "Expires") by reflexivity.
    rewrite find_request_headers by reflexivity. exact Hfind. }
  unfold sends, DialogCalls.refresh. rewrite CIMultiDictFacts.contains_find.
  split; [| split].
  - intros v Hv. rewrite Hv. mstep. apply Hrun; [| exact Hv].
    destruct headers; exact Hbuild.
  - intros n Hnone Hn. rewrite Hnone, Hn. mstep. apply Hrun.
    + destruct Hbuild as [Hvia | Hc]; [left | right; exact Hc].
      change (CIMultiDict.contains "Via"
                (CIMultiDict.setitem "Expires" (HInt n) (default [] headers)) = true).
      rewrite CIMultiDictFacts.contains_setitem, Hvia. apply orb_true_r.
    + rewrite CIMultiDictFacts.find_setitem. reflexivity.
  - intros e Hnone He. rewrite Hnone, He. reflexivity.
Qed.

Lemma refresh_sets_expires_witness :
  (exists req w1,
     DialogCalls.refresh None (HStr "1800") Scenario_timeout (Scenario.world "REGISTER")
     = (Raise (Raised "TimeoutError"), w1)
     /\ m_method req = "REGISTER"
     /\ m_cseq req = 2
     /\ sent w1 = [req]
     /\ CIMultiDict.find "Expires" (m_headers req) = Some (HInt 1800))
  /\ DialogCalls.refresh None (HStr "soon") Scenario_timeout (Scenario.world "REGISTER")
     = (Raise invalid_literal, Scenario.world "REGISTER").
Proof.
  assert (Hbuild : can_build None (Scenario.world "REGISTER"))
    by (right; exists 2%nat, Scenario.alice; split; reflexivity).
  split.
  - refine (proj1 (proj2 (refresh_sets_expires None (HStr "1800") Scenario_timeout
                            (Scenario.world "REGISTER") Hbuild _)) 1800 _ _);
      [discriminate | reflexivity | reflexivity].
  - refine (proj2 (proj2 (refresh_sets_expires None (HStr "soon") Scenario_timeout
                            (Scenario.world "REGISTER") Hbuild _)) _ _ _);
      [discriminate | reflexivity | reflexivity].
Defined.

(** X8.  [DialogBase.start] does not send the original message.  It
    writes [expires], when given, into the headers of the original
    message, where it stays, and sends a new request with the original's
    method, payload and headers, its [Via] included, numbered one past
    the counter and entered as a transaction. *)
Theorem start_sends_a_new_request expires await w :
  CIMultiDict.contains "Via" (m_headers (original_msg (self w))) = true ->
  upper (m_method (original_msg (self w))) <> "ACK" ->
  let original :=
    match expires with
    | Some e => msg_set_header "Expires" e (original_msg (self w))
    | None => original_msg (self w)
    end in
  exists req w1,
    start expires await w
    = match await w1 with
      | (Ok response, w2) => (Ok (Some response), w2)
      | (Raise e, w2) => (Raise e, w2)
      end
    /\ original_msg (self w1) = original
    /\ sent w1 = sent w ++ [req]
    /\ m_method req = upper (m_method original)
    /\ m_cseq req = cseq (self w) + 1
    /\ m_payload req = m_payload original
    /\ CIMultiDict.find "Via" (m_headers req)
       = CIMultiDict.find "Via" (m_headers (original_msg (self w)))
    /\ (forall k,
          CIMultiDict.same_key k "User-Agent" = false ->
          CIMultiDict.same_key k "Call-ID" = false ->
          CIMultiDict.find k (m_headers req) = CIMultiDict.find k (m_headers original))
    /\ transaction_at (m_method req) (m_cseq req) w1 = Some (mkTransaction req [] false).
Proof.
  intros Hvia Hmethod original.
  set (w0 := with_self (set_original_msg original (self w)) w).
  assert (Hstart : start expires await w
                   = request (m_method original) None (Some (m_headers original))
                       (Some (m_payload original)) await w0).
  { unfold start. subst w0 original. destruct expires; mstep; [reflexivity |].
    destruct w as [? ? ? ? ? ? ? ? ? ? []]; reflexivity. }
  assert (Hvia0 : CIMultiDict.contains "Via" (m_headers original) = true).
  { subst original. destruct expires; [| exact Hvia].
    cbn [m_headers msg_set_header].
    rewrite CIMultiDictFacts.contains_setitem, Hvia. apply orb_true_r. }
  assert (Hfind0 : CIMultiDict.find "Via" (m_headers original)
                   = CIMultiDict.find "Via" (m_headers (original_msg (self w)))).
  { subst original. destruct expires; [| reflexivity].
    cbn [m_headers msg_set_header].
    rewrite CIMultiDictFacts.find_setitem. reflexivity. }
  assert (Hm0 : m_method original = m_method (original_msg (self w)))
    by (subst original; destruct expires; reflexivity).
  destruct (request_runs (m_method original) (Some (m_headers original))
              (Some (m_payload original)) await w0)
    as (req & w1 & Hrun & Hm & Hc & _ & Hp & Hh & Hv & Hsent & _ & Ho & Ht).
  { left. exact Hvia0. }
  { rewrite Hm0. exact Hmethod. }
  exists req, w1. rewrite Hstart.
  split; [exact Hrun |]. split; [exact Ho |]. split; [exact Hsent |].
  split; [exact Hm |]. split; [exact Hc |]. split; [exact Hp |].
  split; [rewrite (Hv Hvia0); exact Hfind0 |]. split.
  - intros k Hua Hcid.
    destruct (CIMultiDict.same_key k "Via") eqn:Hk.
    + assert (Hfind : forall h, CIMultiDict.find k h = CIMultiDict.find "Via" h).
      { intros h. unfold CIMultiDict.same_key in Hk. apply String.eqb_eq in Hk.
        induction h as [| [k' v'] h IH]; simpl; [reflexivity |].
        unfold CIMultiDict.same_key. rewrite Hk, IH. reflexivity. }
      rewrite !Hfind. apply (Hv Hvia0).
    + rewrite (Hh k Hk). apply find_request_headers; assumption.
  - rewrite Hm, Hc. exact Ht.
Qed.

Lemma start_sends_a_new_request_witness :
  exists req w1,
    start (Some (HInt 3600)) Scenario_timeout (Scenario.world "REGISTER")
    = (Raise (Raised "TimeoutError"), w1)
    /\ CIMultiDict.find "Expires" (m_headers (original_msg (self w1))) = Some (HInt 3600)
    /\ sent w1 = [req]
    /\ m_cseq req = 2
    /\ CIMultiDict.find "Expires" (m_headers req) = Some (HInt 3600).
Proof.
  destruct (start_sends_a_new_request (Some (HInt 3600)) Scenario_timeout
              (Scenario.world "REGISTER"))
    as (req & w1 & Hrun & Ho & Hsent & _ & Hc & _ & _ & Hh & _);
    [reflexivity | discriminate |].
  exists req, w1. split; [exact Hrun |]. split; [rewrite Ho; reflexivity |].
  split; [exact Hsent |]. split; [exact Hc |].
  rewrite (Hh "Expires") by reflexivity. reflexivity.
Defined.

(** X9.  [Dialog.receive_message] keeps the dialog's counter at the
    highest sequence number seen: after a delivery, however it ends, the
    counter is the larger of what it was and the number of the message. *)
Theorem receive_message_tracks_cseq msg w :
  cseq (self (snd (Dialog.receive_message msg w)))
  = Z.max (cseq (self w)) (m_cseq msg).
Proof.
  assert (Hk : keeps (fun w => cseq (self w))
                 (if (is_Response msg || String.eqb (m_method msg) "ACK")%bool
                  then _receive_response msg else Dialog._receive_request msg)).
  { destruct (is_Response msg || _)%bool.
    - apply keeps__receive_response; reflexivity.
    - apply keeps_cseq_Dialog__receive_request. }
  assert (Hc : keeps (fun w => cseq (self w)) cancel_closing)
    by (apply keeps_cancel_closing; reflexivity).
  unfold Dialog.receive_message. unfold bind at 1.
  specialize (Hc w).
  destruct (cancel_closing w) as [[[] | e] w0] eqn:E.
  - cbn [snd] in Hc. mstep.
    destruct (cseq (self w0) <? m_cseq msg) eqn:Hlt; mstep.
    + rewrite Hk. cbn [self with_self cseq set_cseq].
      apply Z.ltb_lt in Hlt. lia.
    + rewrite Hk. apply Z.ltb_ge in Hlt. lia.
  - exfalso. revert E. unfold cancel_closing, cancel_task. mstep.
    destruct (_closing (self w)); discriminate.
Qed.

(** X10.  A response that matches no transaction is dropped.  For a
    dialog that knows its remote tag, [_receive_response] on a message
    with no transaction under its method and number returns normally
    and changes nothing, except that a method not yet among the
    transactions is entered with an empty table. *)
Theorem unmatched_response_is_dropped msg to w :
  contacts w !! to_details (self w) = Some to ->
  has_tag to = true ->
  transaction_at (m_method msg) (m_cseq msg) w = None ->
  _receive_response msg w
  = (Ok tt,
     match transactions (self w) !! m_method msg with
     | Some _ => w
     | None =>
         with_self
           (set_transactions (<[m_method msg := ∅]> (transactions (self w))) (self w)) w
     end).
Proof.
  intros Hto Htag Hnone.
  unfold _receive_response, deref. mstep. rewrite Hto. mstep. rewrite Htag.
  cbn [negb]. mstep.
  unfold try_except_KeyError, transactions_getitem, transaction_at in *. mstep.
  destruct (transactions (self w) !! m_method msg) as [table |] eqn:Ht; mstep.
  - cbn in Hnone. rewrite Hnone. reflexivity.
  - rewrite lookup_empty. reflexivity.
Qed.

Lemma unmatched_response_is_dropped_witness :
  let w := with_contacts (<[1%nat := Scenario.bob_tagged]> Scenario.the_contacts)
             (Scenario.world "REGISTER") in
  _receive_response (Scenario.response 200 "REGISTER" 3%nat []) w
  = (Ok tt, with_self (set_transactions {[ "REGISTER" := ∅ ]} (self w)) w).
Proof.
  intros w.
  apply (unmatched_response_is_dropped (Scenario.response 200 "REGISTER" 3%nat [])
           Scenario.bob_tagged w); reflexivity.
Defined.

(*DFACTS-END*)

End DialogFacts.

(* --------------------------------------------------------------------- *)
(** ** [message.py]: the wire form *)
(* --------------------------------------------------------------------- *)

Module MessageFacts.
Import MessageModel.

Section Unique.

(** Writing under a key leaves one item under it, the one written. *)
Lemma remove_not_in k h k' v :
  In (k', v) (CIMultiDict.remove k h) -> CIMultiDict.same_key k k' = false /\ In (k', v) h.
Proof.
  unfold CIMultiDict.remove. rewrite filter_In. simpl.
  intros [Hin Hk]. apply negb_true_iff in Hk. auto.
Qed.

Lemma setitem_In k v h k' v' :
  In (k', v') (CIMultiDict.setitem k v h) ->
  (k' = k /\ v' = v) \/ (CIMultiDict.same_key k k' = false /\ In (k', v') h).
Proof.
  induction h as [| [k0 v0] h IH]; simpl.
  - intros [[= <- <-] | []]. auto.
  - destruct (CIMultiDict.same_key k k0) eqn:E; simpl.
    + intros [[= <- <-] | Hin]; [auto |].
      apply remove_not_in in Hin. destruct Hin as [Hk Hin]. auto.
    + intros [[= <- <-] | Hin]; [auto |].
      destruct (IH Hin) as [? | [Hk Hin']]; auto.
Qed.

Lemma In_setitem k v h : In (k, v) (CIMultiDict.setitem k v h).
Proof.
  induction h as [| [k0 v0] h IH]; simpl; [auto |].
  destruct (CIMultiDict.same_key k k0); simpl; auto.
Qed.

Lemma In_setitem_other k v h k' v' :
  CIMultiDict.same_key k k' = false -> In (k', v') h ->
  In (k', v') (CIMultiDict.setitem k v h).
Proof.
  intros Hk. induction h as [| [k0 v0] h IH]; simpl; [tauto |].
  destruct (CIMultiDict.same_key k k0) eqn:E; simpl.
  - intros [[= -> ->] | Hin]; [congruence |].
    right. unfold CIMultiDict.remove. apply filter_In. simpl. rewrite Hk. auto.
  - intros [Heq | Hin]; auto.
Qed.

End Unique.

(** *** The lines of the wire form *)

Lemma format_loop_In kd items : forall msg line,
  In line (format_loop kd items msg)
  <-> In line msg
      \/ exists k v, In (k, v) items /\ In line (item_lines (wire_name kd k) v).
Proof.
  induction items as [| [k v] items IH]; intros msg line; simpl.
  - split; [auto | intros [H | (k & v & [] & _)]; exact H].
  - destruct (String.eqb k "Via"); rewrite IH, in_app_iff; split.
    + intros [[H | H] | (k' & v' & Hin & Hl)]; eauto 8.
    + intros [H | (k' & v' & [[= <- <-] | Hin] & Hl)]; eauto 8.
    + intros [[H | H] | (k' & v' & Hin & Hl)]; eauto 8.
    + intros [H | (k' & v' & [[= <- <-] | Hin] & Hl)]; eauto 8.
Qed.

(** *** The order of the lines *)

(** The order of the keys is a total order. *)
Lemma leb_spec (a b : string) :
  String.leb a b = true <-> a = b \/ OrderedTypeEx.String_as_OT.lt a b.
Proof.
  unfold String.leb.
  pose proof (OrderedTypeEx.String_as_OT.cmp_eq a b) as Heq.
  pose proof (OrderedTypeEx.String_as_OT.cmp_lt a b) as Hlt.
  unfold OrderedTypeEx.String_as_OT.cmp in *.
  destruct (String.compare a b); split; intros H;
    try tauto; try discriminate;
    destruct H as [H | H]; [apply Heq in H | apply Hlt in H]; discriminate.
Qed.

Lemma ltb_spec (a b : string) :
  String.ltb a b = true <-> String.leb a b = true /\ a <> b.
Proof.
  unfold String.ltb, String.leb.
  pose proof (OrderedTypeEx.String_as_OT.cmp_eq a b) as Heq.
  unfold OrderedTypeEx.String_as_OT.cmp in *.
  destruct (String.compare a b); split; intros H; try discriminate.
  - destruct H as [_ H]. exfalso. apply H, Heq. reflexivity.
  - split; [reflexivity |]. intros E. apply Heq in E. discriminate.
  - reflexivity.
  - destruct H. discriminate.
Qed.

#[export] Instance key_le_transitive : Transitive key_le.
Proof.
  intros a b c. unfold key_le. rewrite !leb_spec.
  intros [-> | H1] [<- | H2]; auto.
  right. exact (OrderedTypeEx.String_as_OT.lt_trans _ _ _ H1 H2).
Qed.

#[export] Instance key_le_total : Total key_le.
Proof. intros a b. apply String.leb_total. Qed.

(** Two items compared: the keys are in the order found. *)
Lemma item_lt_key_le a b lt :
  item_lt a b = Ok lt -> if lt then key_le a b else key_le b a.
Proof.
  unfold item_lt, key_le. destruct (String.eqb (fst a) (fst b)) eqn:E.
  - apply String.eqb_eq in E. rewrite E. intros _.
    destruct lt; apply leb_spec; left; reflexivity.
  - apply String.eqb_neq in E. intros [= <-].
    destruct (String.ltb (fst a) (fst b)) eqn:L.
    + apply ltb_spec in L. tauto.
    + destruct (String.leb_total (fst a) (fst b)) as [H | H]; [| exact H].
      assert (String.ltb (fst a) (fst b) = true) by (apply ltb_spec; auto).
      congruence.
Qed.

(** Items under keys that differ are always in order. *)
Lemma item_lt_distinct a b : fst a <> fst b -> is_ok (item_lt a b) = true.
Proof.
  intros Hne. unfold item_lt. apply String.eqb_neq in Hne. rewrite Hne. reflexivity.
Qed.

Lemma insert_item_Permutation x l : forall l',
  insert_item x l = Ok l' -> Permutation l' (x :: l).
Proof.
  induction l as [| y l IH]; intros l'; simpl.
  - intros [= <-]. reflexivity.
  - destruct (item_lt y x) as [[] |]; cbn [rbind]; [| intros [= <-]; reflexivity | discriminate].
    destruct (insert_item x l) as [l'' |]; cbn [rbind]; [| discriminate].
    intros [= <-]. rewrite (IH l'' eq_refl). apply perm_swap.
Qed.

Lemma sorted_Permutation l : forall s, sorted l = Ok s -> Permutation s l.
Proof.
  induction l as [| x l IH]; intros s; simpl.
  - intros [= <-]. reflexivity.
  - destruct (sorted l) as [s' |]; cbn [rbind]; [| discriminate].
    intros Hins. rewrite (insert_item_Permutation _ _ _ Hins), (IH s' eq_refl).
    reflexivity.
Qed.

Lemma insert_item_sorted x l : forall l',
  StronglySorted key_le l -> insert_item x l = Ok l' -> StronglySorted key_le l'.
Proof.
  induction l as [| y l IH]; intros l' Hs; simpl.
  - intros [= <-]. repeat constructor.
  - apply StronglySorted_inv in Hs. destruct Hs as [Hs Hy].
    destruct (item_lt y x) as [[] |] eqn:Hlt; cbn [rbind]; [| | discriminate].
    + destruct (insert_item x l) as [l'' |] eqn:Hins; cbn [rbind]; [| discriminate].
      intros [= <-]. constructor; [exact (IH l'' Hs eq_refl) |].
      apply (item_lt_key_le _ _ _) in Hlt.
      rewrite List.Forall_forall in *. intros z Hz.
      apply (Permutation_in _ (insert_item_Permutation _ _ _ Hins)) in Hz.
      destruct Hz as [<- | Hz]; [exact Hlt | exact (Hy z Hz)].
    + intros [= <-]. apply (item_lt_key_le _ _ _) in Hlt.
      constructor; [constructor; assumption |].
      constructor; [exact Hlt |].
      rewrite List.Forall_forall in *. intros z Hz.
      etransitivity; [exact Hlt | exact (Hy z Hz)].
Qed.

Lemma sorted_sorted l : forall s, sorted l = Ok s -> StronglySorted key_le s.
Proof.
  induction l as [| x l IH]; intros s; simpl.
  - intros [= <-]. constructor.
  - destruct (sorted l) as [s' |]; cbn [rbind]; [| discriminate].
    apply insert_item_sorted, (IH s' eq_refl).
Qed.

Lemma insert_item_distinct x l :
  Forall (fun y => fst y <> fst x) l -> is_ok (insert_item x l) = true.
Proof.
  induction 1 as [| y l Hy _ IH]; simpl; [reflexivity |].
  pose proof (item_lt_distinct y x Hy) as Hok.
  destruct (item_lt y x) as [[] |]; [| reflexivity | discriminate].
  cbn [rbind]. destruct (insert_item x l); [reflexivity | discriminate].
Qed.

(** Items under keys that all differ can be sorted. *)
Lemma sorted_distinct l : NoDup (map fst l) -> is_ok (sorted l) = true.
Proof.
  induction l as [| x l IH]; simpl; [reflexivity |].
  intros Hnd. apply NoDup_cons in Hnd. destruct Hnd as [Hx Hnd].
  specialize (IH Hnd). destruct (sorted l) as [s |] eqn:Hs; [| discriminate].
  cbn [rbind]. apply insert_item_distinct.
  rewrite List.Forall_forall. intros y Hy E. apply Hx. rewrite <- E.
  apply list_elem_of_In, in_map.
  exact (Permutation_in _ (sorted_Permutation _ _ Hs) Hy).
Qed.

Lemma sorted_items_sorted h s : sorted_items h = Ok s -> StronglySorted key_le s.
Proof. apply sorted_sorted. Qed.

Lemma sorted_items_Permutation h s : sorted_items h = Ok s -> Permutation s h.
Proof. apply sorted_Permutation. Qed.

Lemma sorted_items_distinct h :
  NoDup (map fst (CIMultiDict.items h)) -> exists s, sorted_items h = Ok s.
Proof.
  intros Hnd. pose proof (sorted_distinct h Hnd) as Hok.
  unfold sorted_items, CIMultiDict.items.
  destruct (sorted h) as [s |]; [eauto | discriminate].
Qed.

Lemma sorted_items_In h s kv : sorted_items h = Ok s -> In kv s <-> In kv h.
Proof.
  intros Hs. pose proof (sorted_items_Permutation h s Hs) as Hp.
  split; apply Permutation_in; [| symmetry]; exact Hp.
Qed.

(** Every item of the header map is written, and nothing else is. *)
Lemma header_lines_In kd h line :
  is_ok (sorted_items h) = true ->
  In line (header_lines kd h)
  <-> exists k v, In (k, v) h /\ In line (item_lines (wire_name kd k) v).
Proof.
  unfold header_lines. destruct (sorted_items h) as [s |] eqn:Hs; [intros _ | discriminate].
  rewrite format_loop_In. split.
  - intros [[] | (k & v & Hin & Hl)]. exists k, v. rewrite <- (sorted_items_In h s) by exact Hs. auto.
  - intros (k & v & Hin & Hl). right. exists k, v. rewrite (sorted_items_In h s) by exact Hs. auto.
Qed.

(** What [_format_headers] returns is the lines and a last empty one,
    joined. *)
Lemma _format_headers_lines kd h text :
  _format_headers kd h = Ok text ->
  is_ok (sorted_items h) = true /\ text = join EOL (header_lines kd h ++ [EOL]).
Proof.
  unfold _format_headers, header_lines.
  destruct (sorted_items h); cbn [rbind]; [| discriminate].
  intros [= <-]. split; reflexivity.
Qed.

Section Lists.

Context {A : Type}.

Lemma filter_Permutation (f : A -> bool) (l l' : list A) :
  Permutation l l' -> Permutation (List.filter f l) (List.filter f l').
Proof.
  induction 1 as [| x l l' _ IH | x y l | l l' l'' _ IH1 _ IH2]; simpl.
  - constructor.
  - destruct (f x); [constructor |]; exact IH.
  - destruct (f x), (f y); try reflexivity. constructor.
  - etransitivity; eassumption.
Qed.

Lemma filter_StronglySorted (R : relation A) (f : A -> bool) (l : list A) :
  StronglySorted R l -> StronglySorted R (List.filter f l).
Proof.
  induction 1 as [| x l _ IH Hx]; simpl; [constructor |].
  destruct (f x); [| exact IH].
  constructor; [exact IH |].
  rewrite List.Forall_forall in *. intros y Hy. apply Hx.
  apply List.filter_In in Hy. tauto.
Qed.

End Lists.

(** The loop puts the lines of the [Via] items in front, the last one
    met first, and those of the others behind, as they are met. *)
Lemma format_loop_split kd items : forall msg,
  format_loop kd items msg
  = flat_map (lines_of kd) (rev (List.filter is_via items))
    ++ msg ++ flat_map (lines_of kd) (List.filter not_via items).
Proof.
  induction items as [| [k v] items IH]; intros msg.
  - simpl. rewrite app_nil_r. reflexivity.
  - assert (Hv : is_via (k, v) = String.eqb k "Via") by reflexivity.
    assert (Hn : not_via (k, v) = negb (String.eqb k "Via")) by reflexivity.
    cbn [format_loop List.filter]. rewrite Hv, Hn.
    destruct (String.eqb k "Via"); cbn [negb]; rewrite IH.
    + cbn [rev]. rewrite flat_map_app. cbn [flat_map].
      rewrite app_nil_r, <- !List.app_assoc. reflexivity.
    + cbn [flat_map]. rewrite <- !List.app_assoc. reflexivity.
Qed.

(** Items with keys that differ: at most one is a [Via]. *)
Lemma one_via (l : list (string * hval)) :
  NoDup (map fst l) -> (length (List.filter is_via l) <= 1)%nat.
Proof.
  induction l as [| [k v] l IH]; simpl; [lia |].
  intros Hnd. apply NoDup_cons in Hnd. destruct Hnd as [Hk Hnd].
  unfold is_via at 1. simpl. destruct (String.eqb k "Via") eqn:E; [| auto].
  apply String.eqb_eq in E. subst k.
  destruct (List.filter is_via l) as [| [k' v'] rest] eqn:F; simpl; [lia |].
  exfalso. apply Hk.
  assert (Hin : In (k', v') (List.filter is_via l)) by (rewrite F; left; reflexivity).
  apply List.filter_In in Hin. destruct Hin as [Hin Hv].
  unfold is_via in Hv. simpl in Hv. apply String.eqb_eq in Hv. subst k'.
  apply list_elem_of_In. apply (in_map fst _ _ Hin).
Qed.

Lemma sorted_via (h : CIMultiDict.t) s :
  NoDup (map fst h) ->
  sorted_items h = Ok s ->
  rev (List.filter is_via s) = List.filter is_via h.
Proof.
  intros Hnd Hs.
  pose proof (filter_Permutation is_via _ _ (sorted_items_Permutation h s Hs)) as Hp.
  pose proof (one_via h Hnd) as Hlen.
  pose proof (Permutation_length Hp) as Hl.
  destruct (List.filter is_via h) as [| i [| j rest]]; simpl in Hlen; [| | lia].
  - apply Permutation_nil_r in Hp. rewrite Hp. reflexivity.
  - apply Permutation_singleton_r in Hp. rewrite Hp. reflexivity.
Qed.

(** Sorted items with keys that differ ascend strictly. *)
Lemma sorted_strictly (l : list (string * hval)) :
  NoDup (map fst l) -> StronglySorted key_le l -> StronglySorted key_lt l.
Proof.
  intros Hnd Hs. induction Hs as [| x l _ IH Hx]; [constructor |].
  simpl in Hnd. apply NoDup_cons in Hnd. destruct Hnd as [Hk Hnd].
  constructor; [exact (IH Hnd) |].
  rewrite List.Forall_forall in *. intros y Hy.
  unfold key_lt. apply ltb_spec. split; [exact (Hx y Hy) |].
  intros E. apply Hk. rewrite E. apply list_elem_of_In. apply (in_map fst _ _ Hy).
Qed.

Lemma header_lines_order kd (h : CIMultiDict.t) :
  NoDup (map fst (CIMultiDict.items h)) ->
  exists others,
    header_lines kd h
    = flat_map (lines_of kd) (List.filter is_via h) ++ flat_map (lines_of kd) others
    /\ (forall v, In ("Via", v) h ->
          flat_map (lines_of kd) (List.filter is_via h)
          = item_lines (wire_name kd "Via") v)
    /\ Permutation others (List.filter not_via h)
    /\ StronglySorted key_lt others.
Proof.
  intros Hnd. destruct (sorted_items_distinct h Hnd) as [s Hsort].
  unfold CIMultiDict.items in Hnd.
  exists (List.filter not_via s).
  split; [| split; [| split]].
  - unfold header_lines. rewrite Hsort, format_loop_split, (sorted_via h s Hnd Hsort).
    reflexivity.
  - intros v Hin.
    assert (Hf : In ("Via", v) (List.filter is_via h))
      by (apply List.filter_In; split; [exact Hin | reflexivity]).
    pose proof (one_via h Hnd) as Hlen.
    destruct (List.filter is_via h) as [| i [| j rest]]; simpl in Hlen; [destruct Hf | | lia].
    destruct Hf as [-> | []]. simpl. unfold lines_of. simpl. apply app_nil_r.
  - apply filter_Permutation, (sorted_items_Permutation h s Hsort).
  - apply sorted_strictly.
    + assert (Hs : NoDup (map fst s)).
      { pose proof (NoDup_Permutation_proper _ _
                      (Permutation_map fst (sorted_items_Permutation h s Hsort))) as Hiff.
        apply Hiff, Hnd. }
      clear -Hs. induction s as [| x l IH]; simpl; [constructor |].
      simpl in Hs. apply NoDup_cons in Hs. destruct Hs as [Hx Hs].
      destruct (not_via x); [| auto]. simpl. apply NoDup_cons. split; [| auto].
      intros Hin. apply Hx. apply list_elem_of_In in Hin. apply list_elem_of_In.
      apply in_map_iff in Hin. destruct Hin as (y & Hy & Hin).
      apply List.filter_In in Hin. rewrite <- Hy. apply in_map. tauto.
    + apply filter_StronglySorted, (sorted_items_sorted h s Hsort).
Qed.

(** *** What writing leaves as it is *)

Lemma keys_remove k (h : CIMultiDict.t) k' :
  In k' (map fst (CIMultiDict.remove k h)) ->
  CIMultiDict.same_key k k' = false /\ In k' (map fst h).
Proof.
  intros Hin. apply in_map_iff in Hin. destruct Hin as ([k0 v] & <- & Hin).
  apply remove_not_in in Hin. destruct Hin as [Hk Hin].
  split; [exact Hk |]. apply (in_map fst _ _ Hin).
Qed.

Lemma keys_setitem k v (h : CIMultiDict.t) k' :
  In k' (map fst (CIMultiDict.setitem k v h)) ->
  k' = k \/ (CIMultiDict.same_key k k' = false /\ In k' (map fst h)).
Proof.
  intros Hin. apply in_map_iff in Hin. destruct Hin as ([k0 v0] & <- & Hin).
  apply setitem_In in Hin. destruct Hin as [[-> _] | [Hk Hin]]; [auto |].
  right. split; [exact Hk |]. apply (in_map fst _ _ Hin).
Qed.

(** Keys that differ still differ after a write. *)
Lemma NoDup_keys_remove k (h : CIMultiDict.t) :
  NoDup (map fst h) -> NoDup (map fst (CIMultiDict.remove k h)).
Proof.
  induction h as [| [k0 v0] h IH]; simpl; [auto |].
  intros Hnd. apply NoDup_cons in Hnd. destruct Hnd as [Hk Hnd].
  destruct (negb (CIMultiDict.same_key k k0)); simpl; [| auto].
  apply NoDup_cons. split; [| auto].
  intros Hin. apply Hk. apply list_elem_of_In. apply list_elem_of_In in Hin.
  apply keys_remove in Hin. tauto.
Qed.

Lemma NoDup_keys_setitem k v (h : CIMultiDict.t) :
  NoDup (map fst h) -> NoDup (map fst (CIMultiDict.setitem k v h)).
Proof.
  induction h as [| [k0 v0] h IH]; simpl.
  - intros _. apply NoDup_cons. split; [apply not_elem_of_nil | constructor].
  - intros Hnd. apply NoDup_cons in Hnd. destruct Hnd as [Hk Hnd].
    destruct (CIMultiDict.same_key k k0) eqn:E; simpl; apply NoDup_cons; split.
    + intros Hin. apply list_elem_of_In, keys_remove in Hin.
      rewrite CIMultiDictFacts.same_key_refl in Hin. destruct Hin. discriminate.
    + apply NoDup_keys_remove, Hnd.
    + intros Hin. apply list_elem_of_In, keys_setitem in Hin.
      destruct Hin as [-> | [_ Hin]].
      * rewrite CIMultiDictFacts.same_key_refl in E. discriminate.
      * apply Hk, list_elem_of_In, Hin.
    + auto.
Qed.

(** *** Lines of text *)

Lemma no_lf_cons c s : no_lf (String c s) = (not_newline c && no_lf s)%bool.
Proof. reflexivity. Qed.

(** A line without a line feed is split off at the line break that
    follows it. *)
Lemma split_eol_line line rest :
  no_lf line = true -> split_eol (line +:+ EOL +:+ rest) = line :: split_eol rest.
Proof.
  induction line as [| c line IH]; intros Hline.
  - reflexivity.
  - rewrite no_lf_cons in Hline. apply andb_true_iff in Hline.
    destruct Hline as [Hc Hline]. specialize (IH Hline).
    change (String c line +:+ EOL +:+ rest) with (String c (line +:+ EOL +:+ rest)).
    destruct line as [| c' line'].
    + change (split_eol (String c (String CR (String LF rest)))
              = String c EmptyString :: split_eol rest).
      cbn [split_eol]. replace (Ascii.eqb CR LF) with false by reflexivity.
      rewrite andb_false_r.
      change (split_eol (String CR (String LF rest))) with (EmptyString :: split_eol rest).
      reflexivity.
    + change (String c' line' +:+ EOL +:+ rest)
        with (String c' (line' +:+ EOL +:+ rest)) in *.
      cbn [split_eol]. cbn [split_eol] in IH.
      rewrite no_lf_cons in Hline. apply andb_true_iff in Hline.
      destruct Hline as [Hc' _]. unfold not_newline in Hc'.
      apply negb_true_iff in Hc'. rewrite Hc', andb_false_r.
      cbn [split_eol] in IH |- *. rewrite IH. reflexivity.
Qed.

Lemma split_eol_last line : no_lf line = true -> split_eol line = [line].
Proof.
  induction line as [| c line IH]; intros Hline; [reflexivity |].
  rewrite no_lf_cons in Hline. apply andb_true_iff in Hline.
  destruct Hline as [Hc Hline]. specialize (IH Hline).
  destruct line as [| c' line']; [reflexivity |].
  cbn [split_eol]. cbn [split_eol] in IH.
  rewrite no_lf_cons in Hline. apply andb_true_iff in Hline.
  destruct Hline as [Hc' _]. unfold not_newline in Hc'.
  apply negb_true_iff in Hc'. rewrite Hc', andb_false_r.
  cbn [split_eol] in IH |- *. rewrite IH. reflexivity.
Qed.

(** Lines without line feeds, joined by line breaks, split into the
    same lines. *)
Lemma split_eol_join lines :
  lines <> [] ->
  Forall (fun line => no_lf line = true) lines ->
  split_eol (join EOL lines) = lines.
Proof.
  induction lines as [| line lines IH]; intros Hne Hl; [congruence |].
  inversion Hl as [| ? ? Hline Hrest]; subst.
  destruct lines as [| line' lines'].
  - apply split_eol_last, Hline.
  - change (join EOL (line :: line' :: lines'))
      with (line +:+ EOL +:+ join EOL (line' :: lines')).
    rewrite split_eol_line by exact Hline.
    rewrite IH by (congruence || exact Hrest). reflexivity.
Qed.

(** A line [name: value] whose name has no colon splits into the two. *)
Lemma split_colon_line k v :
  all_chars (fun c => negb (Ascii.eqb c ":")) k = true ->
  split_colon (header_line k v) = Some (k, v).
Proof.
  unfold header_line. induction k as [| c k IH]; intros Hk.
  - reflexivity.
  - cbn [all_chars] in Hk. apply andb_true_iff in Hk. destruct Hk as [Hc Hk].
    apply negb_true_iff in Hc.
    change (String c k +:+ ": " +:+ v) with (String c (k +:+ ": " +:+ v)).
    cbn [split_colon]. rewrite Hc, (IH Hk). reflexivity.
Qed.

(** A line with no colon and blank in it does not split. *)
Lemma split_colon_empty : split_colon EmptyString = None.
Proof. reflexivity. Qed.

(** *** The loop over the header lines *)

(** One turn of the loop: a line that splits is stored, and no other
    line is. *)
Lemma add_line_stores h line k v :
  split_colon line = Some (k, v) ->
  add_line h line
  = Ok (CIMultiDict.setitem (long_name k)
          (merged (CIMultiDict.find (long_name k) h) v) h).
Proof.
  intros Hs. unfold add_line, long_name, merged. rewrite Hs.
  destruct (CIMultiDict.find _ h) as [[s | l | z] |]; reflexivity.
Qed.

Lemma add_line_raises h line :
  split_colon line = None -> add_line h line = Raise not_enough_values.
Proof. intros Hs. unfold add_line. rewrite Hs. reflexivity. Qed.

(** The loop fails on the first line without a separator, and on no
    other line. *)
Lemma add_lines_total lines : forall h,
  match add_lines h lines with
  | Ok _ => Forall (fun line => split_colon line <> None) lines
  | Raise e =>
      e = not_enough_values /\ Exists (fun line => split_colon line = None) lines
  end.
Proof.
  induction lines as [| line lines IH]; intros h; simpl; [constructor |].
  destruct (split_colon line) as [[k v] |] eqn:Hs.
  - rewrite (add_line_stores h line k v Hs). cbn [rbind].
    specialize (IH (CIMultiDict.setitem (long_name k)
                      (merged (CIMultiDict.find (long_name k) h) v) h)).
    destruct (add_lines _ lines) as [h' | e].
    + constructor; [congruence | exact IH].
    + destruct IH as [-> IH]. split; [reflexivity |]. apply Exists_cons_tl, IH.
  - rewrite (add_line_raises h line Hs). cbn [rbind].
    split; [reflexivity |]. apply Exists_cons_hd, Hs.
Qed.

Lemma same_key_find k k' h :
  CIMultiDict.same_key k k' = true -> CIMultiDict.find k h = CIMultiDict.find k' h.
Proof.
  unfold CIMultiDict.same_key. intros Hk. apply String.eqb_eq in Hk.
  induction h as [| [k0 v0] h IH]; simpl; [reflexivity |].
  unfold CIMultiDict.same_key. rewrite Hk, IH. reflexivity.
Qed.

(** What the loop leaves under a name: the values of the lines under
    that name, in their order, behind what was there. *)
Lemma add_lines_find k lines : forall h h',
  add_lines h lines = Ok h' ->
  CIMultiDict.find k h'
  = fold_left (fun old v => Some (merged old v)) (values_under k lines)
      (CIMultiDict.find k h).
Proof.
  induction lines as [| line lines IH]; intros h h'; simpl.
  - intros [= <-]. reflexivity.
  - destruct (split_colon line) as [[k' v] |] eqn:Hs.
    + rewrite (add_line_stores h line k' v Hs). cbn [rbind]. intros Hrest.
      rewrite (IH _ _ Hrest), CIMultiDictFacts.find_setitem.
      unfold values_under. cbn [flat_map].
      destruct (CIMultiDict.same_key k (long_name k')) eqn:Hk.
      * rewrite (same_key_find _ _ h Hk). reflexivity.
      * reflexivity.
    + rewrite (add_line_raises h line Hs). discriminate.
Qed.

(** *** Numbers as text *)

Lemma is_digit_char c :
  is_digit c = true ->
  c = digit_char (digit_value c) /\ 0 <= digit_value c <= 9.
Proof.
  destruct c as [[] [] [] [] [] [] [] []]; intros H; try discriminate H;
    (split; [reflexivity | vm_compute; split; discriminate]).
Qed.

Lemma digit_char_is_digit d :
  0 <= d <= 9 -> is_digit (digit_char d) = true /\ digit_value (digit_char d) = d.
Proof.
  intros Hd.
  assert (H : d = 0 \/ d = 1 \/ d = 2 \/ d = 3 \/ d = 4 \/ d = 5 \/ d = 6 \/ d = 7
              \/ d = 8 \/ d = 9) by lia.
  repeat destruct H as [-> | H]; try subst d; split; reflexivity.
Qed.

Lemma is_digit_not_space c : is_digit c = true -> is_space c = false.
Proof.
  destruct c as [[] [] [] [] [] [] [] []]; intros H; try discriminate H; reflexivity.
Qed.

(** Text without blanks is not changed by [strip]. *)
Lemma rstrip_id s : all_chars (fun c => negb (is_space c)) s = true -> rstrip s = s.
Proof.
  induction s as [| c s IH]; intros H; [reflexivity |].
  cbn [all_chars] in H. apply andb_true_iff in H. destruct H as [Hc Hs].
  cbn [rstrip]. rewrite (IH Hs). apply negb_true_iff in Hc. rewrite Hc.
  destruct s; reflexivity.
Qed.

Lemma strip_id s : all_chars (fun c => negb (is_space c)) s = true -> strip s = s.
Proof.
  intros H. unfold strip. rewrite (rstrip_id s H).
  destruct s as [| c s]; [reflexivity |].
  cbn [all_chars] in H. apply andb_true_iff in H. destruct H as [Hc _].
  apply negb_true_iff in Hc. cbn [lstrip]. rewrite Hc. reflexivity.
Qed.

Lemma all_chars_impl (p q : ascii -> bool) s :
  (forall c, p c = true -> q c = true) -> all_chars p s = true -> all_chars q s = true.
Proof.
  intros Hpq. induction s as [| c s IH]; [reflexivity |].
  cbn [all_chars]. rewrite !andb_true_iff. intros [Hc Hs]. auto.
Qed.

Lemma all_chars_app p a b :
  all_chars p (a +:+ b) = (all_chars p a && all_chars p b)%bool.
Proof.
  induction a as [| c a IH]; [reflexivity |].
  change (String c a +:+ b) with (String c (a +:+ b)).
  cbn [all_chars]. rewrite IH. apply andb_assoc.
Qed.

(** The digits [digits_of] writes are read back from left to right. *)
Lemma digits_value_digits_of fuel : forall n acc b,
  0 <= n < 2 ^ Z.of_nat (S fuel) ->
  digits_value 0 b (digits_of (S fuel) n acc) = digits_value n true acc.
Proof.
  induction fuel as [| fuel IH]; intros n acc b Hn;
    assert (Hmod : 0 <= n mod 10 <= 9) by (pose proof (Z.mod_pos_bound n 10); lia);
    destruct (digit_char_is_digit (n mod 10) Hmod) as [Hd Hv];
    cbn [digits_of]; destruct (n <? 10) eqn:Hlt.
  - apply Z.ltb_lt in Hlt. cbn [digits_value]. rewrite Hd, Hv.
    rewrite Z.mod_small by lia. reflexivity.
  - apply Z.ltb_ge in Hlt. change (2 ^ Z.of_nat 1) with 2 in Hn. lia.
  - apply Z.ltb_lt in Hlt. cbn [digits_value]. rewrite Hd, Hv.
    rewrite Z.mod_small by lia. reflexivity.
  - apply Z.ltb_ge in Hlt.
    change (digits_of fuel (n / 10 / 10) _) with (digits_of fuel (n / 10 / 10)
      (String (digit_char (n / 10 mod 10)) (String (digit_char (n mod 10)) acc))).
    pose proof (IH (n / 10) (String (digit_char (n mod 10)) acc) b) as IHn.
    cbn [digits_of] in IHn. rewrite IHn.
    + cbn [digits_value]. rewrite Hd, Hv.
      replace (10 * (n / 10) + n mod 10) with n
        by (pose proof (Z.div_mod n 10); lia).
      reflexivity.
    + rewrite Nat2Z.inj_succ, Z.pow_succ_r in Hn by lia.
      split; [apply Z.div_pos; lia |].
      apply Z.div_lt_upper_bound; lia.
Qed.

Lemma digits_of_digits fuel : forall n acc,
  all_chars is_digit acc = true -> all_chars is_digit (digits_of fuel n acc) = true.
Proof.
  induction fuel as [| fuel IH]; intros n acc Hacc; [exact Hacc |].
  assert (Hmod : 0 <= n mod 10 <= 9) by (pose proof (Z.mod_pos_bound n 10); lia).
  destruct (digit_char_is_digit (n mod 10) Hmod) as [Hd _].
  assert (Hnext : all_chars is_digit (String (digit_char (n mod 10)) acc) = true)
    by (cbn [all_chars]; rewrite Hd, Hacc; reflexivity).
  cbn [digits_of]. destruct (n <? 10); [exact Hnext | apply IH, Hnext].
Qed.

Lemma digits_of_nonempty fuel : forall n acc,
  acc <> EmptyString -> digits_of fuel n acc <> EmptyString.
Proof.
  induction fuel as [| fuel IH]; intros n acc Hacc; [exact Hacc |].
  cbn [digits_of]. destruct (n <? 10); [discriminate | apply IH; discriminate].
Qed.

Lemma str_of_nonneg_digits n :
  all_chars is_digit (str_of_nonneg n) = true /\ str_of_nonneg n <> EmptyString.
Proof.
  unfold str_of_nonneg. split; [apply digits_of_digits; reflexivity |].
  cbn [digits_of]. destruct (n <? 10); [discriminate |].
  apply digits_of_nonempty. discriminate.
Qed.

Lemma str_of_nonneg_value n b :
  0 <= n -> digits_value 0 b (str_of_nonneg n) = Some n.
Proof.
  intros Hn. unfold str_of_nonneg. rewrite digits_value_digits_of; [reflexivity |].
  split; [exact Hn |].
  rewrite Nat2Z.inj_succ, Z2Nat.id by apply Z.log2_nonneg.
  destruct (Z.eq_dec n 0) as [-> | Hne]; [reflexivity |].
  apply Z.log2_spec. lia.
Qed.

(** [int] of digits that start with one reads the digits. *)
Lemma py_int_digits s :
  all_chars is_digit s = true -> s <> EmptyString ->
  py_int s = match digits_value 0 false s with
             | Some z => Ok z
             | None => Raise invalid_literal
             end.
Proof.
  intros Hs Hne. unfold py_int.
  rewrite strip_id
    by (apply (all_chars_impl is_digit); [| exact Hs];
        intros c Hc; rewrite (is_digit_not_space c Hc); reflexivity).
  destruct s as [| c r]; [congruence |].
  cbn [all_chars] in Hs. apply andb_true_iff in Hs. destruct Hs as [Hc _].
  destruct c as [[] [] [] [] [] [] [] []]; try discriminate Hc; reflexivity.
Qed.

(** [int(str(z))] is [z]. *)
Lemma py_int_str_of_Z z : py_int (str_of_Z z) = Ok z.
Proof.
  unfold str_of_Z. destruct (z <? 0) eqn:Hz.
  - apply Z.ltb_lt in Hz.
    destruct (str_of_nonneg_digits (- z)) as [Hd Hne].
    unfold py_int. rewrite strip_id.
    + rewrite str_of_nonneg_value by lia. cbn. f_equal. lia.
    + cbn [all_chars]. apply andb_true_iff. split; [reflexivity |].
      apply (all_chars_impl is_digit); [| exact Hd].
      intros c Hc. rewrite (is_digit_not_space c Hc). reflexivity.
  - apply Z.ltb_ge in Hz.
    destruct (str_of_nonneg_digits z) as [Hd Hne].
    rewrite (py_int_digits _ Hd Hne), str_of_nonneg_value by exact Hz. reflexivity.
Qed.

(** The text of a number is one word on one line. *)
Lemma str_of_Z_chars z (p : ascii -> bool) :
  (forall c, is_digit c = true -> p c = true) -> p "-"%char = true ->
  all_chars p (str_of_Z z) = true /\ str_of_Z z <> EmptyString.
Proof.
  intros Hp Hminus. unfold str_of_Z.
  destruct (z <? 0).
  - destruct (str_of_nonneg_digits (- z)) as [Hd _].
    split; [| discriminate]. cbn [all_chars]. rewrite Hminus.
    apply (all_chars_impl is_digit); assumption.
  - destruct (str_of_nonneg_digits z) as [Hd Hne].
    split; [apply (all_chars_impl is_digit); assumption | exact Hne].
Qed.

(** *** First lines *)

Lemma span_all p a : all_chars p a = true -> span p a = (a, EmptyString).
Proof.
  induction a as [| c a IH]; intros H; [reflexivity |].
  cbn [all_chars] in H. apply andb_true_iff in H. destruct H as [Hc Ha].
  cbn [span]. rewrite Hc, (IH Ha). reflexivity.
Qed.

Lemma span_stop p a c b :
  all_chars p a = true -> p c = false ->
  span p (a +:+ String c b) = (a, String c b).
Proof.
  intros Ha Hc. induction a as [| c' a IH].
  - change (EmptyString +:+ String c b) with (String c b).
    cbn [span]. rewrite Hc. reflexivity.
  - cbn [all_chars] in Ha. apply andb_true_iff in Ha. destruct Ha as [Hc' Ha].
    change (String c' a +:+ String c b) with (String c' (a +:+ String c b)).
    cbn [span]. rewrite Hc', (IH Ha). reflexivity.
Qed.

(** A code of three digits is written with three digits. *)
Lemma three_digits code :
  100 <= code <= 999 ->
  exists d1 d2 d3,
    str_of_Z code = String d1 (String d2 (String d3 EmptyString))
    /\ is_digit d1 = true /\ is_digit d2 = true /\ is_digit d3 = true.
Proof.
  intros Hcode.
  assert (H : forallb
                (fun n =>
                   match str_of_Z (Z.of_nat n + 100) with
                   | String d1 (String d2 (String d3 EmptyString)) =>
                       is_digit d1 && is_digit d2 && is_digit d3
                   | _ => false
                   end) (seq 0 900) = true) by (vm_compute; reflexivity).
  rewrite forallb_forall in H. specialize (H (Z.to_nat (code - 100))).
  rewrite Z2Nat.id in H by lia. replace (code - 100 + 100) with code in H by lia.
  assert (Hin : In (Z.to_nat (code - 100)) (seq 0 900)) by (apply in_seq; lia).
  specialize (H Hin).
  destruct (str_of_Z code) as [| d1 [| d2 [| d3 [| ? ?]]]]; try discriminate H.
  apply andb_true_iff in H. destruct H as [H H3].
  apply andb_true_iff in H. destruct H as [H1 H2].
  exists d1, d2, d3. auto.
Qed.

(** A status line is read back by the pattern of responses. *)
Lemma response_match_line code phrase :
  start_ok (StatusLine code phrase) = true ->
  response_match (start_text (StatusLine code phrase)) = Some (str_of_Z code, phrase).
Proof.
  unfold start_ok. rewrite !andb_true_iff. intros [[[Hlo Hhi] Hne] Hlf].
  apply Z.leb_le in Hlo. apply Z.leb_le in Hhi.
  destruct (three_digits code (conj Hlo Hhi)) as (d1 & d2 & d3 & Hs & H1 & H2 & H3).
  cbn [start_text]. rewrite Hs.
  destruct phrase as [| c phrase]; [discriminate Hne |].
  cbv [append]. unfold response_match.
  replace (not_newline ".") with true by reflexivity.
  rewrite H1, H2, H3. cbn [andb].
  rewrite (span_all not_newline (String c phrase) Hlf). reflexivity.
Qed.

(** What the pattern of responses accepts starts with [SIP/]. *)
Lemma response_match_prefix line :
  response_match line <> None ->
  exists rest, line = String "S" (String "I" (String "P" (String "/" rest))).
Proof.
  unfold response_match.
  destruct line as [| c1 [| c2 [| c3 [| c4 rest]]]]; try congruence.
  - destruct c1 as [[] [] [] [] [] [] [] []]; congruence.
  - destruct c1 as [[] [] [] [] [] [] [] []]; try congruence;
      destruct c2 as [[] [] [] [] [] [] [] []]; congruence.
  - destruct c1 as [[] [] [] [] [] [] [] []]; try congruence;
      destruct c2 as [[] [] [] [] [] [] [] []]; try congruence;
      destruct c3 as [[] [] [] [] [] [] [] []]; congruence.
  - destruct c1 as [[] [] [] [] [] [] [] []]; try congruence;
      destruct c2 as [[] [] [] [] [] [] [] []]; try congruence;
      destruct c3 as [[] [] [] [] [] [] [] []]; try congruence;
      destruct c4 as [[] [] [] [] [] [] [] []]; try congruence.
    intros _. eexists. reflexivity.
Qed.

Lemma version_follows_target uri :
  no_lf uri = true -> version_follows (uri +:+ " SIP/2.0") = true.
Proof.
  induction uri as [| c uri IH]; intros H; [reflexivity |].
  rewrite no_lf_cons in H. apply andb_true_iff in H. destruct H as [Hc Hu].
  change (String c uri +:+ " SIP/2.0") with (String c (uri +:+ " SIP/2.0")).
  cbn [version_follows]. rewrite Hc, (IH Hu). apply orb_true_r.
Qed.

Lemma is_upper_alpha c : is_upper c = true -> is_alpha c = true.
Proof. unfold is_alpha. intros ->. reflexivity. Qed.

(** A request line is read back by the pattern of requests, and not
    by that of responses. *)
Lemma request_match_line name uri :
  start_ok (RequestLine name uri) = true ->
  request_match (start_text (RequestLine name uri)) = Some name
  /\ response_match (start_text (RequestLine name uri)) = None.
Proof.
  unfold start_ok. rewrite !andb_true_iff. intros [[[Hne Hup] Hune] Hlf].
  cbn [start_text].
  destruct uri as [| u uri]; [discriminate Hune |].
  rewrite no_lf_cons in Hlf. apply andb_true_iff in Hlf. destruct Hlf as [Hu Hlf].
  change (name +:+ " " +:+ String u uri +:+ " SIP/2.0")
    with (name +:+ String " " (String u (uri +:+ " SIP/2.0"))).
  split.
  - unfold request_match. rewrite span_stop.
    + destruct name as [| c letters]; [discriminate Hne |].
      rewrite Hu, (version_follows_target uri Hlf). reflexivity.
    + apply (all_chars_impl is_upper); [apply is_upper_alpha | exact Hup].
    + reflexivity.
  - destruct (response_match (name +:+ String " " (String u (uri +:+ " SIP/2.0"))))
      as [p |] eqn:Hresp; [| reflexivity].
    exfalso.
    destruct (response_match_prefix _ ltac:(rewrite Hresp; discriminate)) as [rest Hline].
    destruct name as [| c1 [| c2 [| c3 [| c4 name]]]]; cbv [append] in Hline;
      try discriminate Hline.
    injection Hline as _ _ _ -> _.
    cbn [all_chars] in Hup. rewrite !andb_true_iff in Hup.
    destruct Hup as (_ & _ & _ & H4 & _). discriminate H4.
Qed.

(** What the pattern of responses accepts: three digits, which read as
    a number, and a reason phrase that is not empty. *)
Lemma response_match_inv line code phrase :
  response_match line = Some (code, phrase) ->
  phrase <> EmptyString
  /\ exists c, py_int code = Ok c /\ 0 <= c <= 999.
Proof.
  intros Hm.
  destruct (response_match_prefix line ltac:(rewrite Hm; discriminate)) as [r4 ->].
  unfold response_match in Hm.
  destruct r4 as [| c5 [| dot [| c7 [| c8 [| d1 [| d2 [| d3 [| c12 rest]]]]]]]];
    try discriminate Hm;
    try (destruct c5 as [[] [] [] [] [] [] [] []]; discriminate Hm);
    try (destruct c5 as [[] [] [] [] [] [] [] []]; try discriminate Hm;
         destruct c7 as [[] [] [] [] [] [] [] []]; discriminate Hm);
    try (destruct c5 as [[] [] [] [] [] [] [] []]; try discriminate Hm;
         destruct c7 as [[] [] [] [] [] [] [] []]; try discriminate Hm;
         destruct c8 as [[] [] [] [] [] [] [] []]; discriminate Hm).
  destruct c5 as [[] [] [] [] [] [] [] []]; try discriminate Hm;
    destruct c7 as [[] [] [] [] [] [] [] []]; try discriminate Hm;
    destruct c8 as [[] [] [] [] [] [] [] []]; try discriminate Hm;
    destruct c12 as [[] [] [] [] [] [] [] []]; try discriminate Hm.
  destruct (not_newline dot && is_digit d1 && is_digit d2 && is_digit d3)%bool eqn:Hc;
    [| discriminate Hm].
  rewrite !andb_true_iff in Hc. destruct Hc as [[[_ H1] H2] H3].
  destruct (fst (span not_newline rest)) as [| c p] eqn:Hp; [discriminate Hm |].
  injection Hm as <- <-. split; [discriminate |].
  rewrite py_int_digits
    by (first [discriminate | cbn [all_chars]; rewrite H1, H2, H3; reflexivity]).
  cbn [digits_value]. rewrite H1, H2, H3.
  destruct (is_digit_char d1 H1) as [_ B1].
  destruct (is_digit_char d2 H2) as [_ B2].
  destruct (is_digit_char d3 H3) as [_ B3].
  eexists. split; [reflexivity | lia].
Qed.

(** *** What the loop collects *)

Lemma fold_merged values :
  fold_left (fun old v => Some (merged old v)) values None = collected values.
Proof.
  assert (Hlist : forall vs l,
            fold_left (fun old v => Some (merged old v)) vs (Some (HList l))
            = Some (HList (l ++ vs))).
  { induction vs as [| v vs IH]; intros l; cbn [fold_left merged].
    - rewrite app_nil_r. reflexivity.
    - rewrite IH, <- List.app_assoc. reflexivity. }
  destruct values as [| v1 [| v2 vs]]; try reflexivity.
  cbn [fold_left merged collected]. rewrite Hlist. reflexivity.
Qed.

Lemma values_under_same k k' lines :
  CIMultiDict.same_key k k' = true -> values_under k lines = values_under k' lines.
Proof.
  intros Hk. unfold CIMultiDict.same_key in Hk. apply String.eqb_eq in Hk.
  unfold values_under, CIMultiDict.same_key. rewrite Hk. reflexivity.
Qed.

(** The header map the loop builds from nothing: under each name, what
    the lines under that name collect to. *)
Lemma add_lines_collects lines h k :
  add_lines [] lines = Ok h ->
  CIMultiDict.find k h = collected (values_under k lines).
Proof.
  intros Hrun. rewrite (add_lines_find k lines [] h Hrun). apply fold_merged.
Qed.

Lemma add_lines_runs lines :
  Forall (fun line => split_colon line <> None) lines ->
  exists h, add_lines [] lines = Ok h.
Proof.
  intros Hall. pose proof (add_lines_total lines []) as Ht.
  destruct (add_lines [] lines) as [h | e]; [eauto |].
  destruct Ht as [_ Hex]. exfalso.
  rewrite List.Forall_forall in Hall. apply List.Exists_exists in Hex.
  destruct Hex as (line & Hin & Hnone). exact (Hall line Hin Hnone).
Qed.

(*ORDER-END*)

Section Encoding.

Context {outside : Outside}.

(** *** [Content-Length] *)

(** After the closing headers there is one item under [Content-Length],
    and it gives the length. *)
Lemma closing_headers_length n h :
  let h' := closing_headers n h in
  In ("Content-Length", HStr (str_of_Z (Z.of_nat n))) h'
  /\ forall k v, In (k, v) h' -> CIMultiDict.same_key k "Content-Length" = true ->
       k = "Content-Length" /\ v = HStr (str_of_Z (Z.of_nat n)).
Proof.
  cbv zeta. unfold closing_headers.
  set (h1 := CIMultiDict.setitem "Content-Length" _ h).
  set (h2 := if CIMultiDict.contains "Max-Forwards" h1 then h1 else _).
  assert (H1 : In ("Content-Length", HStr (str_of_Z (Z.of_nat n))) h1
               /\ forall k v, In (k, v) h1 ->
                    CIMultiDict.same_key k "Content-Length" = true ->
                    k = "Content-Length" /\ v = HStr (str_of_Z (Z.of_nat n))).
  { split; [apply In_setitem |].
    intros k v Hin Hk. apply setitem_In in Hin.
    destruct Hin as [? | [Hk' _]]; [assumption |].
    rewrite CIMultiDictFacts.same_key_sym in Hk'. congruence. }
  assert (Hstep : forall name value (g : CIMultiDict.t),
             CIMultiDict.same_key name "Content-Length" = false ->
             (In ("Content-Length", HStr (str_of_Z (Z.of_nat n))) g
              /\ forall k v, In (k, v) g ->
                   CIMultiDict.same_key k "Content-Length" = true ->
                   k = "Content-Length" /\ v = HStr (str_of_Z (Z.of_nat n))) ->
             let g' := if CIMultiDict.contains name g then g
                       else CIMultiDict.setitem name value g in
             In ("Content-Length", HStr (str_of_Z (Z.of_nat n))) g'
             /\ forall k v, In (k, v) g' ->
                  CIMultiDict.same_key k "Content-Length" = true ->
                  k = "Content-Length" /\ v = HStr (str_of_Z (Z.of_nat n))).
  { intros name value g Hname [Hin Huniq]. cbv zeta.
    destruct (CIMultiDict.contains name g); [auto |]. split.
    - apply In_setitem_other; assumption.
    - intros k v Hkv Hk. apply setitem_In in Hkv.
      destruct Hkv as [[-> ->] | [_ Hkv]]; [congruence | auto]. }
  apply (Hstep "Call-ID"); [reflexivity |].
  apply (Hstep "Max-Forwards"); [reflexivity |]. exact H1.
Qed.

(** Reading the sequence number or the method may cache it, and does
    nothing else. *)
Lemma cseq_frame m c m' :
  cseq m = Ok (c, m') ->
  kind m' = kind m /\ headers m' = headers m /\ _raw_payload m' = _raw_payload m
  /\ _first_line m' = _first_line m.
Proof.
  unfold cseq. destruct (_cseq m); [intros [= _ <-]; auto |].
  destruct (cseq_parts m) as [parts |]; simpl; [| discriminate].
  destruct (list_getitem 0 parts) as [number |]; simpl; [| discriminate].
  destruct (py_int number); simpl; [| discriminate].
  intros [= _ <-]. auto.
Qed.

Lemma method_frame m s m' :
  method m = Ok (s, m') ->
  kind m' = kind m /\ headers m' = headers m /\ _raw_payload m' = _raw_payload m
  /\ _first_line m' = _first_line m.
Proof.
  unfold method. destruct (_method m); [intros [= _ <-]; auto |].
  destruct (cseq_parts m) as [parts |]; simpl; [| discriminate].
  destruct (list_getitem 1 parts) as [name |]; simpl; [| discriminate].
  intros [= _ <-]. auto.
Qed.

(** The header map [_make_headers] leaves: the closing headers over
    some map, formatted for the class of the message. *)
Lemma _make_headers_inv m text m' :
  _make_headers m = Ok (text, m') ->
  kind m' = kind m
  /\ _raw_payload m' = _raw_payload m
  /\ _first_line m' = _first_line m
  /\ is_ok (sorted_items (headers m')) = true
  /\ text = join EOL (header_lines (kind m) (headers m') ++ [EOL])
  /\ exists h, headers m' = closing_headers (length (default [] (_raw_payload m))) h.
Proof.
  unfold _make_headers.
  set (m1 := match _from_details m with Some _ => _ | None => m end).
  set (m2 := match _to_details m1 with Some _ => _ | None => m1 end).
  set (m3 := match _contact_details m2 with Some _ => _ | None => m2 end).
  assert (H3 : kind m3 = kind m /\ _raw_payload m3 = _raw_payload m
               /\ _first_line m3 = _first_line m).
  { subst m3 m2 m1.
    destruct (_from_details m); cbn;
      match goal with |- context [_to_details ?x] => destruct (_to_details x) end; cbn;
      match goal with
      | |- context [_contact_details ?x] =>
          destruct (_contact_details x) as [[? |] |]
      end; cbn; auto. }
  destruct H3 as (Hk & Hr & Hf). clearbody m3. clear m1 m2.
  assert (Hlast : forall m4 : Message,
            kind m4 = kind m -> _raw_payload m4 = _raw_payload m ->
            _first_line m4 = _first_line m ->
            (let m5 :=
               set_headers
                 (closing_headers (length (default [] (_raw_payload m4))) (headers m4)) m4 in
             text <- _format_headers (kind m5) (headers m5);; Ok (text, m5))
            = Ok (text, m') ->
            kind m' = kind m
            /\ _raw_payload m' = _raw_payload m
            /\ _first_line m' = _first_line m
            /\ is_ok (sorted_items (headers m')) = true
            /\ text = join EOL (header_lines (kind m) (headers m') ++ [EOL])
            /\ exists h, headers m' = closing_headers (length (default [] (_raw_payload m))) h).
  { intros m4 Hk4 Hr4 Hf4. cbv zeta.
    destruct (_format_headers _ _) as [t |] eqn:Hfmt; cbn [rbind];
      [| intros Hno; discriminate Hno].
    intros [= <- <-]. apply _format_headers_lines in Hfmt. destruct Hfmt as [Hok ->].
    cbn in *. rewrite Hk4, Hr4 in *. rewrite Hf4. repeat split; eauto. }
  destruct (bool_decide (is_Some (_cseq m3)) || bool_decide (is_Some (_method m3)))%bool.
  - destruct (cseq m3) as [[c mc] |] eqn:Hc; cbn [rbind fst snd];
      [| intros Hno; discriminate Hno].
    destruct (method mc) as [[s mm] |] eqn:Hm; cbn [rbind fst snd];
      [| intros Hno; discriminate Hno].
    destruct (cseq_frame _ _ _ Hc) as (Hk1 & _ & Hr1 & Hf1).
    destruct (method_frame _ _ _ Hm) as (Hk2 & _ & Hr2 & Hf2).
    apply Hlast; cbn; congruence.
  - cbn [rbind]. apply Hlast; assumption.
Qed.

Lemma encode_inv m out m' :
  encode m = Ok (out, m') ->
  kind m' = kind m
  /\ is_ok (sorted_items (headers m')) = true
  /\ out = start_line m
           ++ encode_text (join EOL (header_lines (kind m) (headers m') ++ [EOL]))
           ++ body m
  /\ exists h, headers m' = closing_headers (length (body m)) h.
Proof.
  assert (Hbase : forall out m',
            Message_encode m = Ok (out, m') ->
            kind m' = kind m
            /\ is_ok (sorted_items (headers m')) = true
            /\ out = encode_text (join EOL (header_lines (kind m) (headers m') ++ [EOL]))
                     ++ body m
            /\ exists h, headers m' = closing_headers (length (body m)) h).
  { clear out m'. intros out m'. unfold Message_encode.
    destruct (_make_headers (set_raw_payload (Some (body m)) m)) as [[text m2] |] eqn:Hmk;
      simpl; [| discriminate].
    apply _make_headers_inv in Hmk. cbn in Hmk.
    destruct Hmk as (Hk & Hr & _ & Hok & -> & h & Hh).
    intros [= <- <-]. rewrite Hr. cbn. split; [exact Hk |]. split; [exact Hok |].
    split; [reflexivity |]. exists h. exact Hh. }
  unfold encode, start_line.
  destruct (kind m) eqn:Hkind; [intros He; apply Hbase; exact He | | |];
    (destruct (_first_line m) as [line |]; [| discriminate];
     destruct (Message_encode m) as [[out0 m0] |] eqn:He; simpl; [| discriminate];
     intros [= <- <-];
     destruct (Hbase _ _ eq_refl) as (Hk & Hok & -> & Hh);
     split; [exact Hk |]; split; [exact Hok |]; split; [| exact Hh];
     rewrite <- !app_assoc; reflexivity).
Qed.

(** *** Construction without a [Via] *)







(** *** The header map [encode] leaves *)

Section Kept.

Variable P : CIMultiDict.t -> Prop.
Hypothesis P_setitem : forall k v h, P h -> P (CIMultiDict.setitem k v h).

Lemma closing_headers_keeps n h : P h -> P (closing_headers n h).
Proof.
  intros Hh. unfold closing_headers.
  repeat match goal with
         | |- context [if ?c then _ else _] => destruct c
         end; auto.
Qed.

Lemma _make_headers_keeps m text m' :
  _make_headers m = Ok (text, m') -> P (headers m) -> P (headers m').
Proof.
  unfold _make_headers. intros Hmk Hm.
  set (m1 := match _from_details m with Some _ => _ | None => m end) in Hmk.
  set (m2 := match _to_details m1 with Some _ => _ | None => m1 end) in Hmk.
  set (m3 := match _contact_details m2 with Some _ => _ | None => m2 end) in Hmk.
  assert (H1 : P (headers m1)) by (subst m1; destruct (_from_details m); cbn; auto).
  assert (H2 : P (headers m2)) by (subst m2; destruct (_to_details m1); cbn; auto).
  assert (H3 : P (headers m3))
    by (subst m3; destruct (_contact_details m2) as [[? |] |]; cbn; auto).
  clearbody m3. clear m1 m2 H1 H2 Hm.
  destruct (bool_decide (is_Some (_cseq m3)) || bool_decide (is_Some (_method m3)))%bool.
  - destruct (cseq m3) as [[c mc] |] eqn:Hc; cbn [rbind fst snd] in Hmk;
      [| discriminate Hmk].
    destruct (method mc) as [[s mm] |] eqn:Hm; cbn [rbind fst snd] in Hmk;
      [| discriminate Hmk].
    destruct (cseq_frame _ _ _ Hc) as (_ & Hh1 & _).
    destruct (method_frame _ _ _ Hm) as (_ & Hh2 & _).
    destruct (_format_headers _ _) as [t |]; cbn [rbind] in Hmk; [| discriminate Hmk].
    injection Hmk as _ <-. cbn. apply closing_headers_keeps, P_setitem.
    rewrite Hh2, Hh1. exact H3.
  - cbn [rbind] in Hmk.
    destruct (_format_headers _ _) as [t |]; cbn [rbind] in Hmk; [| discriminate Hmk].
    injection Hmk as _ <-. cbn. apply closing_headers_keeps, H3.
Qed.

Lemma encode_keeps m out m' :
  encode m = Ok (out, m') -> P (headers m) -> P (headers m').
Proof.
  assert (Hbase : forall out m',
            Message_encode m = Ok (out, m') -> P (headers m) -> P (headers m')).
  { clear out m'. intros out m'. unfold Message_encode.
    destruct (_make_headers (set_raw_payload (Some (body m)) m)) as [[text m2] |] eqn:Hmk;
      simpl; [| discriminate].
    intros [= _ <-]. apply (_make_headers_keeps _ _ _ Hmk). }
  unfold encode.
  destruct (kind m); [apply Hbase | | |];
    (destruct (_first_line m) as [line |]; [| discriminate];
     destruct (Message_encode m) as [[out0 m0] |] eqn:He; simpl; [| discriminate];
     intros [= _ <-]; apply (Hbase _ _ eq_refl)).
Qed.

End Kept.

(** With both the sequence number and the method cached or neither,
    and with header keys that differ, [encode] returns. *)
Lemma encode_returns m :
  cseq_settled m ->
  NoDup (map fst (CIMultiDict.items (headers m))) ->
  (kind m <> IsMessage -> is_Some (_first_line m)) ->
  is_ok (encode m) = true.
Proof.
  intros Hsettled Hnd Hline.
  assert (Hmk : forall m0, cseq_settled m0 ->
            NoDup (map fst (CIMultiDict.items (headers m0))) ->
            is_ok (_make_headers m0) = true).
  { clear. intros m Hsettled Hnd. unfold _make_headers.
    set (m1 := match _from_details m with Some _ => _ | None => m end).
    set (m2 := match _to_details m1 with Some _ => _ | None => m1 end).
    set (m3 := match _contact_details m2 with Some _ => _ | None => m2 end).
    assert (H1 : NoDup (map fst (headers m1)))
      by (subst m1; destruct (_from_details m); cbn; auto using NoDup_keys_setitem).
    assert (H2 : NoDup (map fst (headers m2)))
      by (subst m2; destruct (_to_details m1); cbn; auto using NoDup_keys_setitem).
    assert (Hh : NoDup (map fst (headers m3)))
      by (subst m3; destruct (_contact_details m2) as [[? |] |]; cbn;
          auto using NoDup_keys_setitem).
    assert (H3 : _cseq m3 = _cseq m /\ _method m3 = _method m).
    { subst m3 m2 m1.
      destruct (_from_details m); cbn;
        match goal with |- context [_to_details ?x] => destruct (_to_details x) end; cbn;
        match goal with
        | |- context [_contact_details ?x] =>
            destruct (_contact_details x) as [[? |] |]
        end; cbn; auto. }
    destruct H3 as [Hc Hm]. clearbody m3. clear m1 m2 H1 H2 Hnd.
    assert (Hlast : forall m4 : Message,
              NoDup (map fst (headers m4)) ->
              is_ok (let m5 :=
                       set_headers
                         (closing_headers (length (default [] (_raw_payload m4)))
                            (headers m4)) m4 in
                     text <- _format_headers (kind m5) (headers m5);; Ok (text, m5))
              = true).
    { intros m4 H4. cbv zeta. unfold _format_headers. cbn [headers set_headers].
      destruct (sorted_items_distinct
                  (closing_headers (length (default [] (_raw_payload m4))) (headers m4)))
        as [items ->]; [| reflexivity].
      apply (closing_headers_keeps (fun h => NoDup (map fst h)));
        [apply NoDup_keys_setitem | exact H4]. }
    unfold cseq_settled in Hsettled. rewrite <- Hc, <- Hm in Hsettled.
    destruct Hsettled as [[[c Hc'] [s Hs']] | [Hc' Hs']].
    - unfold cseq, method. rewrite Hc'. cbn [bool_decide orb rbind fst snd].
      rewrite Hs'. cbn [rbind fst snd].
      destruct (bool_decide _ || bool_decide _)%bool; [| apply Hlast, Hh].
      apply Hlast. cbn [headers set_headers]. apply NoDup_keys_setitem, Hh.
    - rewrite Hc', Hs'.
      destruct (bool_decide _ || bool_decide _)%bool eqn:Hb; [| apply Hlast, Hh].
      apply orb_true_iff in Hb.
      destruct Hb as [Hb | Hb]; apply bool_decide_eq_true in Hb; destruct Hb; discriminate. }
  assert (Hbase : is_ok (Message_encode m) = true).
  { unfold Message_encode.
    specialize (Hmk (set_raw_payload (Some (body m)) m) Hsettled Hnd).
    destruct (_make_headers _) as [[text m2] |]; [reflexivity | discriminate]. }
  unfold encode. destruct (kind m) eqn:Hkind; [exact Hbase | | |];
    (destruct Hline as [line ->]; [discriminate |];
     destruct (Message_encode m) as [[out0 m0] |]; [reflexivity | discriminate]).
Qed.

(** [encode] ends its output with the payload it settles on
    (message.py:181-186). *)
Lemma body_payload m :
  body m
  = match _payload m with
    | Some (String c text) => encode_text (String c text)
    | _ => match _raw_payload m with Some raw => raw | None => [] end
    end.
Proof.
  unfold body.
  destruct (_payload m) as [[| c text] |]; cbn [nonempty default]; try reflexivity;
    destruct (_raw_payload m) as [[| b raw] |]; reflexivity.
Qed.

(** C9.  Whenever [encode] returns, its output ends with the payload:
    the text payload encoded if there is one that is not empty, else
    the raw payload, else nothing.  The header lines before it carry a
    [Content-Length] line (under the alias [l] in a compact response)
    whose value is the number of those bytes, and no other item of the
    header map is a [Content-Length]; with neither a text payload nor a
    raw payload the output ends with the header block, and the line
    reads 0.  And [encode] does return when the keys of the header map
    differ, and the sequence number and the method are both cached or
    both left in the headers. *)
Theorem content_length_is_body_length m :
  (forall out m', encode m = Ok (out, m') ->
     let payload :=
       match _payload m with
       | Some (String c text) => encode_text (String c text)
       | _ => match _raw_payload m with Some raw => raw | None => [] end
       end in
     let n := Z.of_nat (length payload) in
     let lines := header_lines (kind m) (headers m') in
     out = start_line m ++ encode_text (join EOL (lines ++ [EOL])) ++ payload
     /\ In (header_line (wire_name (kind m) "Content-Length") (str_of_Z n)) lines
     /\ (forall k v, In (k, v) (headers m') ->
           CIMultiDict.same_key k "Content-Length" = true ->
           k = "Content-Length" /\ v = HStr (str_of_Z n))
     /\ ((_payload m = None \/ _payload m = Some EmptyString) ->
         (_raw_payload m = None \/ _raw_payload m = Some []) ->
         out = start_line m ++ encode_text (join EOL (lines ++ [EOL]))
         /\ In (header_line (wire_name (kind m) "Content-Length") "0") lines))
  /\ (cseq_settled m ->
      NoDup (map fst (CIMultiDict.items (headers m))) ->
      (kind m <> IsMessage -> is_Some (_first_line m)) ->
      is_ok (encode m) = true).
Proof.
  split; [| apply encode_returns].
  intros out m' He. cbv zeta. rewrite <- body_payload.
  destruct (encode_inv _ _ _ He) as (Hk & Hok & Hout & h & Hh).
  destruct (closing_headers_length (length (body m)) h) as [Hin Huniq].
  cbv zeta in Hin, Huniq. rewrite <- Hh in Hin, Huniq.
  assert (Hline : In (header_line (wire_name (kind m) "Content-Length")
                        (str_of_Z (Z.of_nat (length (body m)))))
                    (header_lines (kind m) (headers m'))).
  { apply header_lines_In; [exact Hok |].
    exists "Content-Length", (HStr (str_of_Z (Z.of_nat (length (body m))))).
    split; [exact Hin | left; reflexivity]. }
  split; [exact Hout |]. split; [exact Hline |]. split; [exact Huniq |].
  intros Hp Hr.
  assert (Hempty : body m = []).
  { rewrite body_payload.
    destruct Hp as [-> | ->], Hr as [-> | ->]; reflexivity. }
  rewrite Hempty in Hout, Hline. rewrite app_nil_r in Hout.
  split; [exact Hout | exact Hline].
Qed.

(** C3.  In the encoded form of a message whose header keys differ, the
    header lines are those of the item stored under the key [Via] as
    written, in the order of its values, followed by those of all other
    items in ascending order of their keys, compared by the codes of
    their characters (an upper-case letter is before every lower-case
    one); a compact response is ordered by the names its items are
    stored under, and written with the aliases. *)
Theorem header_lines_via_first_then_sorted m out m' :
  NoDup (map fst (CIMultiDict.items (headers m))) ->
  encode m = Ok (out, m') ->
  exists others,
    let via := List.filter is_via (headers m') in
    out = start_line m
          ++ encode_text
               (join EOL (flat_map (lines_of (kind m)) via
                          ++ flat_map (lines_of (kind m)) others ++ [EOL]))
          ++ body m
    /\ (forall v, In ("Via", v) (headers m') ->
          flat_map (lines_of (kind m)) via = item_lines (wire_name (kind m) "Via") v)
    /\ Permutation others (List.filter not_via (headers m'))
    /\ StronglySorted key_lt others.
Proof.
  intros Hnd He.
  pose proof (encode_keeps (fun h => NoDup (map fst h))
                (fun k v h => NoDup_keys_setitem k v h) m out m' He Hnd) as Hnd'.
  destruct (header_lines_order (kind m) (headers m') Hnd')
    as (others & Hlines & Hvia & Hperm & Hsorted).
  destruct (encode_inv _ _ _ He) as (_ & _ & Hout & _).
  exists others. cbv zeta. split; [| auto].
  rewrite Hout, Hlines, <- List.app_assoc. reflexivity.
Qed.

(** *** What construction returns *)

Lemma Message_init_inv kd headers_arg payload_arg from_arg to_arg contact_arg m :
  Message_init kd headers_arg payload_arg from_arg to_arg contact_arg = Ok m ->
  kind m = kd
  /\ _payload m = payload_arg /\ _raw_payload m = None
  /\ _from_details m = from_arg /\ _to_details m = to_arg
  /\ _cseq m = None /\ _method m = None /\ _first_line m = None
  /\ _status_code m = None /\ _status_message m = None
  /\ CIMultiDict.contains "Via" (headers m) = true
  /\ (forall k, CIMultiDict.same_key k "Via" = false ->
        CIMultiDict.find k (headers m) = CIMultiDict.find k (default [] headers_arg))
  /\ (is_Some from_arg \/ CIMultiDict.contains "From" (default [] headers_arg) = true)
  /\ (is_Some to_arg \/ CIMultiDict.contains "To" (default [] headers_arg) = true)
  /\ (CIMultiDict.contains "Via" (default [] headers_arg) = true ->
      headers m = default [] headers_arg
      /\ _contact_details m = option_map Some contact_arg).
Proof.
  unfold Message_init. set (h := default [] headers_arg). intros Hrun.
  destruct (if bool_decide (is_Some from_arg) then Ok tt
            else if CIMultiDict.contains "From" h then Ok tt else Raise from_required)
    as [[] | e] eqn:E1; [| discriminate].
  destruct (if bool_decide (is_Some to_arg) then Ok tt
            else if CIMultiDict.contains "To" h then Ok tt else Raise to_required)
    as [[] | e] eqn:E2; [| discriminate].
  cbn [rbind] in Hrun.
  assert (HF : is_Some from_arg \/ CIMultiDict.contains "From" h = true).
  { destruct (bool_decide (is_Some from_arg)) eqn:Hf;
      [left; apply bool_decide_eq_true in Hf; exact Hf |].
    destruct (CIMultiDict.contains "From" h); [right; reflexivity | discriminate]. }
  assert (HT : is_Some to_arg \/ CIMultiDict.contains "To" h = true).
  { destruct (bool_decide (is_Some to_arg)) eqn:Ht;
      [left; apply bool_decide_eq_true in Ht; exact Ht |].
    destruct (CIMultiDict.contains "To" h); [right; reflexivity | discriminate]. }
  clear E1 E2.
  destruct (CIMultiDict.contains "Via" h) eqn:Hvia.
  - injection Hrun as <-. cbn. repeat split; auto.
  - assert (Hfin : forall c m0,
              m0 = {| kind := kd; headers := h; _payload := payload_arg;
                      _raw_payload := None; _from_details := from_arg;
                      _to_details := to_arg; _contact_details := Some (Some c);
                      _cseq := None; _method := None; _first_line := None;
                      _status_code := None; _status_message := None |} ->
              m = set_headers (CIMultiDict.setitem "Via" (HStr (default_via c)) h) m0 ->
              kind m = kd
              /\ _payload m = payload_arg /\ _raw_payload m = None
              /\ _from_details m = from_arg /\ _to_details m = to_arg
              /\ _cseq m = None /\ _method m = None /\ _first_line m = None
              /\ _status_code m = None /\ _status_message m = None
              /\ CIMultiDict.contains "Via" (headers m) = true
              /\ (forall k, CIMultiDict.same_key k "Via" = false ->
                    CIMultiDict.find k (headers m) = CIMultiDict.find k h)
              /\ (is_Some from_arg \/ CIMultiDict.contains "From" h = true)
              /\ (is_Some to_arg \/ CIMultiDict.contains "To" h = true)
              /\ (false = true ->
                  headers m = h /\ _contact_details m = option_map Some contact_arg)).
    { intros c m0 -> ->.
      cbn [kind headers _payload _raw_payload _from_details _to_details
             _contact_details _cseq _method _first_line _status_code
             _status_message set_headers].
      repeat (split; [first [reflexivity | assumption] |]).
      split; [rewrite CIMultiDictFacts.contains_setitem; reflexivity |].
      split; [intros k Hk; rewrite CIMultiDictFacts.find_setitem, Hk; reflexivity |].
      split; [exact HF |]. split; [exact HT |]. discriminate. }
    unfold contact_details in Hrun. cbn [_contact_details headers] in Hrun.
    destruct contact_arg as [c |]; cbn [option_map rbind fst snd] in Hrun.
    + injection Hrun as Hm. symmetry in Hm. exact (Hfin c _ eq_refl Hm).
    + destruct (CIMultiDict.find "Contact" h) as [v |]; cbn [rbind] in Hrun;
        [| discriminate].
      destruct (contact_from_header v) as [c |]; cbn [rbind fst snd] in Hrun;
        [| discriminate].
      injection Hrun as Hm. symmetry in Hm. exact (Hfin c _ eq_refl Hm).
Qed.

Lemma Request_init_inv method_arg cseq_arg from_arg to_arg contact_arg headers_arg
    payload_arg first_line m :
  Request_init method_arg cseq_arg from_arg to_arg contact_arg headers_arg
    payload_arg first_line = Ok m ->
  exists m0,
    Message_init IsRequest headers_arg payload_arg from_arg to_arg contact_arg = Ok m0
    /\ kind m = IsRequest
    /\ headers m = headers m0
    /\ _payload m = _payload m0 /\ _raw_payload m = None
    /\ _from_details m = _from_details m0
    /\ _contact_details m = _contact_details m0
    /\ _cseq m = Some cseq_arg
    /\ _method m = Some (upper method_arg)
    /\ _status_code m = None /\ _status_message m = None
    /\ (if nonempty first_line
        then _first_line m = first_line /\ _to_details m = _to_details m0
        else exists c,
               _to_details m = Some c
               /\ _first_line m
                  = Some (request_line (upper method_arg) (short_uri (uri c)))
               /\ match _to_details m0 with
                  | Some c0 => c = c0
                  | None =>
                      exists v, CIMultiDict.find "To" (headers m0) = Some v
                                /\ contact_from_header v = Ok c
                  end).
Proof.
  unfold Request_init.
  destruct (Message_init IsRequest headers_arg payload_arg from_arg to_arg contact_arg)
    as [m0 |] eqn:Hinit; cbn [rbind]; [| discriminate].
  destruct (Message_init_inv _ _ _ _ _ _ _ Hinit)
    as (Hk & Hp & Hr & Hf & Ht & Hc & Hm & Hl & Hsc & Hsm & _).
  intros Hrun. exists m0. split; [reflexivity |].
  destruct (nonempty first_line).
  - injection Hrun as <-. cbn. rewrite Hk, Hr, Hsc, Hsm. repeat split.
  - unfold method, to_details in Hrun.
    cbn [_method set_cseq set_method rbind fst snd _to_details headers] in Hrun.
    destruct (_to_details m0) as [c0 |] eqn:Hto; cbn [rbind fst snd] in Hrun.
    + injection Hrun as <-. cbn. rewrite Hk, Hr, Hsc, Hsm, Hto.
      repeat split. exists c0. repeat split.
    + unfold CIMultiDict.getitem in Hrun.
      destruct (CIMultiDict.find "To" (headers m0)) as [v |] eqn:Hv;
        cbn [rbind] in Hrun; [| discriminate].
      destruct (contact_from_header v) as [c |] eqn:Hcv; cbn [rbind fst snd] in Hrun;
        [| discriminate].
      injection Hrun as <-. cbn. rewrite Hk, Hr, Hsc, Hsm.
      repeat split. exists c. repeat split. exists v. split; [first [exact Hv | reflexivity] | exact Hcv].
Qed.

Lemma Response_init_inv kd code message_arg headers_arg from_arg to_arg contact_arg
    payload_arg cseq_arg method_arg first_line m :
  Response_init kd code message_arg headers_arg from_arg to_arg contact_arg
    payload_arg cseq_arg method_arg first_line = Ok m ->
  exists m0 message,
    Message_init kd headers_arg payload_arg from_arg to_arg contact_arg = Ok m0
    /\ kind m = kd
    /\ headers m = headers m0
    /\ _payload m = _payload m0 /\ _raw_payload m = None
    /\ _from_details m = _from_details m0
    /\ _to_details m = _to_details m0
    /\ _contact_details m = _contact_details m0
    /\ _status_code m = Some code
    /\ _status_message m = Some message
    /\ (if nonempty message_arg then message_arg = Some message
        else STATUS code = Some message)
    /\ (if truthy cseq_arg then _cseq m = cseq_arg
        else _cseq m = None /\ CIMultiDict.contains "CSeq" (headers m0) = true)
    /\ (if nonempty method_arg then _method m = method_arg
        else _method m = None /\ CIMultiDict.contains "CSeq" (headers m0) = true)
    /\ _first_line m
       = Some (if nonempty first_line then default EmptyString first_line
               else response_line code message).
Proof.
  unfold Response_init.
  destruct (Message_init kd headers_arg payload_arg from_arg to_arg contact_arg)
    as [m0 |] eqn:Hinit; cbn [rbind]; [| discriminate].
  destruct (Message_init_inv _ _ _ _ _ _ _ Hinit)
    as (Hk & Hp & Hr & Hf & Ht & Hc & Hm & Hl & Hsc & Hsm & _).
  set (msg := if nonempty message_arg then Ok (default EmptyString message_arg)
              else match STATUS code with Some s => Ok s | None => Raise KeyError end).
  destruct msg as [message |] eqn:Hmsg; cbn [rbind]; [| discriminate].
  assert (Hmessage : if nonempty message_arg then message_arg = Some message
                     else STATUS code = Some message).
  { subst msg. destruct message_arg as [[| c s] |]; cbn [nonempty default] in *;
      try (destruct (STATUS code); congruence).
    injection Hmsg as <-. reflexivity. }
  clear Hmsg.
  destruct (truthy cseq_arg) eqn:Hcs;
    [| destruct (CIMultiDict.contains "CSeq" (headers m0)) eqn:Hh1; [| discriminate]];
    cbn [rbind];
    (destruct (nonempty method_arg) eqn:Hms;
     [| cbn [headers set_cseq];
        destruct (CIMultiDict.contains "CSeq" (headers m0)) eqn:Hh2; [| discriminate]];
     cbn [rbind]; intros [= <-]; exists m0, message; cbn;
     rewrite ?Hk, ?Hr, ?Hc, ?Hm; repeat split; auto).
Qed.

(** *** What [from_raw_headers] returns *)

Lemma request_match_nonempty line name :
  request_match line = Some name -> nonempty (Some line) = true.
Proof. destruct line; [discriminate | reflexivity]. Qed.

Lemma response_match_nonempty line p :
  response_match line = Some p -> nonempty (Some line) = true.
Proof. destruct line; [discriminate | reflexivity]. Qed.

(** The message [from_raw_headers] returns, for a response and for a
    request. *)
Lemma from_raw_headers_inv raw m :
  from_raw_headers raw = Ok m ->
  exists text first lines h m0,
    decode_text raw = Ok text
    /\ split_eol text = first :: lines
    /\ add_lines [] lines = Ok h
    /\ Message_init (kind m) (Some h) None None None None = Ok m0
    /\ headers m = headers m0
    /\ _contact_details m = _contact_details m0
    /\ _from_details m = None /\ _to_details m = None
    /\ _payload m = None /\ _raw_payload m = None
    /\ _first_line m = Some first
    /\ ((exists code phrase c,
           response_match first = Some (code, phrase)
           /\ py_int code = Ok c
           /\ kind m = IsResponse
           /\ _status_code m = Some c /\ _status_message m = Some phrase
           /\ _cseq m = None /\ _method m = None
           /\ CIMultiDict.contains "CSeq" (headers m0) = true)
        \/ (exists name s number other c,
              response_match first = None
              /\ request_match first = Some name
              /\ CIMultiDict.find "CSeq" h = Some (HStr s)
              /\ words s = [number; other]
              /\ py_int number = Ok c
              /\ kind m = IsRequest
              /\ _status_code m = None /\ _status_message m = None
              /\ _cseq m = Some c /\ _method m = Some (upper name))).
Proof.
  unfold from_raw_headers.
  destruct (decode_text raw) as [text |] eqn:Hdec; cbn [rbind]; [| discriminate].
  destruct (split_eol text) as [| first lines] eqn:Hsplit; [discriminate |].
  destruct (add_lines [] lines) as [h |] eqn:Hadd; cbn [rbind]; [| discriminate].
  destruct (response_match first) as [[code phrase] |] eqn:Hresp.
  - destruct (py_int code) as [c |] eqn:Hint; cbn [rbind]; [| discriminate].
    intros Hrun.
    destruct (Response_init_inv _ _ _ _ _ _ _ _ _ _ _ _ Hrun)
      as (m0 & message & Hinit & Hk & Hh & Hp & Hr & Hf & Ht & Hcd & Hsc & Hsm
          & Hmsg & Hcs & Hms & Hfl).
    destruct (Message_init_inv _ _ _ _ _ _ _ Hinit)
      as (_ & Hp0 & _ & Hf0 & Ht0 & _).
    destruct (response_match_inv _ _ _ Hresp) as [Hne _].
    assert (Hnp : nonempty (Some phrase) = true)
      by (destruct phrase; [congruence | reflexivity]).
    rewrite Hnp in Hmsg. injection Hmsg as <-.
    rewrite (response_match_nonempty _ _ Hresp) in Hfl.
    cbn [truthy nonempty] in Hcs, Hms. destruct Hcs as [Hcs Hc0]. destruct Hms as [Hms _].
    exists text, first, lines, h, m0. rewrite Hk.
    repeat (split; [first [reflexivity | assumption | congruence] |]).
    left. exists code, phrase, c. repeat split; assumption.
  - destruct (request_match first) as [name |] eqn:Hreq; [| discriminate].
    unfold CIMultiDict.getitem.
    destruct (CIMultiDict.find "CSeq" h) as [[s | l | z] |] eqn:Hcseq; cbn [rbind];
      try discriminate.
    destruct (words s) as [| number [| other [| ? ?]]] eqn:Hw; try discriminate.
    destruct (py_int number) as [c |] eqn:Hint; cbn [rbind]; [| discriminate].
    intros Hrun.
    destruct (Request_init_inv _ _ _ _ _ _ _ _ _ Hrun)
      as (m0 & Hinit & Hk & Hh & Hp & Hr & Hf & Hcd & Hcs & Hms & Hsc & Hsm & Hfl).
    destruct (Message_init_inv _ _ _ _ _ _ _ Hinit)
      as (_ & Hp0 & _ & Hf0 & Ht0 & _).
    rewrite (request_match_nonempty _ _ Hreq) in Hfl. destruct Hfl as [Hfl Hto].
    exists text, first, lines, h, m0. rewrite Hk.
    repeat (split; [first [reflexivity | assumption | congruence] |]).
    right. exists name, s, number, other, c. repeat split; assumption.
Qed.

(*ENCODING-END*)

End Encoding.

(** The examples run with the codec of [Wire]. *)
#[local] Existing Instance Wire.outside.

Example Wire_invite_built :
  Request_init "invite" 1 (Some Wire.alice) (Some Wire.bob) (Some Wire.alice)
    (Some [("Via", Wire.via); ("accept", HStr "x")]) (Some "hello") None
  = Ok Wire_invite
  /\ Response_init IsResponse 200 None (Some [("Via", Wire.via)])
       (Some Wire.alice) (Some Wire.bob) None None (Some 1) (Some "INVITE") None
     = Ok Wire_ok.
Proof. split; reflexivity. Qed.

(** The INVITE of the examples goes out with [Content-Length: 5] for
    its payload [hello]. *)
Lemma content_length_is_body_length_witness :
  exists out m',
    encode Wire_invite = Ok (out, m')
    /\ In "Content-Length: 5" (header_lines IsRequest (headers m')).
Proof.
  destruct (encode Wire_invite) as [[out m'] |] eqn:E;
    [| vm_compute in E; discriminate E].
  exists out, m'. split; [reflexivity |].
  exact (proj1 (proj2 (proj1 (content_length_is_body_length Wire_invite) out m' E))).
Defined.


(** The INVITE of the examples: its [Via] line is first, and the items
    behind it ascend by their keys as written. *)
Lemma header_lines_via_first_then_sorted_witness :
  NoDup (map fst (CIMultiDict.items (headers Wire_invite)))
  /\ exists out m' others,
       encode Wire_invite = Ok (out, m')
       /\ Permutation others (List.filter not_via (headers m'))
       /\ StronglySorted key_lt others.
Proof.
  assert (Hnd : NoDup (map fst (CIMultiDict.items (headers Wire_invite))))
    by (apply (bool_decide_unpack _); vm_compute; exact I).
  split; [exact Hnd |].
  destruct (encode Wire_invite) as [[out m'] |] eqn:E;
    [| vm_compute in E; discriminate E].
  destruct (header_lines_via_first_then_sorted Wire_invite out m' Hnd E)
    as (others & _ & _ & Hperm & Hsorted).
  exists out, m', others. auto.
Defined.

(** The same INVITE goes out with [CSeq] before [Call-ID], and with
    [accept] last: the names do not ascend when case is disregarded. *)
Lemma encoded_names_not_ascending_without_case :
  exists out m',
    encode Wire_invite = Ok (out, m')
    /\ header_lines (kind Wire_invite) (headers m')
       = ["Via: SIP/2.0/UDP example.org;branch=z9hG4bK1"; "CSeq: 1 INVITE";
          "Call-ID: 7f1c"; "Contact: sip:alice@example.org;tag=a1";
          "Content-Length: 5"; "From: sip:alice@example.org;tag=a1";
          "Max-Forwards: 70"; "To: sip:bob@example.org"; "accept: x"]
    /\ via_first_then_ascending_ci (header_lines (kind Wire_invite) (headers m')) = false
    /\ ci_leb "CSeq" "Call-ID" = false.
Proof.
  destruct (encode Wire_invite) as [[out m'] |] eqn:E;
    [| vm_compute in E; discriminate E].
  exists out, m'. split; [reflexivity |].
  vm_compute in E. injection E as _ <-.
  split; [vm_compute; reflexivity |]. split; vm_compute; reflexivity.
Qed.

(*MFACTS-END*)

End MessageFacts.
